(** * Code signing for macOS: a model of [scripts/lib/sign-macos.ts]

    The development embeds the signing script as Rocq functions and proves
    the properties its specification states about the bundle walker, the
    path classifier, the Mach-O detector, the metadata resolver, the
    constraint evaluator and the signing driver.

    Conventions.  Paths are strings; the script runs on macOS, so Node's
    [path] is its POSIX flavour and [path.sep] is a slash.  Promises that
    reject and functions that throw return [Err]; [try]/[catch] is a match
    on the result.  The outcome of a spawned process is its exit status,
    given by a function of the command line: the status the command has
    when the run spawns it.  The walker is the generator that the loop of
    the driver consumes, so its presence checks are spawned between the
    signing invocations, in the order of the source.  The file system
    answers through the host: the tree of the bundle, and what [lstat]
    finds at a path when the removal phase starts.  The working directory
    is an absolute normalised path.  Creating the scratch directory and
    writing the description files succeed. *)

From Stdlib Require Import List String Ascii ZArith Lia Bool Arith.
From Stdlib Require Import Strings.Byte Numbers.DecimalString FinFun.
Import ListNotations.

Local Open Scope string_scope.
Local Open Scope list_scope.

(** * Part I: the model *)

(** ** Results of fallible operations *)

Inductive result (A : Type) : Type :=
| Ok (value : A)
| Err (message : string).

Arguments Ok {A} value.
Arguments Err {A} message.

(** ** JavaScript string primitives used by the script *)

Module JsString.

(** [s.endsWith(suffix)] *)
Fixpoint endsWith (s suffix : string) : bool :=
  String.eqb s suffix ||
  match s with
  | EmptyString => false
  | String _ s' => endsWith s' suffix
  end.

(** [s.split(sep)] for a one-character separator.  The result is never
    empty: [''.split('/')] is [['']]. *)
Fixpoint split (sep : ascii) (s : string) : list string :=
  match s with
  | EmptyString => [EmptyString]
  | String c s' =>
      if Ascii.eqb c sep then EmptyString :: split sep s'
      else match split sep s' with
           | [] => [String c EmptyString]
           | h :: t => String c h :: t
           end
  end.

(** [xs.includes(x)] on an array of strings. *)
Definition includes (xs : list string) (x : string) : bool :=
  existsb (String.eqb x) xs.

(** The character [c] occurs in [s]. *)
Fixpoint mem (c : ascii) (s : string) : bool :=
  match s with
  | EmptyString => false
  | String d s' => Ascii.eqb d c || mem c s'
  end.

End JsString.

(** ** Paths *)

Module Path.

(** [path.sep] *)
Definition sep : ascii := "/"%char.

Definition sepS : string := String sep EmptyString.

(** [path.resolve(dir, name)] and [path.join(dir, name)], for an absolute
    normalised [dir] and a relative normalised [name]. *)
Definition resolve (dir name : string) : string :=
  (dir ++ sepS ++ name)%string.

Definition join (dir name : string) : string := resolve dir name.

(** [q] lies strictly underneath [p] by directory containment. *)
Definition under (p q : string) : Prop :=
  exists rest, q = (p ++ sepS ++ rest)%string.

Fixpoint dropCommon (a b : list string) : list string * list string :=
  match a, b with
  | x :: a', y :: b' => if String.eqb x y then dropCommon a' b' else (a, b)
  | _, _ => (a, b)
  end.

(** [path.relative(from, to)] for absolute normalised paths. *)
Definition relative (from to : string) : string :=
  let (up, down) :=
    dropCommon (JsString.split sep from) (JsString.split sep to) in
  String.concat sepS (map (fun _ => "..") up ++ down).

(** The segments of [path.normalize]: empty and [.] segments vanish, and
    [..] removes the segment before it; where there is none, [..] is kept
    in a relative path and dropped in an absolute one.  [stack] holds the
    segments so far, the last one first. *)
Fixpoint normalizeSegments (allowAboveRoot : bool) (stack parts : list string)
  : list string :=
  match parts with
  | [] => rev stack
  | part :: rest =>
      if String.eqb part EmptyString || String.eqb part "." then
        normalizeSegments allowAboveRoot stack rest
      else if String.eqb part ".." then
        match stack with
        | top :: stack' =>
            if String.eqb top ".." then
              normalizeSegments allowAboveRoot
                (if allowAboveRoot then ".." :: stack else stack) rest
            else normalizeSegments allowAboveRoot stack' rest
        | [] =>
            normalizeSegments allowAboveRoot
              (if allowAboveRoot then [".."] else []) rest
        end
      else normalizeSegments allowAboveRoot (part :: stack) rest
  end.

Definition startsWithSep (s : string) : bool :=
  match s with
  | String c _ => Ascii.eqb c sep
  | EmptyString => false
  end.

Fixpoint endsWithSep (s : string) : bool :=
  match s with
  | EmptyString => false
  | String c EmptyString => Ascii.eqb c sep
  | String _ s' => endsWithSep s'
  end.

(** [path.normalize(p)] *)
Definition normalize (p : string) : string :=
  if String.eqb p EmptyString then "."
  else
    let isAbsolute := startsWithSep p in
    let trailingSeparator := endsWithSep p in
    let body :=
      String.concat sepS
        (normalizeSegments (negb isAbsolute) [] (JsString.split sep p)) in
    if String.eqb body EmptyString then
      if isAbsolute then sepS else if trailingSeparator then "./" else "."
    else
      let body := if trailingSeparator then (body ++ sepS)%string else body in
      if isAbsolute then (sepS ++ body)%string else body.

(** [path.join(dir, name)] for any two arguments: the arguments that are
    not empty, joined by a separator and normalised. *)
Definition joinAny (dir name : string) : string :=
  let joined :=
    if String.eqb dir EmptyString then name
    else if String.eqb name EmptyString then dir
    else (dir ++ sepS ++ name)%string in
  if String.eqb joined EmptyString then "." else normalize joined.

End Path.

(** ** The bundle tree *)

(** What [readdir(dir, { withFileTypes: true })] and [open]/[read] observe.
    A regular file carries its bytes, or [None] when it cannot be opened or
    read.  [Special] stands for sockets, pipes and devices: entries that are
    neither files, directories nor links. *)
#[warnings="-register-all"]
Inductive node : Type :=
| RegularFile (data : option (list byte))
| Symlink
| Directory (entries : list (string * node))
| Special.

(** A directory listing as the file system gives it: entry names are
    distinct and contain no separator. *)
Fixpoint wellFormed (n : node) : Prop :=
  match n with
  | Directory entries =>
      NoDup (map fst entries) /\
      (fix all (es : list (string * node)) : Prop :=
         match es with
         | [] => True
         | (name, child) :: es' =>
             JsString.mem Path.sep name = false /\ wellFormed child /\ all es'
         end) entries
  | _ => True
  end.

(** [located dir root p n]: the entry [n] sits at path [p] in the tree
    [root] found at [dir], reached through directories only. *)
Inductive located : string -> node -> string -> node -> Prop :=
| located_here : forall dir root, located dir root dir root
| located_below : forall dir entries name child p n,
    In (name, child) entries ->
    located (Path.resolve dir name) child p n ->
    located dir (Directory entries) p n.

(** ** The artifact classifier *)

(** [isBundleExecutable], lines 228-245. *)
Definition isBundleExecutable (fullPath : string) : bool :=
  let parts := rev (JsString.split Path.sep fullPath) in
  let p0 := nth 0 parts EmptyString in
  if (4 <=? List.length parts)%nat &&
     JsString.endsWith fullPath (p0 ++ ".app/Contents/MacOS/" ++ p0)%string
  then true
  else if (4 <=? List.length parts)%nat &&
          (String.eqb (nth 3 parts EmptyString) (p0 ++ ".framework")%string &&
           String.eqb (nth 2 parts EmptyString) "Versions")
  then true
  else false.

(** The two patterns as the specification words them, component by
    component: the file [<Name>] in [<Name>.app/Contents/MacOS], and the
    file [<Name>] whose grandparent is [Versions] and whose
    great-grandparent is [<Name>.framework]. *)
Definition isAppExecutable (fullPath : string) : bool :=
  match rev (JsString.split Path.sep fullPath) with
  | name :: macos :: contents :: app :: _ =>
      String.eqb macos "MacOS" && String.eqb contents "Contents" &&
      String.eqb app (name ++ ".app")%string
  | _ => false
  end.

Definition isFrameworkExecutable (fullPath : string) : bool :=
  match rev (JsString.split Path.sep fullPath) with
  | name :: _ :: versions :: framework :: _ =>
      String.eqb versions "Versions" &&
      String.eqb framework (name ++ ".framework")%string
  | _ => false
  end.

Definition bundleExecutableByComponents (fullPath : string) : bool :=
  isAppExecutable fullPath || isFrameworkExecutable fullPath.

(** ** The binary detector, lines 181-203 *)

(** [file.read({ buffer: Buffer.alloc(4), length: 4 })]: the buffer starts
    zeroed and receives at most four bytes. *)
Definition read4 (data : list byte) : list byte :=
  firstn 4 (data ++ repeat x00 4).

(** [buffer.readUInt32BE()] *)
Definition readUInt32BE (buffer : list byte) : Z :=
  fold_left (fun acc b => acc * 256 + Z.of_N (Byte.to_N b))%Z (firstn 4 buffer) 0%Z.

Definition validHeaders : list Z :=
  [ 0xFEEDFACF (* Mach-O 64 bit, correct endian *)
  ; 0xCFFAEDFE (* Mach-O 64 bit, reversed endian *) ]%Z.

(** Opening and reading the header; [Err] is the exception of the outer
    [try]. *)
Definition readHeader (data : option (list byte)) : result Z :=
  match data with
  | None => Err "EACCES"
  | Some bytes => Ok (readUInt32BE (read4 bytes))
  end.

(** The file passes the header test: the walker goes on to the presence
    check.  Both the failed test and the [catch] branch [continue]. *)
Definition hasValidHeader (data : option (list byte)) : bool :=
  match readHeader data with
  | Ok header => existsb (Z.eqb header) validHeaders
  | Err _ => false
  end.

(** ** The walker, lines 155-223 *)

Section Walker.

(** Exit status of a spawned command line. *)
Variable exitStatus : string -> list string -> Z.

(** [spawnFile] from [@pkg/utils/childProcess]: rejects unless the process
    exits with status zero. *)
Definition spawnFile (command : string) (args : list string) : result unit :=
  if (exitStatus command args =? 0)%Z then Ok tt
  else Err (command ++ " exited with a non-zero status")%string.

Definition verifyArgs (target : string) : list string :=
  ["--verify"; "--strict=all"; "--test-requirement=anchor apple"; target].

(** What the presence check of lines 206-211 and 216-221 yields: the path,
    in the [catch] branch. *)
Definition yieldUnlessSigned (target : string) : list string :=
  match spawnFile "codesign" (verifyArgs target) with
  | Ok _ => []
  | Err _ => [target]
  end.

(** One iteration of the loop over the directory entries, for the entry
    [n] at [fullPath], and the whole generator on a directory. *)
Fixpoint visit (fullPath : string) (n : node) : list string :=
  match n with
  | Symlink => []
  | Directory entries =>
      flat_map (fun e => visit (Path.resolve fullPath (fst e)) (snd e)) entries
      ++ (if JsString.endsWith fullPath ".app" || JsString.endsWith fullPath ".framework"
          then yieldUnlessSigned fullPath
          else [])
  | Special => []
  | RegularFile data =>
      if isBundleExecutable fullPath then []
      else if hasValidHeader data then yieldUnlessSigned fullPath
      else []
  end.

(** [findFilesToSign(dir)], the paths in the order they are yielded.  The
    generator as it runs, with the commands it spawns, is [walk] below. *)
Definition findFilesToSign (dir : string) (entries : list (string * node)) : list string :=
  visit dir (Directory entries).

End Walker.

(** ** Vocabulary of the walker's properties *)

(** A tail that is empty or opens a new path component. *)
Definition componentEnd (s : string) : Prop :=
  s = EmptyString \/ exists r, s = (Path.sepS ++ r)%string.

(** [q] is [p] or lies underneath it. *)
Definition within (p q : string) : Prop :=
  exists s, componentEnd s /\ q = (p ++ s)%string.

(** Nothing underneath a path is yielded after it. *)
Definition childrenFirst (yielded : list string) : Prop :=
  forall before p after q,
    yielded = before ++ p :: after -> Path.under p q -> ~ In q after.

(** Induction over bundle trees, with the hypothesis for every entry of a
    directory. *)
Section NodeInduction.

Variable P : node -> Prop.
Hypothesis P_file : forall data, P (RegularFile data).
Hypothesis P_link : P Symlink.
Hypothesis P_special : P Special.
Hypothesis P_dir : forall entries,
  Forall (fun e => P (snd e)) entries -> P (Directory entries).

Fixpoint node_induction (n : node) : P n :=
  match n with
  | RegularFile data => P_file data
  | Symlink => P_link
  | Special => P_special
  | Directory entries =>
      P_dir entries
        ((fix all (es : list (string * node)) : Forall (fun e => P (snd e)) es :=
            match es with
            | [] => Forall_nil _
            | e :: es' => Forall_cons e (node_induction (snd e)) (all es')
            end) entries)
  end.

End NodeInduction.

(** ** Configuration values *)

(** What [yaml.parse] produces and [plist.build] consumes. *)
#[warnings="-register-all"]
Inductive value : Type :=
| VString (s : string)
| VNumber (n : Z)
| VBoolean (b : bool)
| VNull
| VArray (items : list value)
| VObject (fields : list (string * value)).

(** The keys ['0'], ['1'], ... of an array-like object. *)
Definition indexKey (i : nat) : string :=
  NilEmpty.string_of_uint (Nat.to_uint i).

Definition indexKeys (n : nat) : list string := map indexKey (seq 0 n).

(** ** lodash *)

Module Lodash.

(** The own enumerable string-keyed properties that [_.keys] sees: the
    fields of an object, the elements of an array under their indices, the
    characters of a string under their indices, nothing for numbers,
    booleans and [null]. *)
Definition ownEntries (object : value) : list (string * value) :=
  match object with
  | VObject fields => fields
  | VArray items => combine (indexKeys (List.length items)) items
  | VString s =>
      combine (indexKeys (String.length s))
              (map (fun c => VString (String c EmptyString)) (list_ascii_of_string s))
  | VNumber _ | VBoolean _ | VNull => []
  end.

(** [_.mapValues(object, iteratee)]: always a fresh plain object. *)
Definition mapValues (object : value) (iteratee : value -> value) : value :=
  VObject (map (fun kv => (fst kv, iteratee (snd kv))) (ownEntries object)).

End Lodash.

(** ** The constraint environment evaluator, lines 250-271 *)

Section Evaluator.

(** [process.env.AC_TEAMID] *)
Variable teamId : option string.

(** [process.env.X || fallback]: an unset or empty variable is falsy. *)
Definition envOr (variable : option string) (fallback : string) : string :=
  match variable with
  | Some s => if String.eqb s EmptyString then fallback else s
  | None => fallback
  end.

(** The second [switch], reached by strings only. *)
Definition substitute (s : string) : string :=
  if String.eqb s "${AC_TEAMID}" then envOr teamId s else s.

(** [evaluateConstraints], with [_.mapValues] unfolded so that the recursion
    is structural; [evaluateConstraints_mapValues] below gives it back in
    the shape of the source.  On a string the callback sees one-character
    strings, which it can only send through the second [switch]. *)
Fixpoint evaluateConstraints (constraint : value) : value :=
  let callback (v : value) : value :=
    match v with
    | VString s => VString (substitute s)
    | VArray items => VArray (map evaluateConstraints items)
    | VObject _ | VNull => evaluateConstraints v
    | VNumber _ | VBoolean _ => v
    end in
  match constraint with
  | VObject fields =>
      VObject (map (fun kv => (fst kv, callback (snd kv))) fields)
  | VArray items =>
      VObject (combine (indexKeys (List.length items)) (map callback items))
  | VString s =>
      VObject (combine (indexKeys (String.length s))
                 (map (fun c => VString (substitute (String c EmptyString)))
                      (list_ascii_of_string s)))
  | VNumber _ | VBoolean _ | VNull => VObject []
  end.

(** The arrow function handed to [_.mapValues], lines 251-270. *)
Definition evaluateValue (v : value) : value :=
  match v with
  | VString s => VString (substitute s)
  | VArray items => VArray (map evaluateConstraints items)
  | VObject _ | VNull => evaluateConstraints v
  | VNumber _ | VBoolean _ => v
  end.

(** The transform as the specification words it: placeholders replaced at
    string leaves, objects and sequences transformed element by element,
    everything else unchanged. *)
Fixpoint substituteEverywhere (v : value) : value :=
  match v with
  | VString s => VString (substitute s)
  | VArray items => VArray (map substituteEverywhere items)
  | VObject fields =>
      VObject (map (fun kv => (fst kv, substituteEverywhere (snd kv))) fields)
  | VNumber _ | VBoolean _ | VNull => v
  end.

End Evaluator.

(** Declarations on which the code and the specification agree: no [null],
    and every element of a sequence is a mapping. *)
Fixpoint regular (v : value) : Prop :=
  match v with
  | VString _ | VNumber _ | VBoolean _ => True
  | VNull => False
  | VArray items =>
      (fix all (l : list value) : Prop :=
         match l with
         | [] => True
         | item :: l' =>
             (exists fields, item = VObject fields) /\ regular item /\ all l'
         end) items
  | VObject fields =>
      (fix all (l : list (string * value)) : Prop :=
         match l with
         | [] => True
         | kv :: l' => regular (snd kv) /\ all l'
         end) fields
  end.

(** Induction over values, with the hypothesis for every element. *)
Section ValueInduction.

Variable P : value -> Prop.
Hypothesis P_string : forall s, P (VString s).
Hypothesis P_number : forall n, P (VNumber n).
Hypothesis P_boolean : forall b, P (VBoolean b).
Hypothesis P_null : P VNull.
Hypothesis P_array : forall items, Forall P items -> P (VArray items).
Hypothesis P_object : forall fields,
  Forall (fun kv => P (snd kv)) fields -> P (VObject fields).

Fixpoint value_induction (v : value) : P v :=
  match v with
  | VString s => P_string s
  | VNumber n => P_number n
  | VBoolean b => P_boolean b
  | VNull => P_null
  | VArray items =>
      P_array items
        ((fix all (l : list value) : Forall P l :=
            match l with
            | [] => Forall_nil _
            | x :: l' => Forall_cons x (value_induction x) (all l')
            end) items)
  | VObject fields =>
      P_object fields
        ((fix all (l : list (string * value)) : Forall (fun kv => P (snd kv)) l :=
            match l with
            | [] => Forall_nil _
            | kv :: l' => Forall_cons kv (value_induction (snd kv)) (all l')
            end) fields)
  end.

End ValueInduction.

(** ** SHA-256 (FIPS 180-4), as [createHash('sha256')] computes it *)

Module Sha256.

Local Open Scope Z_scope.

(** 32-bit words are integers below [2^32]; additions wrap around. *)
Definition wrap (x : Z) : Z := x mod 2 ^ 32.

Definition rotr (n x : Z) : Z :=
  Z.lor (Z.shiftr x n) (wrap (Z.shiftl x (32 - n))).

Definition Ch (x y z : Z) : Z :=
  Z.lxor (Z.land x y) (Z.land (Z.lxor x 0xFFFFFFFF) z).

Definition Maj (x y z : Z) : Z :=
  Z.lxor (Z.lxor (Z.land x y) (Z.land x z)) (Z.land y z).

Definition bigSigma0 (x : Z) : Z :=
  Z.lxor (Z.lxor (rotr 2 x) (rotr 13 x)) (rotr 22 x).

Definition bigSigma1 (x : Z) : Z :=
  Z.lxor (Z.lxor (rotr 6 x) (rotr 11 x)) (rotr 25 x).

Definition smallSigma0 (x : Z) : Z :=
  Z.lxor (Z.lxor (rotr 7 x) (rotr 18 x)) (Z.shiftr x 3).

Definition smallSigma1 (x : Z) : Z :=
  Z.lxor (Z.lxor (rotr 17 x) (rotr 19 x)) (Z.shiftr x 10).

(** The first 64 primes. *)
Definition primes : list Z :=
  [   2;   3;   5;   7;  11;  13;  17;  19;  23;  29;  31;  37;  41;
     43;  47;  53;  59;  61;  67;  71;  73;  79;  83;  89;  97; 101;
    103; 107; 109; 113; 127; 131; 137; 139; 149; 151; 157; 163; 167;
    173; 179; 181; 191; 193; 197; 199; 211; 223; 227; 229; 233; 239;
    241; 251; 257; 263; 269; 271; 277; 281; 283; 293; 307; 311 ].

(** The integer cube root, found bit by bit from the top. *)
Fixpoint cubeRootFrom (bit : nat) (root n : Z) : Z :=
  let candidate := root + 2 ^ Z.of_nat bit in
  let root' := if candidate * candidate * candidate <=? n then candidate else root in
  match bit with
  | O => root'
  | S bit' => cubeRootFrom bit' root' n
  end.

Definition cubeRoot (n : Z) : Z := cubeRootFrom 40 0 n.

(** The round constants: the first 32 bits of the fractional parts of the
    cube roots of the first 64 primes. *)
Definition K : list Z := map (fun p => wrap (cubeRoot (p * 2 ^ 96))) primes.

(** The eight working variables, and the chaining value between blocks. *)
Record registers : Type := Registers {
  ra : Z; rb : Z; rc : Z; rd : Z; re : Z; rf : Z; rg : Z; rh : Z
}.

(** The initial hash value: the first 32 bits of the fractional parts of
    the square roots of the first 8 primes. *)
Definition fractionOfRoot (p : Z) : Z := wrap (Z.sqrt (p * 2 ^ 64)).

Definition initial : registers :=
  Registers (fractionOfRoot 2) (fractionOfRoot 3) (fractionOfRoot 5)
            (fractionOfRoot 7) (fractionOfRoot 11) (fractionOfRoot 13)
            (fractionOfRoot 17) (fractionOfRoot 19).

(** The bytes of a string; a path is hashed as its UTF-8 text. *)
Definition bytesOfString (s : string) : list Z :=
  map (fun c => Z.of_N (N_of_ascii c)) (list_ascii_of_string s).

(** The big-endian bytes of a [width]-byte integer. *)
Fixpoint bigEndian (width : nat) (x : Z) : list Z :=
  match width with
  | O => []
  | S w => (x / 256 ^ Z.of_nat w) mod 256 :: bigEndian w x
  end.

(** Padding: a one bit, zeros up to 56 modulo 64, the bit length. *)
Definition pad (message : list Z) : list Z :=
  let len := Z.of_nat (List.length message) in
  let zeros := Z.to_nat ((55 - len) mod 64) in
  message ++ [0x80] ++ repeat 0 zeros ++ bigEndian 8 (8 * len).

Fixpoint chunks (count size : nat) (bytes : list Z) : list (list Z) :=
  match count with
  | O => []
  | S count' => firstn size bytes :: chunks count' size (skipn size bytes)
  end.

Definition wordOfBytes (bytes : list Z) : Z :=
  fold_left (fun acc b => acc * 256 + b) bytes 0.

(** The message schedule, newest word first while it is built. *)
Fixpoint extend (steps : nat) (recent : list Z) : list Z :=
  match steps with
  | O => recent
  | S steps' =>
      let w := wrap (smallSigma1 (nth 1 recent 0) + nth 6 recent 0 +
                     smallSigma0 (nth 14 recent 0) + nth 15 recent 0) in
      extend steps' (w :: recent)
  end.

Definition schedule (block : list Z) : list Z :=
  rev (extend 48 (rev (map wordOfBytes (chunks 16 4 block)))).

Definition round (r : registers) (kw : Z * Z) : registers :=
  let t1 := wrap (rh r + bigSigma1 (re r) + Ch (re r) (rf r) (rg r) + fst kw + snd kw) in
  let t2 := wrap (bigSigma0 (ra r) + Maj (ra r) (rb r) (rc r)) in
  Registers (wrap (t1 + t2)) (ra r) (rb r) (rc r) (wrap (rd r + t1)) (re r) (rf r) (rg r).

Definition compress (h : registers) (block : list Z) : registers :=
  let r := fold_left round (combine K (schedule block)) h in
  Registers (wrap (ra h + ra r)) (wrap (rb h + rb r)) (wrap (rc h + rc r))
            (wrap (rd h + rd r)) (wrap (re h + re r)) (wrap (rf h + rf r))
            (wrap (rg h + rg r)) (wrap (rh h + rh r)).

Definition serialize (h : registers) : list Z :=
  bigEndian 4 (ra h) ++ bigEndian 4 (rb h) ++ bigEndian 4 (rc h) ++
  bigEndian 4 (rd h) ++ bigEndian 4 (re h) ++ bigEndian 4 (rf h) ++
  bigEndian 4 (rg h) ++ bigEndian 4 (rh h).

(** [createHash('sha256').update(message).digest()] *)
Definition digest (message : list Z) : list Z :=
  let padded := pad message in
  serialize
    (fold_left compress (chunks (List.length padded / 64) 64 padded) initial).

End Sha256.

(** ** The [base64url] encoding of a digest (RFC 4648, section 5, unpadded) *)

Module Base64url.

Local Open Scope Z_scope.

Definition alphabet : list ascii :=
  list_ascii_of_string
    "ABCDEFGHIJKLMNOPQRSTUVWXYZabcdefghijklmnopqrstuvwxyz0123456789-_".

Definition digit (i : Z) : ascii := nth (Z.to_nat i) alphabet "A"%char.

(** The position of a character in the alphabet. *)
Fixpoint position (c : ascii) (symbols : list ascii) : Z :=
  match symbols with
  | [] => 0
  | d :: rest => if Ascii.eqb c d then 0 else 1 + position c rest
  end.

Fixpoint encode (bytes : list Z) : string :=
  match bytes with
  | a :: b :: c :: rest =>
      String (digit (a / 4))
        (String (digit (a mod 4 * 16 + b / 16))
           (String (digit (b mod 16 * 4 + c / 64))
              (String (digit (c mod 64)) (encode rest))))
  | [a; b] =>
      String (digit (a / 4))
        (String (digit (a mod 4 * 16 + b / 16))
           (String (digit (b mod 16 * 4)) EmptyString))
  | [a] =>
      String (digit (a / 4)) (String (digit (a mod 4 * 16)) EmptyString)
  | [] => EmptyString
  end.

End Base64url.

(** ** Counting digests *)

Definition isByte (b : Z) : Prop := (0 <= b < 256)%Z.

Definition byteValues : list Z := map Z.of_nat (seq 0 256).

(** Every list of [n] bytes. *)
Fixpoint byteLists (n : nat) : list (list Z) :=
  match n with
  | O => [[]]
  | S n' => flat_map (fun l => map (fun b => b :: l) byteValues) (byteLists n')
  end.

(** A string of [n] letters. *)
Fixpoint unary (n : nat) : string :=
  match n with
  | O => EmptyString
  | S n' => String "a"%char (unary n')
  end.

(** [createHash('sha256').update(relPath, 'utf-8').digest('base64url')],
    line 65. *)
Definition fileHash (relPath : string) : string :=
  Base64url.encode (Sha256.digest (Sha256.bytesOfString relPath)).

(** ** The signing configuration, lines 17-32 *)

Module Override.
Record t : Type := { paths : list string; entitlements : list string }.
End Override.

Inductive constraintType : Type := Self | Parent | Responsible.

Definition constraintTypes : list constraintType := [Self; Parent; Responsible].

Definition constraintTypeName (type : constraintType) : string :=
  match type with
  | Self => "self"
  | Parent => "parent"
  | Responsible => "responsible"
  end.

(** A declaration, where a record has one, is a mapping, as the type of the
    script says; a mapping is truthy, so [if (constraint)] tests presence. *)
Module LaunchConstraints.
Record t : Type := {
  paths : list string;
  self : option (list (string * value));
  parent : option (list (string * value));
  responsible : option (list (string * value))
}.

(** [launchConstraints[constraintType]] *)
Definition get (record : t) (type : constraintType) : option (list (string * value)) :=
  match type with
  | Self => self record
  | Parent => parent record
  | Responsible => responsible record
  end.
End LaunchConstraints.

Record SigningConfig : Type := {
  entitlementsDefault : list string;
  entitlementsOverrides : list Override.t;
  constraints : list LaunchConstraints.t;
  remove : list string
}.

(** The fields of [electron-builder.yml] the script reads. *)
Record Configuration : Type := {
  appId : option string;
  productName : option string
}.

(** ** The file system and the bundle *)

Module Fs.

(** What [lstat] finds at a path: an entry of the bundle, named by its
    location, the names that lead to it from the bundle directory through
    directories (no name for the bundle directory itself); a directory that
    holds the bundle; something else outside the bundle; or nothing.  The
    file system resolves the path: it follows the links on the way and
    compares names as it does. *)
Inductive found : Type :=
| Entry (location : list string)
| Holder
| Elsewhere
| NoEntry.

Definition resolves (what : found) : bool :=
  match what with
  | NoEntry => false
  | _ => true
  end.

(** The entry at a location below [n]. *)
Fixpoint lookup (components : list string) (n : node) : option node :=
  match components with
  | [] => Some n
  | name :: rest =>
      match n with
      | Directory entries =>
          match find (fun e => String.eqb (fst e) name) entries with
          | Some e => lookup rest (snd e)
          | None => None
          end
      | _ => None
      end
  end.

(** The listing without the entry at a location, [None] when there is no
    such entry. *)
Fixpoint removeAt (components : list string) (entries : list (string * node))
  : option (list (string * node)) :=
  match components with
  | [] => None
  | name :: rest =>
      (fix scan (es : list (string * node)) : option (list (string * node)) :=
         match es with
         | [] => None
         | e :: es' =>
             if String.eqb (fst e) name then
               match rest with
               | [] => Some es'
               | _ :: _ =>
                   match snd e with
                   | Directory sub =>
                       option_map (fun sub' => (fst e, Directory sub') :: es')
                                  (removeAt rest sub)
                   | _ => None
                   end
               end
             else option_map (cons e) (scan es')
         end) entries
  end.

(** The bundle once a recursive removal of what was found is done: the
    entries that are left, or [None] when the bundle directory itself is
    gone.  An entry that another removal has taken away already is no
    error: only the check before the removal rejects a missing path. *)
Definition remove (state : option (list (string * node))) (what : found)
  : option (list (string * node)) :=
  match state, what with
  | Some entries, Entry (name :: rest) =>
      match removeAt (name :: rest) entries with
      | Some entries' => Some entries'
      | None => Some entries
      end
  | Some entries, Entry [] => None
  | Some entries, Holder => None
  | Some entries, Elsewhere => Some entries
  | Some entries, NoEntry => Some entries
  | None, _ => None
  end.

End Fs.

(** ** The host the script runs on *)

Record Environment : Type := {
  CSC_FINGERPRINT : option string;
  APPLEID : option string;
  AC_PASSWORD : option string;
  AC_TEAMID : option string;
  M1 : option string;
  argv : list string
}.

Record Host : Type := {
  env : Environment;
  (** exit status of a spawned command line *)
  exitStatus : string -> list string -> Z;
  (** the entries of the application bundle when the script starts *)
  bundle : list (string * node);
  (** what [lstat] finds at an absolute path when the removal phase starts *)
  lstat : string -> Fs.found;
  (** [Contents/electron-builder.yml], read and parsed *)
  builderConfig : result Configuration;
  (** [Contents/build/signing-config-mac.yaml], read and parsed *)
  signingConfigFile : result SigningConfig;
  (** whether [notarize] resolves *)
  notarizeSucceeds : bool;
  (** what [build] resolves to *)
  buildResults : result (list string)
}.

(** A variable that is set and not empty: truthy in JavaScript. *)
Definition isSet (variable : option string) : bool :=
  match variable with
  | Some s => negb (String.eqb s EmptyString)
  | None => false
  end.

(** ** What the script does to the outside world.  The lines of
    [console.debug] are diagnostics and are not recorded. *)

Inductive event : Type :=
| ConsoleLog (message : string)
| ConsoleWarn (message : string)
| Rm (path : string)
| Mkdir (path : string)
| WriteFile (path : string) (content : value)
| Spawn (command : string) (args : list string)
| Notarize (appBundleId : option string)
           (appPath appleId appleIdPassword teamId : string)
| Build (arch artifactName prepackaged : string).

(** A computation of the script: the events it performed, in order, and
    its outcome.  An error ends the computation. *)
Definition M (A : Type) : Type := (list event * result A)%type.

Definition ret {A : Type} (a : A) : M A := ([], Ok a).

Definition throw {A : Type} (message : string) : M A := ([], Err message).

Definition emit (e : event) : M unit := ([e], Ok tt).

Definition lift {A : Type} (r : result A) : M A := ([], r).

Definition bind {A B : Type} (m : M A) (k : A -> M B) : M B :=
  match m with
  | (t, Ok a) => let (t', r) := k a in (t ++ t', r)
  | (t, Err message) => (t, Err message)
  end.

Notation "x <- m ;; k" := (bind m (fun x => k))
  (at level 61, m at next level, right associativity).
Notation "m ;; k" := (bind m (fun _ => k))
  (at level 61, right associativity).

(** ** The signing driver, lines 34-150 *)

Fixpoint foldM {A B : Type} (f : A -> B -> M A) (l : list B) (a : A) : M A :=
  match l with
  | [] => ret a
  | x :: l' => a' <- f a x ;; foldM f l' a'
  end.

(** [text.replace(/\s+/g, '.')], for the white space of ASCII. *)
Definition isSpace (c : ascii) : bool :=
  let n := nat_of_ascii c in ((9 <=? n) && (n <=? 13) || (n =? 32))%nat.

Fixpoint replaceSpaces (inRun : bool) (s : string) : string :=
  match s with
  | EmptyString => EmptyString
  | String c s' =>
      if isSpace c then
        if inRun then replaceSpaces true s'
        else String "."%char (replaceSpaces true s')
      else String c (replaceSpaces false s')
  end.

Definition newline : string := String (ascii_of_nat 10) EmptyString.

Section Driver.

Variable host : Host.
Variable workDir : string.

Definition certFingerprint : string :=
  match CSC_FINGERPRINT (env host) with
  | Some s => s
  | None => EmptyString
  end.

Definition unpackedDir : string := Path.join workDir "unpacked".
Definition appDir : string := Path.join unpackedDir "Rancher Desktop.app".
Definition plistsDir : string := Path.join workDir "plists".

(** [await spawnFile(command, args, { stdio: 'inherit' })] *)
Definition spawn (command : string) (args : list string) : M unit :=
  emit (Spawn command args) ;;
  lift (spawnFile (exitStatus host) command args).

(** *** The removal phase, lines 55-58.  [Promise.all] over the list:
    [rm] is called for every path before any of the removals settles.  Each
    removal first checks its path with [lstat] and rejects when there is
    nothing, there being no [force] option; otherwise it removes what the
    path names, and an entry that another removal took away meanwhile is
    no error.  The phase rejects when one removal does; what the others do
    after that is not recorded.  Each removal takes effect on the entry
    its path named when the phase started: the list is taken not to remove
    a link that another of its paths leads through, where the removals
    would race. *)
Definition removalPath (relpath : string) : string :=
  Path.joinAny appDir relpath.

Definition removeAll (state : option (list (string * node))) (relpaths : list string)
  : M (option (list (string * node))) :=
  foldM (fun _ relpath => emit (Rm (removalPath relpath))) relpaths tt ;;
  let found := map (fun relpath => lstat host (removalPath relpath)) relpaths in
  if forallb Fs.resolves found then ret (fold_left Fs.remove found state)
  else throw "ENOENT: no such file or directory".

(** *** The metadata resolver, lines 64-77 and 87 *)

Definition entitlementsOverride (config : SigningConfig) (relPath : string)
  : option Override.t :=
  find (fun e => JsString.includes (Override.paths e) relPath)
       (entitlementsOverrides config).

Definition entitlementName (config : SigningConfig) (relPath : string) : string :=
  match entitlementsOverride config relPath with
  | Some _ => fileHash relPath
  | None => "default"
  end.

Definition entitlementsOf (config : SigningConfig) (relPath : string) : list string :=
  match entitlementsOverride config relPath with
  | Some e => Override.entitlements e
  | None => entitlementsDefault config
  end.

Definition entitlementFile (name : string) : string :=
  Path.join plistsDir (name ++ "-entitlement.plist")%string.

(** [Object.fromEntries(entitlements.map(k => [k, true]))] *)
Definition entitlementPlist (entitlements : list string) : value :=
  VObject (map (fun k => (k, VBoolean true)) entitlements).

Definition launchConstraints (config : SigningConfig) (relPath : string)
  : option LaunchConstraints.t :=
  find (fun c => JsString.includes (LaunchConstraints.paths c) relPath)
       (constraints config).

(** [launchConstraints?.[constraintType]] *)
Definition constraintOf (config : SigningConfig) (relPath : string)
    (type : constraintType) : option (list (string * value)) :=
  match launchConstraints config relPath with
  | Some record => LaunchConstraints.get record type
  | None => None
  end.

Definition constraintsFile (relPath : string) (type : constraintType) : string :=
  Path.join plistsDir
    (fileHash relPath ++ "-constraint-" ++ constraintTypeName type ++ ".plist")%string.

Definition constraintFlag (type : constraintType) : string :=
  ("--launch-constraint-" ++ constraintTypeName type)%string.

(** *** One iteration of the signing loop, lines 64-101 *)

(** The body of the loop over [constraintTypes], lines 91-98. *)
Definition addConstraint (config : SigningConfig) (relPath : string)
    (args : list string) (type : constraintType) : M (list string) :=
  match constraintOf config relPath type with
  | Some constraint =>
      emit (WriteFile (constraintsFile relPath type)
              (evaluateConstraints (AC_TEAMID (env host)) (VObject constraint))) ;;
      ret (args ++ [constraintFlag type; constraintsFile relPath type])
  | None => ret args
  end.

(** The state is [wroteDefaultEntitlements]. *)
Definition signFile (config : SigningConfig) (wroteDefaultEntitlements : bool)
    (filePath : string) : M bool :=
  let relPath := Path.relative appDir filePath in
  let args := ["--sign"; certFingerprint; "--force"; "--timestamp";
               "--options"; "runtime"] in
  let name := entitlementName config relPath in
  let file := entitlementFile name in
  let write := negb wroteDefaultEntitlements || negb (String.eqb name "default") in
  (if write
   then emit (WriteFile file (entitlementPlist (entitlementsOf config relPath)))
   else ret tt) ;;
  let wrote :=
    if write then wroteDefaultEntitlements || String.eqb name "default"
    else wroteDefaultEntitlements in
  let args := args ++ ["--entitlements"; file] in
  args <- foldM (addConstraint config relPath) constraintTypes args ;;
  spawn "codesign" (args ++ [filePath]) ;;
  ret wrote.

(** *** The walker as the loop runs it, lines 63 and 155-223.  [for await]
    takes the paths from the generator one at a time: the walker runs up to
    a [yield], the body of the loop runs on the path, and the walker goes
    on from there; an error in the body ends both.  The presence checks
    are commands the walker spawns on its way. *)

(** The presence check of lines 206-212 and 216-222: the command is
    spawned, and its failure is caught and makes the walker yield the
    path, here to [body]. *)
Definition probe {A : Type} (body : A -> string -> M A) (a : A) (target : string)
  : M A :=
  emit (Spawn "codesign" (verifyArgs target)) ;;
  match spawnFile (exitStatus host) "codesign" (verifyArgs target) with
  | Ok _ => ret a
  | Err _ => body a target
  end.

(** [visit], with the body of the loop run at each path it yields. *)
Fixpoint walk {A : Type} (body : A -> string -> M A) (fullPath : string)
    (n : node) (a : A) : M A :=
  match n with
  | Symlink => ret a
  | Directory entries =>
      a' <- foldM (fun a e => walk body (Path.resolve fullPath (fst e)) (snd e) a)
                  entries a ;;
      if JsString.endsWith fullPath ".app" || JsString.endsWith fullPath ".framework"
      then probe body a' fullPath
      else ret a'
  | Special => ret a
  | RegularFile data =>
      if isBundleExecutable fullPath then ret a
      else if hasValidHeader data then probe body a fullPath
      else ret a
  end.

(** The loop of lines 63-102 over the entries of the bundle:
    [for await (const filePath of findFilesToSign(appDir))], with
    [wroteDefaultEntitlements] false at the start. *)
Definition signingLoop (config : SigningConfig) (entries : list (string * node))
  : M bool :=
  walk (signFile config) appDir (Directory entries) false.

(** *** Notarization, lines 108-126 *)

Definition cannotNotarize : string :=
  ("APPLEID, AC_PASSWORD, or AC_TEAMID environment variables not given, cannot notarize."
   ++ newline ++
   "To force skip notarization, please pass --skip-notarize to signing script.")%string.

Definition notarizeApp (config : Configuration) : M unit :=
  if JsString.includes (argv (env host)) "--skip-notarize" then
    emit (ConsoleWarn "Skipping notarization: --skip-notarize given.")
  else if isSet (APPLEID (env host)) && isSet (AC_PASSWORD (env host))
          && isSet (AC_TEAMID (env host)) then
    emit (ConsoleLog "Notarizing application...") ;;
    emit (Notarize (appId config) appDir
            (envOr (APPLEID (env host)) EmptyString)
            (envOr (AC_PASSWORD (env host)) EmptyString)
            (envOr (AC_TEAMID (env host)) EmptyString)) ;;
    (if notarizeSucceeds host then ret tt else throw "notarize failed")
  else throw cannotNotarize.

(** *** The disk image, lines 128-149 *)

Definition buildDiskImage (config : Configuration) : M string :=
  emit (ConsoleLog "Building disk image...") ;;
  let arch := if isSet (M1 (env host)) then "arm64" else "x64" in
  let productFileName :=
    match productName config with
    | Some name => replaceSpaces false name
    | None => "undefined"
    end in
  let productArch := if isSet (M1 (env host)) then "aarch64" else "x86_64" in
  let artifactName :=
    (productFileName ++ "-${version}." ++ productArch ++ ".${ext}")%string in
  emit (Build arch artifactName appDir) ;;
  results <- lift (buildResults host) ;;
  match find (fun v => JsString.endsWith v ".dmg") results with
  | None => throw "Could not find signed disk image"
  | Some dmgFile =>
      spawn "codesign" ["--sign"; certFingerprint; "--timestamp"; dmgFile] ;;
      ret dmgFile
  end.

(** *** The phases before notarization, lines 35-106.  They give the
    packaging configuration to the phases that follow. *)
Definition signBundle : M Configuration :=
  (if (String.length certFingerprint <? 1)%nat
   then throw "CSC_FINGERPRINT environment variable not set; required to pick signing certificate."
   else ret tt) ;;
  config <- lift (builderConfig host) ;;
  signingConfig <- lift (signingConfigFile host) ;;
  emit (ConsoleLog "Removing excess files...") ;;
  state <- removeAll (Some (bundle host)) (remove signingConfig) ;;
  emit (ConsoleLog "Signing application...") ;;
  emit (Mkdir plistsDir) ;;
  entries <- match state with
             | Some entries => ret entries
             | None => throw "ENOENT: no such file or directory"
             end ;;
  signingLoop signingConfig entries ;;
  emit (ConsoleLog "Verifying application signature...") ;;
  spawn "codesign" ["--verify"; "--deep"; "--strict"; "--verbose=2"; appDir] ;;
  spawn "codesign" ["--display"; "--entitlements"; "-"; appDir] ;;
  ret config.

(** [sign(workDir)] *)
Definition sign : M string :=
  config <- signBundle ;;
  notarizeApp config ;;
  buildDiskImage config.

End Driver.

(** ** Vocabulary of the driver's properties *)

Definition traceOf {A : Type} (m : M A) : list event := fst m.

Definition outcomeOf {A : Type} (m : M A) : result A := snd m.

Definition succeeded {A : Type} (r : result A) : bool :=
  match r with
  | Ok _ => true
  | Err _ => false
  end.

(** How many events of a trace satisfy a test. *)
Definition countIf (test : event -> bool) (trace : list event) : nat :=
  List.length (filter test trace).

(** How often a string occurs in a list of arguments. *)
Definition occurrences (x : string) (l : list string) : nat :=
  List.length (filter (String.eqb x) l).

(** [record] is the first element of [l] that passes [test], which is what
    [l.find(test)] returns. *)
Definition firstMatch {A : Type} (test : A -> bool) (l : list A) (record : A)
  : Prop :=
  exists before after,
    l = before ++ record :: after /\
    (forall r, In r before -> test r = false) /\
    test record = true.

(** The event writes the file at [path]. *)
Definition isWriteTo (path : string) (e : event) : bool :=
  match e with
  | WriteFile p _ => String.eqb p path
  | _ => false
  end.

Definition isWrite (e : event) : bool :=
  match e with
  | WriteFile _ _ => true
  | _ => false
  end.

Definition isSpawn (e : event) : bool :=
  match e with
  | Spawn _ _ => true
  | _ => false
  end.

Definition isNotarize (e : event) : bool :=
  match e with
  | Notarize _ _ _ _ _ => true
  | _ => false
  end.

(** The event is a signing invocation of the loop: [codesign --sign
    <certificate> --force ...].  The invocations that verify the bundle and
    that sign the disk image have another third argument. *)
Definition isArtifactSigning (e : event) : bool :=
  match e with
  | Spawn command args =>
      String.eqb command "codesign" && String.eqb (nth 0 args EmptyString) "--sign" &&
      String.eqb (nth 2 args EmptyString) "--force"
  | _ => false
  end.

(** The event is a presence check of the walker. *)
Definition isProbe (e : event) : bool :=
  match e with
  | Spawn command args =>
      String.eqb command "codesign" && String.eqb (nth 0 args EmptyString) "--verify" &&
      String.eqb (nth 1 args EmptyString) "--strict=all"
  | _ => false
  end.

(** The events but the presence checks. *)
Definition withoutProbes (trace : list event) : list event :=
  filter (fun e => negb (isProbe e)) trace.

(** [m'] does what [m] does, the presence checks left out. *)
Definition sameButProbes {A : Type} (m m' : M A) : Prop :=
  withoutProbes (traceOf m) = traceOf m' /\ outcomeOf m = outcomeOf m'.

(** The event is a signing invocation of the loop that passes
    [--entitlements file]. *)
Definition signsWithEntitlements (file : string) (e : event) : bool :=
  match e with
  | Spawn _ args =>
      isArtifactSigning e && String.eqb (nth 6 args EmptyString) "--entitlements" &&
      String.eqb (nth 7 args EmptyString) file
  | _ => false
  end.

Section DriverVocabulary.

Variable host : Host.
Variable workDir : string.
Variable config : SigningConfig.

(** The relative path is listed by no override. *)
Definition notOverridden (relPath : string) : Prop :=
  forall e, In e (entitlementsOverrides config) ->
            JsString.includes (Override.paths e) relPath = false.

(** The flags and the files that the loop over the constraint types adds
    for the given types. *)
Definition constraintArgs (relPath : string) (types : list constraintType)
  : list string :=
  flat_map (fun type =>
    match constraintOf config relPath type with
    | Some _ => [constraintFlag type; constraintsFile workDir relPath type]
    | None => []
    end) types.

Definition constraintWrites (relPath : string) (types : list constraintType)
  : list event :=
  flat_map (fun type =>
    match constraintOf config relPath type with
    | Some constraint =>
        [WriteFile (constraintsFile workDir relPath type)
           (evaluateConstraints (AC_TEAMID (env host)) (VObject constraint))]
    | None => []
    end) types.

(** The arguments of the signing invocation for [filePath]. *)
Definition signArgs (filePath : string) : list string :=
  let relPath := Path.relative (appDir workDir) filePath in
  ["--sign"; certFingerprint host; "--force"; "--timestamp"; "--options"; "runtime"]
  ++ ["--entitlements"; entitlementFile workDir (entitlementName config relPath)]
  ++ constraintArgs relPath constraintTypes
  ++ [filePath].

(** The entitlement file is written for this artifact. *)
Definition writesEntitlements (wroteDefaultEntitlements : bool) (filePath : string)
  : bool :=
  negb wroteDefaultEntitlements ||
  negb (String.eqb
          (entitlementName config (Path.relative (appDir workDir) filePath))
          "default").

End DriverVocabulary.

(** ** The place of the signing loop in a run *)

(** An event that neither writes a file nor signs an artifact. *)
Definition quiet (e : event) : Prop :=
  isWrite e = false /\ isArtifactSigning e = false.

Section RunVocabulary.

Variable host : Host.
Variable workDir : string.

(** The signing loop as a loop over the list of the paths the walker
    yields: the loop of the run with the presence checks left out. *)
Definition loopOverYielded (config : SigningConfig) (entries : list (string * node))
  : M bool :=
  foldM (signFile host workDir config)
        (findFilesToSign (exitStatus host) (appDir workDir) entries) false.

(** The trace of the signing loop of this run, or no trace when the run
    does not reach the loop. *)
Definition loopTrace (trace : list event) : Prop :=
  trace = [] \/
  exists config entries,
    signingConfigFile host = Ok config /\
    trace = traceOf (signingLoop host workDir config entries).

(** The events of a computation are those of the signing loop, between
    quiet events. *)
Definition aroundLoop {A : Type} (m : M A) : Prop :=
  exists pre loop post,
    traceOf m = pre ++ loop ++ post /\
    Forall quiet pre /\ Forall quiet post /\ loopTrace loop.

(** [entitlementFile "default"] *)
Definition defaultEntitlementFile : string := entitlementFile workDir "default".

End RunVocabulary.

(** ** A sample bundle and sample runs *)

Module Sample.

(** A thin Mach-O image, reversed byte order. *)
Definition machO : node :=
  RegularFile (Some [xcf; xfa; xed; xfe; x07; x00; x00; x01]).

Definition entries : list (string * node) :=
  [("Contents", Directory
      [("Info.plist", RegularFile (Some [x3c; x3f; x78; x6d; x6c]));
       ("MacOS", Directory [("Rancher Desktop", machO); ("helper", machO)]);
       ("Frameworks", Directory
          [("A.framework", Directory
              [("A", Symlink);
               ("Versions", Directory
                  [("A", Directory [("A", machO); ("libx.dylib", machO)])])])]);
       ("Resources", Directory [("unused.txt", RegularFile (Some []))])])].

Definition workDir : string := "/w".

Definition app : string := "/w/unpacked/Rancher Desktop.app".

(** The override and the default of the specification's fourth example, a
    launch constraint for the helper, and a file to remove. *)
Definition config : SigningConfig := {|
  entitlementsDefault := ["com.apple.security.bar"];
  entitlementsOverrides :=
    [ {| Override.paths := ["Contents/Frameworks/A.framework/A"];
         Override.entitlements := ["com.apple.security.foo"] |} ];
  constraints :=
    [ {| LaunchConstraints.paths := ["Contents/MacOS/helper"];
         LaunchConstraints.self := Some [("team-identifier", VString "${AC_TEAMID}")];
         LaunchConstraints.parent := None;
         LaunchConstraints.responsible := None |} ];
  remove := ["Contents/Resources/unused.txt"]
|}.

Definition environment : Environment := {|
  CSC_FINGERPRINT := Some "ABCDEF0123";
  APPLEID := None;
  AC_PASSWORD := None;
  AC_TEAMID := Some "TEAM123";
  M1 := None;
  argv := ["node"; "sign.js"; "--skip-notarize"]
|}.

(** Nothing in the bundle is signed yet; every other command succeeds. *)
Definition unsigned (command : string) (args : list string) : Z :=
  match args with
  | "--verify" :: "--strict=all" :: _ => 1%Z
  | _ => 0%Z
  end.

(** The file system of the sample: the file to remove is there, and no
    other path that the samples ask for. *)
Definition fileSystem (path : string) : Fs.found :=
  if String.eqb path "/w/unpacked/Rancher Desktop.app/Contents/Resources/unused.txt"
  then Fs.Entry ["Contents"; "Resources"; "unused.txt"]
  else Fs.NoEntry.

Definition host : Host := {|
  env := environment;
  exitStatus := unsigned;
  bundle := entries;
  lstat := fileSystem;
  builderConfig :=
    Ok {| appId := Some "io.rancherdesktop.app";
          productName := Some "Rancher Desktop" |};
  signingConfigFile := Ok config;
  notarizeSucceeds := true;
  buildResults := Ok ["/w/dist/Rancher.Desktop-1.0.x86_64.dmg"]
|}.

(** A run whose only unsigned artifact is listed by an override: the
    library is overridden, everything else passes the presence check. *)
Definition libraryPath : string :=
  "/w/unpacked/Rancher Desktop.app/Contents/Frameworks/A.framework/Versions/A/libx.dylib".

Definition onlyLibraryUnsigned (command : string) (args : list string) : Z :=
  match args with
  | ["--verify"; "--strict=all"; _; target] =>
      if String.eqb target libraryPath then 1%Z else 0%Z
  | _ => 0%Z
  end.

Definition libraryConfig : SigningConfig := {|
  entitlementsDefault := ["com.apple.security.bar"];
  entitlementsOverrides :=
    [ {| Override.paths := ["Contents/Frameworks/A.framework/Versions/A/libx.dylib"];
         Override.entitlements := ["com.apple.security.foo"] |} ];
  constraints := [];
  remove := []
|}.

Definition libraryHost : Host := {|
  env := environment;
  exitStatus := onlyLibraryUnsigned;
  bundle := entries;
  lstat := fileSystem;
  builderConfig :=
    Ok {| appId := Some "io.rancherdesktop.app";
          productName := Some "Rancher Desktop" |};
  signingConfigFile := Ok libraryConfig;
  notarizeSucceeds := true;
  buildResults := Ok ["/w/dist/Rancher.Desktop-1.0.x86_64.dmg"]
|}.

(** A configuration that removes a file the bundle does not have. *)
Definition staleConfig : SigningConfig := {|
  entitlementsDefault := ["com.apple.security.bar"];
  entitlementsOverrides := [];
  constraints := [];
  remove := ["Contents/Resources/unused.txt"; "Contents/Resources/gone.txt"]
|}.

Definition staleHost : Host := {|
  env := environment;
  exitStatus := unsigned;
  bundle := entries;
  lstat := fileSystem;
  builderConfig :=
    Ok {| appId := Some "io.rancherdesktop.app";
          productName := Some "Rancher Desktop" |};
  signingConfigFile := Ok staleConfig;
  notarizeSucceeds := true;
  buildResults := Ok ["/w/dist/Rancher.Desktop-1.0.x86_64.dmg"]
|}.

(** A launch constraint with a sequence of strings. *)
Definition teamList : value :=
  VObject [("team-identifier", VObject [("$in", VArray [VString "${AC_TEAMID}"])])].

End Sample.

(** ** Further vocabulary *)

(** Every character of [s] passes [test]. *)
Fixpoint stringForall (test : ascii -> bool) (s : string) : bool :=
  match s with
  | EmptyString => true
  | String c s' => test c && stringForall test s'
  end.

(** The character belongs to the base64url alphabet. *)
Definition isUrlSafe (c : ascii) : bool :=
  existsb (Ascii.eqb c) Base64url.alphabet.

(** The entry at [p] is one the walker yields when it comes to it: a
    regular file that is no bundle executable, has a Mach-O header and
    fails the presence check, or a directory named [.app] or [.framework]
    that fails the presence check. *)
Definition yieldsItself (exitStatus : string -> list string -> Z)
    (p : string) (n : node) : bool :=
  match n with
  | RegularFile data =>
      negb (isBundleExecutable p) && hasValidHeader data &&
      negb (exitStatus "codesign" (verifyArgs p) =? 0)%Z
  | Directory _ =>
      (JsString.endsWith p ".app" || JsString.endsWith p ".framework") &&
      negb (exitStatus "codesign" (verifyArgs p) =? 0)%Z
  | Symlink | Special => false
  end.

(** The event is a spawned command that exits with a non-zero status. *)
Definition failedSpawn (exitStatus : string -> list string -> Z) (e : event) : bool :=
  match e with
  | Spawn command args => negb (exitStatus command args =? 0)%Z
  | _ => false
  end.

(** The event is a spawned command whose failure ends the script: one
    that exits with a non-zero status and is no presence check of the
    walker, whose failure the walker catches. *)
Definition fatalSpawn (exitStatus : string -> list string -> Z) (e : event) : bool :=
  failedSpawn exitStatus e && negb (isProbe e).

(** A spawned command whose failure is not caught is the last event of
    the computation when it fails, and the computation fails. *)
Definition stopsAtFailure (exitStatus : string -> list string -> Z)
    {A : Type} (m : M A) : Prop :=
  forall pre e post,
    traceOf m = pre ++ e :: post ->
    fatalSpawn exitStatus e = true ->
    post = [] /\ succeeded (outcomeOf m) = false.

Definition isBuild (e : event) : bool :=
  match e with
  | Build _ _ _ => true
  | _ => false
  end.

(** ** More sample runs *)

Module MoreSamples.

(** The sample host with an empty certificate fingerprint. *)
Definition noCertificateHost : Host := {|
  env := {| CSC_FINGERPRINT := Some EmptyString;
            APPLEID := None; AC_PASSWORD := None; AC_TEAMID := None;
            M1 := None; argv := [] |};
  exitStatus := Sample.unsigned;
  bundle := Sample.entries;
  lstat := Sample.fileSystem;
  builderConfig := Err "ENOENT";
  signingConfigFile := Ok Sample.config;
  notarizeSucceeds := true;
  buildResults := Ok []
|}.

(** The sample bundle as the removal phase leaves it. *)
Definition afterRemoval : list (string * node) :=
  match outcomeOf (removeAll Sample.host Sample.workDir (Some Sample.entries)
                     (remove Sample.config)) with
  | Ok (Some entries) => entries
  | _ => []
  end.

End MoreSamples.

(** The event announces the verification phase. *)
Definition isVerifying (e : event) : bool :=
  match e with
  | ConsoleLog message => String.eqb message "Verifying application signature..."
  | _ => false
  end.

(** ** The files the script writes *)

(** What the file at [path] holds after the writes among the events, when
    it held [before] before them. *)
Fixpoint contentAfter (path : string) (trace : list event) (before : option value)
  : option value :=
  match trace with
  | [] => before
  | WriteFile p content :: rest =>
      contentAfter path rest (if String.eqb p path then Some content else before)
  | _ :: rest => contentAfter path rest before
  end.

(** The files that the signing invocation for [filePath] names hold what
    the configuration gives for the artifact: the entitlement file its
    entitlements, each constraint file its evaluated constraint. *)
Definition resolvedFiles (host : Host) (workDir : string) (config : SigningConfig)
    (filePath : string) (content : string -> option value) : Prop :=
  let relPath := Path.relative (appDir workDir) filePath in
  content (entitlementFile workDir (entitlementName config relPath)) =
    Some (entitlementPlist (entitlementsOf config relPath)) /\
  forall type constraint,
    constraintOf config relPath type = Some constraint ->
    content (constraintsFile workDir relPath type) =
      Some (evaluateConstraints (AC_TEAMID (env host)) (VObject constraint)).

Section WrittenVocabulary.

Variable host : Host.
Variable workDir : string.
Variable config : SigningConfig.

(** The events of one iteration before its signing invocation. *)
Definition writesOf (wrote : bool) (filePath : string) : list event :=
  let relPath := Path.relative (appDir workDir) filePath in
  (if writesEntitlements workDir config wrote filePath
   then [WriteFile (entitlementFile workDir (entitlementName config relPath))
           (entitlementPlist (entitlementsOf config relPath))]
   else [])
  ++ constraintWrites host workDir config relPath constraintTypes.

(** The default entitlement file holds the default entitlements once it is
    recorded as written. *)
Definition defaultWritten (wrote : bool) (content : string -> option value) : Prop :=
  wrote = true ->
  content (entitlementFile workDir "default") =
    Some (entitlementPlist (entitlementsDefault config)).

End WrittenVocabulary.

(** The path names a property list directly in the directory [plists] of
    the working directory. *)
Definition plistName (workDir path : string) : Prop :=
  exists name,
    path = Path.join (plistsDir workDir) name /\
    JsString.mem Path.sep name = false /\
    JsString.endsWith name ".plist" = true.

(** The character is no white space of ASCII. *)
Definition notSpace (c : ascii) : bool := negb (isSpace c).

(** ** Entries by their components *)

(** The text that the components add to the path of a directory. *)
Definition suffixOf (components : list string) : string :=
  fold_right (fun c s => Path.sepS ++ c ++ s)%string EmptyString components.

(** The path of the entry at [components] below [dir]. *)
Definition entryPath (dir : string) (components : list string) : string :=
  fold_left Path.resolve components dir.

Definition separatorFree (name : string) : Prop :=
  JsString.mem Path.sep name = false.

(** * The command line of the application, [getCommandLineArgs]

    Strings are sequences of code units; the model has the code units
    below 256. *)

Module CommandLine.

(** [s.startsWith(prefix)] *)
Fixpoint startsWith (s prefix : string) : bool :=
  match prefix, s with
  | EmptyString, _ => true
  | String p prefix', String c s' => Ascii.eqb c p && startsWith s' prefix'
  | String _ _, EmptyString => false
  end.

(** [xs.findIndex(test)]: the index of the first element that passes, or
    [-1]. *)
Fixpoint findIndex {A : Type} (test : A -> bool) (xs : list A) : Z :=
  match xs with
  | [] => -1
  | x :: xs' =>
      if test x then 0
      else let i := findIndex test xs' in
           if (i <? 0)%Z then -1 else i + 1
  end%Z.

(** [xs.indexOf(x)] on an array of strings. *)
Definition indexOf (xs : list string) (x : string) : Z :=
  findIndex (String.eqb x) xs.

(** [xs.slice(start)]: a negative [start] counts from the end. *)
Definition slice {A : Type} (xs : list A) (start : Z) : list A :=
  if (start <? 0)%Z then skipn (List.length xs - Z.to_nat (- start)) xs
  else skipn (Z.to_nat start) xs.

(** A regular expression of the form [c1 c2 ... cn $], each [ci] a class
    of characters, without flags: [$] is the end of the input. *)
Definition regExp : Type := list (ascii -> bool).

(** The expression matches all of [s]. *)
Fixpoint matchesHere (expression : regExp) (s : string) : bool :=
  match expression, s with
  | [], EmptyString => true
  | class :: expression', String c s' => class c && matchesHere expression' s'
  | _, _ => false
  end.

(** [expression.test(s)]: the expression matches at some position. *)
Fixpoint test (expression : regExp) (s : string) : bool :=
  matchesHere expression s ||
  match s with
  | EmptyString => false
  | String _ s' => test expression s'
  end.

Definition char (c : ascii) : ascii -> bool := Ascii.eqb c.

(** The class of a backslash and a slash. *)
Definition separator (c : ascii) : bool :=
  Ascii.eqb c "\"%char || Ascii.eqb c "/"%char.

(** The class of [.]: every character but a line terminator. *)
Definition dot (c : ascii) : bool :=
  let n := nat_of_ascii c in negb ((n =? 10)%nat || (n =? 13)%nat).

(** The expression that finds the development script among the
    arguments: a separator, [dev], any character, [mjs], the end. *)
Definition devScript : regExp :=
  [separator; char "d"; char "e"; char "v"; dot; char "m"; char "j"; char "s"].

(** What the function reads: [Electron.app.isPackaged],
    [process.env.NODE_ENV] and [process.argv]. *)
Record Process : Type := {
  isPackaged : bool;
  NODE_ENV : option string;
  argv : list string
}.

Definition getCommandLineArgs (process : Process) : list string :=
  if isPackaged process then slice (argv process) 1
  else if startsWith (match NODE_ENV process with
                      | Some s => s
                      | None => EmptyString
                      end) "dev" then
    let idx := findIndex (test devScript) (argv process) in
    if (idx >=? 0)%Z then slice (argv process) (idx + 1) else []
  else
    let idx := indexOf (argv process) "--disable-dev-shm-usage" in
    if (idx >? -1)%Z then slice (argv process) (idx + 1) else [].

(** The run of [npm run dev] that the source describes. *)
Definition devRun : Process := {|
  isPackaged := false;
  NODE_ENV := Some "development";
  argv := ["/src/node_modules/electron/dist/electron"; "/src"; "8888";
           "/usr/bin/node"; "../scripts/dev.mjs"; "--no-modal-dialogs"]
|}.

(** The run of the end-to-end tests that the source describes. *)
Definition e2eRun : Process := {|
  isPackaged := false;
  NODE_ENV := None;
  argv := ["/src/node_modules/electron/dist/electron"; "--inspect=0";
           "--remote-debugging-port=0"; "/src"; "--disable-gpu";
           "--whitelisted-ips="; "--disable-dev-shm-usage"]
|}.

End CommandLine.

(** * Part II: properties *)

(** ** Strings *)

Module StringFacts.

Lemma append_nil_r (s : string) : (s ++ EmptyString)%string = s.
Proof. induction s as [|c s IH]; simpl; [reflexivity | now rewrite IH]. Qed.

Lemma append_assoc (a b c : string) :
  ((a ++ b) ++ c)%string = (a ++ (b ++ c))%string.
Proof. induction a as [|x a IH]; simpl; [reflexivity | now rewrite IH]. Qed.

Lemma length_append (a b : string) :
  String.length (a ++ b) = String.length a + String.length b.
Proof. induction a as [|x a IH]; simpl; [reflexivity | now rewrite IH]. Qed.

Lemma append_cancel_l (p x y : string) :
  (p ++ x)%string = (p ++ y)%string -> x = y.
Proof.
  induction p as [|c p IH]; simpl; intros H; [assumption|].
  injection H as H. now apply IH.
Qed.

Lemma endsWith_iff (s suffix : string) :
  JsString.endsWith s suffix = true <-> exists pre, s = (pre ++ suffix)%string.
Proof.
  induction s as [|c s IH]; cbn [JsString.endsWith].
  - rewrite orb_false_r, String.eqb_eq. split.
    + intros ->. now exists EmptyString.
    + intros [[|d pre] H]; simpl in H; [assumption | discriminate].
  - rewrite orb_true_iff, String.eqb_eq, IH. split.
    + intros [<- | [pre ->]]; [now exists EmptyString | now exists (String c pre)].
    + intros [[|d pre] H]; simpl in H.
      * now left.
      * injection H as _ ->. right. now exists pre.
Qed.

(** Two separator-free names that are cut out of the same text at a
    component boundary are the same name. *)
Lemma component_unique (n1 n2 x y : string) :
  JsString.mem Path.sep n1 = false ->
  JsString.mem Path.sep n2 = false ->
  componentEnd x -> componentEnd y ->
  (n1 ++ x)%string = (n2 ++ y)%string -> n1 = n2.
Proof.
  revert n2. induction n1 as [|c n1 IH]; intros [|d n2] H1 H2 Hx Hy E; simpl in *.
  - reflexivity.
  - apply orb_false_iff in H2 as [Hd _].
    destruct Hx as [-> | [r ->]]; [discriminate|].
    injection E as E _. subst d. now rewrite Ascii.eqb_refl in Hd.
  - apply orb_false_iff in H1 as [Hc _].
    destruct Hy as [-> | [r ->]]; [discriminate|].
    injection E as E _. subst c. now rewrite Ascii.eqb_refl in Hc.
  - apply orb_false_iff in H1 as [_ H1]. apply orb_false_iff in H2 as [_ H2].
    injection E as -> E. f_equal. now apply IH.
Qed.

End StringFacts.

(** ** Bundle trees *)

Lemma wellFormed_directory (entries : list (string * node)) :
  wellFormed (Directory entries) <->
  NoDup (map fst entries) /\
  Forall (fun e => JsString.mem Path.sep (fst e) = false /\ wellFormed (snd e)) entries.
Proof.
  simpl. apply and_iff_compat_l.
  induction entries as [|[name child] es IH].
  - split; intros _; [constructor | exact I].
  - rewrite Forall_cons_iff, <- IH. simpl. tauto.
Qed.

(** ** The walker *)

Section WalkerFacts.

Variable exitStatus : string -> list string -> Z.

Lemma within_refl (p : string) : within p p.
Proof. exists EmptyString. split; [now left | now rewrite StringFacts.append_nil_r]. Qed.

Lemma within_resolve (p name q : string) :
  within (Path.resolve p name) q -> within p q.
Proof.
  intros [s [_ ->]]. exists (Path.sepS ++ name ++ s)%string. split.
  - right. now exists (name ++ s)%string.
  - unfold Path.resolve. now rewrite !StringFacts.append_assoc.
Qed.

Lemma under_longer (p q : string) :
  Path.under p q -> String.length p < String.length q.
Proof.
  intros [rest ->]. rewrite !StringFacts.length_append. simpl. lia.
Qed.

Lemma within_not_under (p q : string) : within p q -> ~ Path.under q p.
Proof.
  intros [s [_ ->]] H. apply under_longer in H.
  rewrite StringFacts.length_append in H. lia.
Qed.

Lemma yieldUnlessSigned_In (target q : string) :
  In q (yieldUnlessSigned exitStatus target) <->
  q = target /\ exitStatus "codesign" (verifyArgs target) <> 0%Z.
Proof.
  unfold yieldUnlessSigned, spawnFile.
  destruct (Z.eqb_spec (exitStatus "codesign" (verifyArgs target)) 0) as [E|E]; simpl.
  - tauto.
  - intuition congruence.
Qed.

Lemma visit_directory (p : string) (entries : list (string * node)) :
  visit exitStatus p (Directory entries) =
  flat_map (fun e => visit exitStatus (Path.resolve p (fst e)) (snd e)) entries
  ++ (if JsString.endsWith p ".app" || JsString.endsWith p ".framework"
      then yieldUnlessSigned exitStatus p else []).
Proof. reflexivity. Qed.


(** Every yielded path is the visited entry or lies underneath it. *)
Lemma visit_within (n : node) :
  forall p q, In q (visit exitStatus p n) -> within p q.
Proof.
  induction n as [data| | |entries IH] using node_induction; intros p q Hq;
    try contradiction.
  - simpl in Hq.
    destruct (isBundleExecutable p); [contradiction|].
    destruct (hasValidHeader data); [|contradiction].
    apply yieldUnlessSigned_In in Hq as [-> _]. apply within_refl.
  - rewrite visit_directory in Hq. apply in_app_or in Hq as [Hq|Hq].
    + apply in_flat_map in Hq as [e [He Hq]].
      rewrite Forall_forall in IH. apply within_resolve with (name := fst e).
      exact (IH e He _ _ Hq).
    + destruct (_ || _); [|contradiction].
      apply yieldUnlessSigned_In in Hq as [-> _]. apply within_refl.
Qed.

Lemma childrenFirst_nil : childrenFirst [].
Proof. intros [|x before] p after q H; discriminate. Qed.

Lemma childrenFirst_single (x : string) : childrenFirst [x].
Proof.
  intros [|y [|z before]] p after q H; try discriminate.
  injection H as _ <-. intros _ [].
Qed.

Lemma childrenFirst_yield (target : string) :
  childrenFirst (yieldUnlessSigned exitStatus target).
Proof.
  unfold yieldUnlessSigned. destruct (spawnFile _ _ _).
  - apply childrenFirst_nil.
  - apply childrenFirst_single.
Qed.

Lemma childrenFirst_app (l1 l2 : list string) :
  childrenFirst l1 -> childrenFirst l2 ->
  (forall p q, In p l1 -> In q l2 -> ~ Path.under p q) ->
  childrenFirst (l1 ++ l2).
Proof.
  intros H1 H2 Hx before p after q E Hu Hq.
  revert l1 H1 Hx E. induction before as [|b before IH]; intros l1 H1 Hx E.
  - destruct l1 as [|a l1]; simpl in E.
    + exact (H2 [] p after q E Hu Hq).
    + injection E as -> <-. apply in_app_or in Hq as [Hq|Hq].
      * exact (H1 [] p l1 q eq_refl Hu Hq).
      * exact (Hx p q (or_introl eq_refl) Hq Hu).
  - destruct l1 as [|a l1]; simpl in E.
    + exact (H2 (b :: before) p after q E Hu Hq).
    + injection E as -> E. apply (IH l1).
      * intros before' p' after' q' E'. apply (H1 (b :: before') p' after' q').
        simpl. now rewrite E'.
      * intros p' q' Hp'. apply Hx. now right.
      * exact E.
Qed.

(** Paths from two different entries of one directory are never nested. *)
Lemma siblings_not_nested (dir n1 n2 a b : string) :
  JsString.mem Path.sep n1 = false ->
  JsString.mem Path.sep n2 = false ->
  n1 <> n2 ->
  within (Path.resolve dir n1) a -> within (Path.resolve dir n2) b ->
  ~ Path.under a b.
Proof.
  intros H1 H2 Hne [s [Hs ->]] [t [Ht ->]] [rest E].
  apply Hne. unfold Path.resolve in E.
  rewrite !StringFacts.append_assoc in E.
  do 2 apply StringFacts.append_cancel_l in E.
  symmetry in E.
  apply (StringFacts.component_unique n1 n2 _ _ H1 H2) in E;
    [assumption | | assumption].
  destruct Hs as [-> | [r ->]]; right.
  - now exists rest.
  - exists (r ++ Path.sepS ++ rest)%string. simpl. reflexivity.
Qed.

Lemma childrenFirst_entries (dir : string) (entries : list (string * node)) :
  NoDup (map fst entries) ->
  Forall (fun e => JsString.mem Path.sep (fst e) = false) entries ->
  Forall (fun e => forall p, childrenFirst (visit exitStatus p (snd e))) entries ->
  childrenFirst
    (flat_map (fun e => visit exitStatus (Path.resolve dir (fst e)) (snd e)) entries).
Proof.
  induction entries as [|e es IH]; intros Hnd Hsep Hcf; simpl.
  - apply childrenFirst_nil.
  - inversion Hnd as [|? ? Hnotin Hnd']; subst.
    inversion Hsep as [|? ? Hsep1 Hsep']; subst.
    inversion Hcf as [|? ? Hcf1 Hcf']; subst.
    apply childrenFirst_app; [apply Hcf1 | now apply IH |].
    intros p q Hp Hq. apply in_flat_map in Hq as [e' [He' Hq]].
    apply siblings_not_nested with (dir := dir) (n1 := fst e) (n2 := fst e').
    + exact Hsep1.
    + rewrite Forall_forall in Hsep'. now apply Hsep'.
    + intros E. apply Hnotin. rewrite E. now apply in_map.
    + exact (visit_within _ _ _ Hp).
    + exact (visit_within _ _ _ Hq).
Qed.

Lemma visit_childrenFirst (n : node) :
  wellFormed n -> forall p, childrenFirst (visit exitStatus p n).
Proof.
  induction n as [data| | |entries IH] using node_induction; intros Hwf p;
    try apply childrenFirst_nil.
  - simpl. destruct (isBundleExecutable p); [apply childrenFirst_nil|].
    destruct (hasValidHeader data); [|apply childrenFirst_nil].
    apply childrenFirst_yield.
  - apply wellFormed_directory in Hwf as [Hnd Hall].
    rewrite visit_directory. apply childrenFirst_app.
    + apply childrenFirst_entries; [assumption | |].
      * eapply Forall_impl; [|exact Hall]. now intros e [H _].
      * rewrite Forall_forall in *. intros e He. apply IH; [assumption|].
        now apply Hall.
    + destruct (_ || _); [apply childrenFirst_yield | apply childrenFirst_nil].
    + intros a b Ha Hb. destruct (_ || _); [|contradiction].
      apply yieldUnlessSigned_In in Hb as [-> _].
      apply in_flat_map in Ha as [e [He Ha]].
      apply within_not_under. apply within_resolve with (name := fst e).
      exact (visit_within _ _ _ Ha).
Qed.

(** C1. In the sequence the walker yields for a well-formed bundle tree,
    no path strictly underneath a yielded path comes after it: when a path
    is yielded, every yielded path underneath it has been yielded already.
    So a nested bundle or binary precedes each [.app] or [.framework]
    directory that contains it. *)
Theorem findFilesToSign_children_first
    (dir : string) (entries : list (string * node))
    (before : list string) (p : string) (after : list string) (q : string) :
  wellFormed (Directory entries) ->
  findFilesToSign exitStatus dir entries = before ++ p :: after ->
  Path.under p q ->
  ~ In q after /\
  (In q (findFilesToSign exitStatus dir entries) -> In q before).
Proof.
  intros Hwf E Hu.
  assert (Hafter : ~ In q after).
  { exact (visit_childrenFirst _ Hwf dir before p after q E Hu). }
  split; [assumption|].
  rewrite E. intros Hq. apply in_app_or in Hq as [Hq|[Hq|Hq]].
  - assumption.
  - apply under_longer in Hu. subst q. lia.
  - contradiction.
Qed.

End WalkerFacts.

(** ** The binary detector *)

Lemma byte_value_range (b : byte) : (0 <= Z.of_N (Byte.to_N b) <= 255)%Z.
Proof. pose proof (Byte.to_N_bounded b). lia. Qed.

Lemma byte_value_inj (b c : byte) :
  Z.of_N (Byte.to_N b) = Z.of_N (Byte.to_N c) -> b = c.
Proof.
  intros H. apply N2Z.inj in H.
  pose proof (Byte.of_to_N b) as Hb. rewrite H, Byte.of_to_N in Hb.
  now injection Hb.
Qed.

(** The header is the big-endian value of the first four bytes. *)
Lemma readUInt32BE_read4 (b0 b1 b2 b3 : byte) (rest : list byte) :
  readUInt32BE (read4 (b0 :: b1 :: b2 :: b3 :: rest)) =
  (Z.of_N (Byte.to_N b0) * 2 ^ 24 + Z.of_N (Byte.to_N b1) * 2 ^ 16 +
   Z.of_N (Byte.to_N b2) * 2 ^ 8 + Z.of_N (Byte.to_N b3))%Z.
Proof. unfold readUInt32BE, read4. simpl. lia. Qed.

Lemma hasValidHeader_iff (data : option (list byte)) :
  hasValidHeader data = true <->
  exists bytes, data = Some bytes /\
    (readUInt32BE (read4 bytes) = 0xFEEDFACF%Z \/
     readUInt32BE (read4 bytes) = 0xCFFAEDFE%Z).
Proof.
  unfold hasValidHeader, readHeader, validHeaders. destruct data as [bytes|].
  - cbn [existsb]. rewrite orb_false_r, orb_true_iff, !Z.eqb_eq. split.
    + intros H. exists bytes. tauto.
    + intros [bytes' [E H]]. injection E as <-. tauto.
  - split; [discriminate | intros [bytes [E _]]; discriminate].
Qed.

Lemma hasValidHeader_four (b0 b1 b2 b3 : byte) (rest : list byte) :
  hasValidHeader (Some (b0 :: b1 :: b2 :: b3 :: rest)) = true <->
  (b0 = xfe /\ b1 = xed /\ b2 = xfa /\ b3 = xcf) \/
  (b0 = xcf /\ b1 = xfa /\ b2 = xed /\ b3 = xfe).
Proof.
  rewrite hasValidHeader_iff. split.
  - intros [bytes [E H]]. injection E as <-.
    rewrite readUInt32BE_read4 in H.
    pose proof (byte_value_range b0). pose proof (byte_value_range b1).
    pose proof (byte_value_range b2). pose proof (byte_value_range b3).
    destruct H as [H|H]; [left | right];
      repeat split; apply byte_value_inj; simpl; lia.
  - intros H. eexists. split; [reflexivity|].
    rewrite readUInt32BE_read4.
    destruct H as [(-> & -> & -> & ->) | (-> & -> & -> & ->)];
      [left | right]; reflexivity.
Qed.

Lemma hasValidHeader_short (bytes : list byte) :
  List.length bytes < 4 -> hasValidHeader (Some bytes) = false.
Proof.
  intros Hlen. apply not_true_is_false. rewrite hasValidHeader_iff.
  intros [bytes' [E H]]. injection E as <-.
  destruct bytes as [|b0 [|b1 [|b2 [|b3 rest]]]]; simpl in Hlen; try lia;
    unfold readUInt32BE, read4 in H; simpl in H;
    try pose proof (byte_value_range b0); try pose proof (byte_value_range b1);
    try pose proof (byte_value_range b2); lia.
Qed.

(** A regular file that fails the header test contributes nothing, and the
    walk goes on with the remaining entries. *)
Lemma findFilesToSign_skips_headerless
    (exitStatus : string -> list string -> Z) (dir name : string)
    (data : option (list byte)) (es1 es2 : list (string * node)) :
  hasValidHeader data = false ->
  findFilesToSign exitStatus dir (es1 ++ (name, RegularFile data) :: es2) =
  findFilesToSign exitStatus dir (es1 ++ es2).
Proof.
  intros H. unfold findFilesToSign. rewrite !visit_directory.
  rewrite !flat_map_app. cbn [flat_map fst snd visit]. rewrite H.
  now destruct (isBundleExecutable _).
Qed.

(** C6. A regular file passes the binary detector exactly when it can be
    read and the big-endian 32-bit value of its first four bytes is
    0xFEEDFACF or 0xCFFAEDFE.  The file [FE ED FA CF] passes, the file
    [00 00 00 00] does not, a file shorter than four bytes does not, and a
    file that cannot be read does not pass either: it raises no error and
    the walk continues with the remaining entries. *)
Theorem binary_detector_accepts_mach_o_64 :
  (forall data,
     hasValidHeader data = true <->
     exists bytes, data = Some bytes /\
       (readUInt32BE (read4 bytes) = 0xFEEDFACF%Z \/
        readUInt32BE (read4 bytes) = 0xCFFAEDFE%Z)) /\
  (forall b0 b1 b2 b3 rest,
     readUInt32BE (read4 (b0 :: b1 :: b2 :: b3 :: rest)) =
     (Z.of_N (Byte.to_N b0) * 2 ^ 24 + Z.of_N (Byte.to_N b1) * 2 ^ 16 +
      Z.of_N (Byte.to_N b2) * 2 ^ 8 + Z.of_N (Byte.to_N b3))%Z) /\
  (forall b0 b1 b2 b3 rest,
     hasValidHeader (Some (b0 :: b1 :: b2 :: b3 :: rest)) = true <->
     (b0 = xfe /\ b1 = xed /\ b2 = xfa /\ b3 = xcf) \/
     (b0 = xcf /\ b1 = xfa /\ b2 = xed /\ b3 = xfe)) /\
  hasValidHeader (Some [xfe; xed; xfa; xcf]) = true /\
  hasValidHeader (Some [x00; x00; x00; x00]) = false /\
  hasValidHeader None = false /\
  (forall exitStatus dir name es1 es2,
     findFilesToSign exitStatus dir (es1 ++ (name, RegularFile None) :: es2) =
     findFilesToSign exitStatus dir (es1 ++ es2)).
Proof.
  split; [exact hasValidHeader_iff|].
  split; [exact readUInt32BE_read4|].
  split; [exact hasValidHeader_four|].
  repeat split.
  intros. now apply findFilesToSign_skips_headerless.
Qed.

(** ** The artifact classifier *)

Example isBundleExecutable_app :
  isBundleExecutable "MyApp.app/Contents/MacOS/MyApp" = true.
Proof. reflexivity. Qed.

Example isBundleExecutable_helper :
  isBundleExecutable "MyApp.app/Contents/MacOS/Helper" = false.
Proof. reflexivity. Qed.

Example isBundleExecutable_framework :
  isBundleExecutable "/a/Foo.framework/Versions/A/Foo" = true.
Proof. reflexivity. Qed.

(** The framework test of the code is the component-wise one. *)
Lemma isBundleExecutable_framework_pattern (fullPath : string) :
  isFrameworkExecutable fullPath = true -> isBundleExecutable fullPath = true.
Proof.
  unfold isFrameworkExecutable, isBundleExecutable.
  destruct (rev (JsString.split Path.sep fullPath))
    as [|name [|p1 [|p2 [|p3 rest]]]]; try discriminate.
  intros H. apply andb_true_iff in H as [H2 H3].
  cbn [nth List.length Nat.leb andb]. rewrite H2, H3.
  now destruct (JsString.endsWith _ _).
Qed.

(** C2. The classifier skips more than the two patterns: the application
    test compares the end of the path text, so the file [MyApp] in
    [FooMyApp.app/Contents/MacOS] is skipped although the bundle is not
    named after it.  The two examples of the claim come out as stated. *)
Theorem isBundleExecutable_suffix_of_longer_name :
  isBundleExecutable "/Applications/FooMyApp.app/Contents/MacOS/MyApp" = true /\
  bundleExecutableByComponents
    "/Applications/FooMyApp.app/Contents/MacOS/MyApp" = false /\
  isBundleExecutable "MyApp.app/Contents/MacOS/MyApp" = true /\
  isBundleExecutable "MyApp.app/Contents/MacOS/Helper" = false.
Proof. repeat split. Qed.

(** ** The constraint environment evaluator *)

Section EvaluatorFacts.

Variable teamId : option string.

(** The definition in the shape of the source: [_.mapValues] with the
    arrow function. *)
Lemma evaluateConstraints_mapValues (constraint : value) :
  evaluateConstraints teamId constraint =
  Lodash.mapValues constraint (evaluateValue teamId).
Proof.
  destruct constraint as [s|n|b| |items|fields]; try reflexivity.
  - unfold Lodash.mapValues, Lodash.ownEntries. cbn [evaluateConstraints].
    f_equal. generalize (indexKeys (String.length s)).
    induction (list_ascii_of_string s) as [|c l IH]; intros [|k ks];
      simpl; try reflexivity.
    now rewrite IH.
  - unfold Lodash.mapValues, Lodash.ownEntries. cbn [evaluateConstraints].
    f_equal. generalize (indexKeys (List.length items)).
    induction items as [|x l IH]; intros [|k ks]; simpl; try reflexivity.
    now rewrite IH.
Qed.

Lemma substitute_placeholder :
  substitute teamId "${AC_TEAMID}" = envOr teamId "${AC_TEAMID}".
Proof. reflexivity. Qed.

Lemma substitute_other (s : string) :
  s <> "${AC_TEAMID}" -> substitute teamId s = s.
Proof.
  intros H. unfold substitute. apply String.eqb_neq in H. now rewrite H.
Qed.

Lemma regular_array (items : list value) :
  regular (VArray items) <->
  Forall (fun item => (exists fields, item = VObject fields) /\ regular item) items.
Proof.
  simpl. induction items as [|x l IH].
  - split; intros _; [constructor | exact I].
  - rewrite Forall_cons_iff, <- IH. tauto.
Qed.

Lemma regular_object (fields : list (string * value)) :
  regular (VObject fields) <-> Forall (fun kv => regular (snd kv)) fields.
Proof.
  simpl. induction fields as [|x l IH].
  - split; intros _; [constructor | exact I].
  - rewrite Forall_cons_iff, <- IH. tauto.
Qed.

(** On a value without [null] whose sequences hold mappings only, the
    arrow function is the transform of the specification. *)
Lemma evaluateValue_regular (v : value) :
  regular v -> evaluateValue teamId v = substituteEverywhere teamId v.
Proof.
  induction v as [s|n|b| |items IH|fields IH] using value_induction;
    intros Hreg; try reflexivity.
  - contradiction.
  - apply regular_array in Hreg. cbn [evaluateValue substituteEverywhere].
    f_equal. apply map_ext_in. intros item Hin.
    rewrite Forall_forall in IH, Hreg.
    destruct (Hreg item Hin) as [[fields ->] Hr].
    rewrite <- (IH _ Hin Hr). reflexivity.
  - apply regular_object in Hreg. cbn [evaluateValue evaluateConstraints substituteEverywhere].
    f_equal. apply map_ext_in. intros kv Hin.
    rewrite Forall_forall in IH, Hreg. f_equal.
    rewrite <- (IH _ Hin (Hreg _ Hin)). reflexivity.
Qed.

Lemma evaluateConstraints_regular (fields : list (string * value)) :
  regular (VObject fields) ->
  evaluateConstraints teamId (VObject fields) =
  substituteEverywhere teamId (VObject fields).
Proof. intros H. exact (evaluateValue_regular (VObject fields) H). Qed.

End EvaluatorFacts.

(** *** What the classifier skips, exactly *)

Lemma split_not_nil (s : string) : JsString.split Path.sep s <> [].
Proof.
  destruct s as [|c s]; simpl; [discriminate|].
  destruct (Ascii.eqb c Path.sep); [discriminate|].
  destruct (JsString.split Path.sep s); discriminate.
Qed.

Lemma split_name (name : string) :
  JsString.mem Path.sep name = false -> JsString.split Path.sep name = [name].
Proof.
  induction name as [|c name IH]; simpl; intros H; [reflexivity|].
  apply orb_false_iff in H as [Hc Hrest]. rewrite Hc, (IH Hrest). reflexivity.
Qed.

Lemma split_append (a b : string) :
  JsString.split Path.sep (a ++ Path.sepS ++ b) =
  JsString.split Path.sep a ++ JsString.split Path.sep b.
Proof.
  induction a as [|c a IH]; cbn [String.append JsString.split].
  - cbn [Path.sepS String.append JsString.split]. now rewrite Ascii.eqb_refl.
  - destruct (Ascii.eqb c Path.sep); rewrite IH; [reflexivity|].
    pose proof (split_not_nil a) as Ha.
    destruct (JsString.split Path.sep a); [contradiction | reflexivity].
Qed.

(** Joining the components gives the path back. *)
Lemma concat_split (s : string) :
  String.concat Path.sepS (JsString.split Path.sep s) = s.
Proof.
  induction s as [|c s IH]; [reflexivity|].
  cbn [JsString.split]. destruct (Ascii.eqb_spec c Path.sep) as [->|Hc].
  - pose proof (split_not_nil s) as Hs.
    destruct (JsString.split Path.sep s) as [|h t] eqn:E; [contradiction|].
    cbn [String.concat] in *. now rewrite IH.
  - pose proof (split_not_nil s) as Hs.
    destruct (JsString.split Path.sep s) as [|h t] eqn:E; [contradiction|].
    destruct t; cbn [String.concat String.append] in *; now rewrite IH.
Qed.

Lemma concat_snoc_nonempty (l : list string) (x : string) :
  l <> [] ->
  String.concat Path.sepS (l ++ [x]) =
  (String.concat Path.sepS l ++ Path.sepS ++ x)%string.
Proof.
  induction l as [|a l IH]; intros Hne; [contradiction|].
  destruct l as [|b l]; [reflexivity|].
  change ((a :: b :: l) ++ [x]) with (a :: (b :: l) ++ [x]).
  cbn [String.concat app] in *. rewrite IH by discriminate.
  now rewrite !StringFacts.append_assoc.
Qed.

Lemma concat_snoc (l : list string) (x : string) :
  exists pre, String.concat Path.sepS (l ++ [x]) = (pre ++ x)%string.
Proof.
  destruct l as [|a l].
  - now exists EmptyString.
  - exists (String.concat Path.sepS (a :: l) ++ Path.sepS)%string.
    rewrite concat_snoc_nonempty by discriminate.
    now rewrite StringFacts.append_assoc.
Qed.

Lemma snoc_not_nil {A : Type} (l : list A) (x : A) : l ++ [x] <> [].
Proof. intros H. apply app_eq_nil in H as [_ H]. discriminate. Qed.

(** A path ends with its last four components. *)
Lemma path_ends_with_components (p c0 c1 c2 c3 : string) (rest : list string) :
  rev (JsString.split Path.sep p) = c0 :: c1 :: c2 :: c3 :: rest ->
  exists pre,
    p = (pre ++ c3 ++ Path.sepS ++ c2 ++ Path.sepS ++ c1 ++ Path.sepS ++ c0)%string.
Proof.
  intros H. apply (f_equal (@rev string)) in H. rewrite rev_involutive in H.
  cbn [rev] in H. rewrite <- (concat_split p), H.
  rewrite !concat_snoc_nonempty by apply snoc_not_nil.
  destruct (concat_snoc (rev rest) c3) as (pre & E).
  exists pre. rewrite E. now rewrite !StringFacts.append_assoc.
Qed.

(** Everything the two patterns name is skipped. *)
Lemma isBundleExecutable_complete (fullPath : string) :
  bundleExecutableByComponents fullPath = true ->
  isBundleExecutable fullPath = true.
Proof.
  unfold bundleExecutableByComponents. intros H.
  apply orb_true_iff in H as [H|H]; [|now apply isBundleExecutable_framework_pattern].
  unfold isAppExecutable in H. unfold isBundleExecutable.
  destruct (rev (JsString.split Path.sep fullPath))
    as [|name [|macos [|contents [|app rest]]]] eqn:E; try discriminate.
  apply andb_true_iff in H as [H Happ]. apply andb_true_iff in H as [Hm Hc].
  apply String.eqb_eq in Happ, Hm, Hc. subst.
  destruct (path_ends_with_components _ _ _ _ _ _ E) as (pre & Hp).
  cbn [nth List.length Nat.leb andb].
  assert (Hends : JsString.endsWith fullPath
                    (name ++ ".app/Contents/MacOS/" ++ name) = true).
  { apply StringFacts.endsWith_iff. exists pre. rewrite Hp.
    now rewrite !StringFacts.append_assoc. }
  now rewrite Hends.
Qed.

(** The classifier skips a path exactly when its text ends with
    [<Name>.app/Contents/MacOS/<Name>] for a separator-free [<Name>], or
    the framework pattern holds component by component. *)
Lemma isBundleExecutable_iff (fullPath : string) :
  isBundleExecutable fullPath = true <->
  (exists text name,
     JsString.mem Path.sep name = false /\
     fullPath = (text ++ name ++ ".app/Contents/MacOS/" ++ name)%string) \/
  isFrameworkExecutable fullPath = true.
Proof.
  split.
  - unfold isBundleExecutable, isFrameworkExecutable.
    pose proof (split_not_nil fullPath) as Hne.
    destruct (rev (JsString.split Path.sep fullPath))
      as [|name [|p1 [|p2 [|p3 rest]]]] eqn:E; cbn [nth List.length Nat.leb andb];
      try discriminate.
    destruct (JsString.endsWith fullPath _) eqn:Hends.
    + intros _. left. apply StringFacts.endsWith_iff in Hends as [text Htext].
      exists text, name. split; [|exact Htext].
      destruct (JsString.mem Path.sep name) eqn:Hmem; [|reflexivity].
      exfalso.
      assert (Hin : In name (JsString.split Path.sep fullPath)).
      { apply in_rev. rewrite E. now left. }
      clear - Hin Hmem. revert name Hin Hmem.
      induction fullPath as [|c s IH]; intros name Hin Hmem.
      * destruct Hin as [<-|[]]. discriminate.
      * cbn [JsString.split] in Hin.
        destruct (Ascii.eqb c Path.sep) eqn:Hc.
        -- destruct Hin as [<-|Hin]; [discriminate | now apply (IH name)].
        -- pose proof (split_not_nil s) as Hs.
           destruct (JsString.split Path.sep s) as [|h t] eqn:Es; [contradiction|].
           destruct Hin as [<-|Hin].
           ++ cbn [JsString.mem] in Hmem. rewrite Hc in Hmem. cbn in Hmem.
              apply (IH h); [now left | assumption].
           ++ apply (IH name); [now right | assumption].
    + intros H. right.
      destruct (String.eqb p3 (name ++ ".framework")) eqn:E3; [|discriminate].
      destruct (String.eqb p2 "Versions") eqn:E2; [|discriminate].
      reflexivity.
  - intros [(text & name & Hname & ->) | H];
      [|now apply isBundleExecutable_framework_pattern].
    unfold isBundleExecutable.
    assert (Hsplit : JsString.split Path.sep
                       (text ++ name ++ ".app/Contents/MacOS/" ++ name) =
                     JsString.split Path.sep (text ++ name ++ ".app")
                     ++ ["Contents"; "MacOS"; name]).
    { assert (Hre : (text ++ name ++ ".app/Contents/MacOS/" ++ name)%string =
                    ((text ++ name ++ ".app") ++ Path.sepS ++ "Contents" ++
                     Path.sepS ++ "MacOS" ++ Path.sepS ++ name)%string)
        by (rewrite !StringFacts.append_assoc; reflexivity).
      rewrite Hre, !split_append, (split_name name Hname). reflexivity. }
    rewrite Hsplit, rev_app_distr. cbn [rev app nth].
    pose proof (split_not_nil (text ++ name ++ ".app")) as Hne.
    destruct (rev (JsString.split Path.sep (text ++ name ++ ".app")))
      as [|x xs] eqn:Ex.
    { apply (f_equal (@rev string)) in Ex. rewrite rev_involutive in Ex.
      contradiction. }
    cbn [List.length Nat.leb andb].
    assert (Hends : JsString.endsWith
                      (text ++ name ++ ".app/Contents/MacOS/" ++ name)
                      (name ++ ".app/Contents/MacOS/" ++ name) = true).
    { apply StringFacts.endsWith_iff. now exists text. }
    now rewrite Hends.
Qed.

(** ** Computations *)

Section MonadFacts.

Context {A B : Type}.

Lemma bind_ok (m : M A) (k : A -> M B) (a : A) :
  outcomeOf m = Ok a ->
  bind m k = (traceOf m ++ traceOf (k a), outcomeOf (k a)).
Proof. destruct m as [t r]. simpl. intros ->. now destruct (k a). Qed.

Lemma bind_err (m : M A) (k : A -> M B) (message : string) :
  outcomeOf m = Err message -> bind m k = (traceOf m, Err message).
Proof. destruct m as [t r]. simpl. now intros ->. Qed.

Lemma bind_trace (m : M A) (k : A -> M B) :
  traceOf (bind m k) =
  traceOf m ++ match outcomeOf m with
               | Ok a => traceOf (k a)
               | Err _ => []
               end.
Proof.
  destruct m as [t [a|msg]]; simpl; [now destruct (k a) | now rewrite app_nil_r].
Qed.

Lemma bind_outcome (m : M A) (k : A -> M B) :
  outcomeOf (bind m k) =
  match outcomeOf m with
  | Ok a => outcomeOf (k a)
  | Err message => Err message
  end.
Proof. destruct m as [t [a|msg]]; simpl; [now destruct (k a) | reflexivity]. Qed.

Lemma bind_In (m : M A) (k : A -> M B) (e : event) :
  In e (traceOf (bind m k)) <->
  In e (traceOf m) \/ exists a, outcomeOf m = Ok a /\ In e (traceOf (k a)).
Proof.
  rewrite bind_trace, in_app_iff. destruct (outcomeOf m) as [a|msg].
  - split; intros [H|H]; auto.
    + right. now exists a.
    + destruct H as [a' [E H]]. injection E as <-. now right.
  - split; intros [H|H]; auto; [contradiction|].
    destruct H as [a [E _]]. discriminate.
Qed.

Lemma bind_Forall (P : event -> Prop) (m : M A) (k : A -> M B) :
  Forall P (traceOf m) -> (forall a, Forall P (traceOf (k a))) ->
  Forall P (traceOf (bind m k)).
Proof.
  intros Hm Hk. rewrite bind_trace. apply Forall_app. split; [assumption|].
  destruct (outcomeOf m); [apply Hk | constructor].
Qed.

Lemma bind_failed (m : M A) (k : A -> M B) :
  succeeded (outcomeOf m) = false -> succeeded (outcomeOf (bind m k)) = false.
Proof. rewrite bind_outcome. now destruct (outcomeOf m). Qed.

End MonadFacts.

Lemma countIf_app (test : event -> bool) (t1 t2 : list event) :
  countIf test (t1 ++ t2) = countIf test t1 + countIf test t2.
Proof. unfold countIf. now rewrite filter_app, length_app. Qed.

Lemma countIf_none (test : event -> bool) (trace : list event) :
  Forall (fun e => test e = false) trace -> countIf test trace = 0.
Proof.
  unfold countIf. induction 1 as [|e t He _ IH]; simpl; [reflexivity|].
  now rewrite He.
Qed.

Lemma countIf_pos (test : event -> bool) (trace : list event) (e : event) :
  In e trace -> test e = true -> 1 <= countIf test trace.
Proof.
  unfold countIf. intros Hin He.
  assert (H : In e (filter test trace)) by (apply filter_In; auto).
  destruct (filter test trace); [contradiction | simpl; lia].
Qed.

(** ** The path hash *)

Example sha256_of_abc :
  fileHash "abc" = "ungWv48Bz-pBQUDeXa4iI7ADYaOWF3qctBD_YfIAFa0".
Proof. vm_compute. reflexivity. Qed.

Example sha256_of_nothing :
  fileHash EmptyString = "47DEQpj8HBSa-_TImW-5JCeuQeRkm5NMpJWZG3hSuFU".
Proof. vm_compute. reflexivity. Qed.

Example sha256_of_two_blocks :
  fileHash "aaaaaaaaaaaaaaaaaaaaaaaaaaaaaaaaaaaaaaaaaaaaaaaaaaaaaaaaaaaaaaaa" =
  "_-BU_nrgy23GXDr5th1SCfQ5hR20PQulmXM33xVGaOs".
Proof. vm_compute. reflexivity. Qed.

Example fileHash_of_framework_path :
  fileHash "Contents/Frameworks/A.framework/A" =
  "JYjehbrxtzTv5_zFw3XH5ebUjnaqKPrNJdeFeMIUDLM".
Proof. vm_compute. reflexivity. Qed.

Module HashFacts.

Local Open Scope Z_scope.

Lemma bigEndian_length (width : nat) (x : Z) :
  List.length (Sha256.bigEndian width x) = width.
Proof. induction width as [|w IH]; simpl; [reflexivity | now rewrite IH]. Qed.

Lemma bigEndian_bytes (width : nat) (x : Z) :
  Forall isByte (Sha256.bigEndian width x).
Proof.
  induction width as [|w IH]; simpl; constructor; [|assumption].
  unfold isByte. apply Z.mod_pos_bound. lia.
Qed.

Lemma digest_length (message : list Z) :
  List.length (Sha256.digest message) = 32%nat.
Proof.
  unfold Sha256.digest, Sha256.serialize.
  now rewrite !length_app, !bigEndian_length.
Qed.

Lemma digest_bytes (message : list Z) : Forall isByte (Sha256.digest message).
Proof.
  unfold Sha256.digest, Sha256.serialize.
  repeat (apply Forall_app; split); apply bigEndian_bytes.
Qed.

(** Induction three bytes at a time, as the encoder consumes them. *)
Lemma triples_ind (P : list Z -> Prop) :
  P [] -> (forall a, P [a]) -> (forall a b, P [a; b]) ->
  (forall a b c rest, P rest -> P (a :: b :: c :: rest)) ->
  forall l, P l.
Proof.
  intros H0 H1 H2 H3 l.
  assert (H : P l /\ (forall a, P (a :: l)) /\ (forall a b, P (a :: b :: l))).
  { induction l as [|c l (IH0 & IH1 & IH2)]; auto. }
  apply H.
Qed.

Lemma encode_length (bytes : list Z) :
  Z.of_nat (String.length (Base64url.encode bytes)) =
  (4 * Z.of_nat (List.length bytes) + 2) / 3.
Proof.
  induction bytes as [|a|a b|a b c rest IH] using triples_ind;
    try reflexivity.
  cbn [Base64url.encode String.length List.length].
  rewrite !Nat2Z.inj_succ, IH. unfold Z.succ.
  replace (4 * (Z.of_nat (List.length rest) + 1 + 1 + 1) + 2)
    with ((4 * Z.of_nat (List.length rest) + 2) + 4 * 3) by lia.
  rewrite Z.div_add by lia. lia.
Qed.

Lemma fileHash_length (relPath : string) :
  String.length (fileHash relPath) = 43%nat.
Proof.
  apply Nat2Z.inj. unfold fileHash. now rewrite encode_length, digest_length.
Qed.

Lemma fileHash_not_default (relPath : string) : fileHash relPath <> "default".
Proof.
  intros H. pose proof (fileHash_length relPath) as L. rewrite H in L.
  discriminate.
Qed.

(** The alphabet has no repeated symbol. *)
Lemma digit_table :
  forallb (fun n => Base64url.position (Base64url.digit (Z.of_nat n))
                      Base64url.alphabet =? Z.of_nat n)
          (seq 0 64) = true.
Proof. vm_compute. reflexivity. Qed.

Lemma position_digit (i : Z) :
  0 <= i < 64 ->
  Base64url.position (Base64url.digit i) Base64url.alphabet = i.
Proof.
  intros Hi. pose proof digit_table as T. rewrite forallb_forall in T.
  specialize (T (Z.to_nat i)). rewrite Z2Nat.id in T by lia.
  apply Z.eqb_eq, T, in_seq. lia.
Qed.

Lemma digit_inj (i j : Z) :
  0 <= i < 64 -> 0 <= j < 64 ->
  Base64url.digit i = Base64url.digit j -> i = j.
Proof.
  intros Hi Hj E. rewrite <- (position_digit i Hi), <- (position_digit j Hj).
  now rewrite E.
Qed.

Ltac digits :=
  repeat match goal with
         | H : Base64url.digit _ = Base64url.digit _ |- _ =>
             apply digit_inj in H;
             [| unfold isByte in *; Z.div_mod_to_equations; lia
              | unfold isByte in *; Z.div_mod_to_equations; lia]
         end.

(** The encoding loses nothing. *)
Lemma encode_inj (l1 : list Z) :
  forall l2, Forall isByte l1 -> Forall isByte l2 ->
             Base64url.encode l1 = Base64url.encode l2 -> l1 = l2.
Proof.
  induction l1 as [|a|a b|a b c rest IH] using triples_ind;
    intros [|a' [|b' [|c' rest']]] F1 F2 E;
    cbn [Base64url.encode] in E; try discriminate; try reflexivity;
    repeat match goal with
           | H : Forall isByte (_ :: _) |- _ =>
               apply Forall_cons_iff in H; destruct H
           end.
  - injection E as E1 E2. digits. f_equal.
    unfold isByte in *. Z.div_mod_to_equations. lia.
  - injection E as E1 E2 E3. digits.
    assert (a = a' /\ b = b') as [-> ->]
      by (unfold isByte in *; Z.div_mod_to_equations; lia).
    reflexivity.
  - injection E as E1 E2 E3 E4 E. digits.
    assert (a = a' /\ b = b' /\ c = c') as (-> & -> & ->)
      by (unfold isByte in *; Z.div_mod_to_equations; lia).
    do 3 f_equal. now apply IH.
Qed.

(** Two paths have the same identity exactly when their digests collide. *)
Lemma fileHash_eq_iff (p q : string) :
  fileHash p = fileHash q <->
  Sha256.digest (Sha256.bytesOfString p) = Sha256.digest (Sha256.bytesOfString q).
Proof.
  unfold fileHash. split; [|now intros ->].
  apply encode_inj; apply digest_bytes.
Qed.

Local Close Scope Z_scope.

Lemma byteValues_complete (b : Z) : isByte b -> In b byteValues.
Proof.
  intros Hb. unfold byteValues. apply in_map_iff. exists (Z.to_nat b).
  unfold isByte in Hb. split; [lia | apply in_seq; lia].
Qed.

Lemma byteLists_complete (l : list Z) :
  Forall isByte l -> In l (byteLists (List.length l)).
Proof.
  induction 1 as [|b l Hb _ IH]; cbn [byteLists List.length].
  - now left.
  - apply in_flat_map. exists l. split; [assumption|].
    apply in_map_iff. exists b. split; [reflexivity|].
    now apply byteValues_complete.
Qed.

Lemma byteLists_length (n : nat) : List.length (byteLists n) = 256 ^ n.
Proof.
  induction n as [|n IH]; [reflexivity|].
  cbn [byteLists]. rewrite Nat.pow_succ_r'.
  generalize dependent (byteLists n). intros ls <-.
  induction ls as [|l ls IHls]; [reflexivity|].
  cbn [flat_map List.length]. rewrite length_app, IHls, length_map.
  unfold byteValues. rewrite length_map, length_seq. lia.
Qed.

Lemma unary_length (n : nat) : String.length (unary n) = n.
Proof. induction n as [|n IH]; simpl; [reflexivity | now rewrite IH]. Qed.

Lemma unary_inj (m n : nat) : unary m = unary n -> m = n.
Proof. intros H. rewrite <- (unary_length m), <- (unary_length n). now rewrite H. Qed.

(** No function from strings to lists of [n] bytes is injective: there are
    more strings than such lists. *)
Lemma no_injection (n : nat) (f : string -> list Z) :
  (forall s, List.length (f s) = n /\ Forall isByte (f s)) ->
  ~ (forall p q, p <> q -> f p <> f q).
Proof.
  intros Hf Hinj.
  set (domain := map unary (seq 0 (S (256 ^ n)))).
  assert (Hnd : NoDup (map f domain)).
  { apply Finite.Injective_map_NoDup_in.
    - intros p q _ _ E. destruct (string_dec p q) as [|Hne]; [assumption|].
      now destruct (Hinj p q Hne).
    - unfold domain. apply Finite.Injective_map_NoDup; [|apply seq_NoDup].
      intros x y. apply unary_inj. }
  assert (Hincl : incl (map f domain) (byteLists n)).
  { intros l Hl. apply in_map_iff in Hl as [s [<- _]].
    destruct (Hf s) as [<- Hb]. now apply byteLists_complete. }
  pose proof (NoDup_incl_length Hnd Hincl) as Hlen.
  rewrite byteLists_length, length_map in Hlen. unfold domain in Hlen.
  rewrite length_map, length_seq in Hlen. lia.
Qed.

(** Distinct paths can share an identity: the digests are 32 bytes. *)
Lemma fileHash_not_injective :
  ~ (forall p q : string, p <> q -> fileHash p <> fileHash q).
Proof.
  intros H.
  apply (no_injection 32 (fun s => Sha256.digest (Sha256.bytesOfString s))).
  - intros s. split; [apply digest_length | apply digest_bytes].
  - intros p q Hne E. apply (H p q Hne). now apply fileHash_eq_iff.
Qed.

End HashFacts.

(** ** The signing driver: one artifact *)

Section SignFileFacts.

Variable host : Host.
Variable workDir : string.
Variable config : SigningConfig.

Lemma mem_append (c : ascii) (a b : string) :
  JsString.mem c (a ++ b) = JsString.mem c a || JsString.mem c b.
Proof.
  induction a as [|d a IH]; simpl; [reflexivity|].
  now rewrite IH, orb_assoc.
Qed.

Lemma constraintFlag_inj (t1 t2 : constraintType) :
  constraintFlag t1 = constraintFlag t2 -> t1 = t2.
Proof. destruct t1, t2; simpl; intros H; (reflexivity || discriminate). Qed.

Lemma constraintsFile_inj (relPath : string) (t1 t2 : constraintType) :
  constraintsFile workDir relPath t1 = constraintsFile workDir relPath t2 ->
  t1 = t2.
Proof.
  unfold constraintsFile, Path.join, Path.resolve. intros E.
  do 4 apply StringFacts.append_cancel_l in E.
  destruct t1, t2; simpl in E; (reflexivity || discriminate).
Qed.

Lemma constraintsFile_not_flag (relPath : string) (t1 t2 : constraintType) :
  constraintsFile workDir relPath t1 <> constraintFlag t2.
Proof.
  intros E. apply (f_equal (JsString.mem Path.sep)) in E.
  unfold constraintsFile, Path.join, Path.resolve, plistsDir, Path.join,
    Path.resolve in E.
  rewrite !mem_append in E. cbn [JsString.mem Path.sepS] in E.
  rewrite Ascii.eqb_refl in E. simpl in E.
  rewrite !orb_true_r in E. destruct t2; discriminate.
Qed.

Lemma constraintsFile_not_default (relPath : string) (type : constraintType) :
  constraintsFile workDir relPath type <> entitlementFile workDir "default".
Proof.
  intros E. apply (f_equal String.length) in E.
  unfold constraintsFile, entitlementFile, Path.join, Path.resolve in E.
  rewrite !StringFacts.length_append, HashFacts.fileHash_length in E.
  destruct type; simpl in E; lia.
Qed.

Lemma constraintsFile_not_entitlementFile (relPath : string) (type : constraintType) :
  constraintsFile workDir relPath type <>
  entitlementFile workDir (entitlementName config relPath).
Proof.
  unfold entitlementName. destruct (entitlementsOverride config relPath).
  - unfold constraintsFile, entitlementFile, Path.join, Path.resolve.
    intros E. do 3 apply StringFacts.append_cancel_l in E.
    destruct type; discriminate.
  - apply constraintsFile_not_default.
Qed.

Lemma entitlementFile_hash_not_default (relPath : string) :
  entitlementFile workDir (fileHash relPath) <> entitlementFile workDir "default".
Proof.
  intros E. apply (f_equal String.length) in E.
  unfold entitlementFile, Path.join, Path.resolve in E.
  rewrite !StringFacts.length_append, HashFacts.fileHash_length in E.
  simpl in E. lia.
Qed.

(** The loop over the constraint types never fails; it writes
    [constraintWrites] and adds [constraintArgs]. *)
Lemma foldM_addConstraint (relPath : string) (types : list constraintType) :
  forall args,
    foldM (addConstraint host workDir config relPath) types args =
    (constraintWrites host workDir config relPath types,
     Ok (args ++ constraintArgs workDir config relPath types)).
Proof.
  induction types as [|type types IH]; intros args.
  - simpl. unfold ret. now rewrite app_nil_r.
  - cbn [foldM constraintWrites constraintArgs flat_map].
    unfold addConstraint at 1.
    destruct (constraintOf config relPath type) as [constraint|].
    + cbn [emit ret bind fst snd app]. rewrite IH.
      cbn [fst snd]. now rewrite <- app_assoc.
    + cbn [ret bind fst snd app]. now rewrite IH.
Qed.

(** One iteration of the signing loop, event by event. *)
Lemma signFile_eq (wrote : bool) (filePath : string) :
  let relPath := Path.relative (appDir workDir) filePath in
  let name := entitlementName config relPath in
  signFile host workDir config wrote filePath =
  ((if writesEntitlements workDir config wrote filePath
    then [WriteFile (entitlementFile workDir name)
            (entitlementPlist (entitlementsOf config relPath))]
    else [])
   ++ constraintWrites host workDir config relPath constraintTypes
   ++ [Spawn "codesign" (signArgs host workDir config filePath)],
   match spawnFile (exitStatus host) "codesign"
           (signArgs host workDir config filePath) with
   | Ok _ => Ok (wrote || String.eqb name "default")
   | Err message => Err message
   end).
Proof.
  intros relPath name. unfold signFile, writesEntitlements, signArgs, spawn.
  fold relPath. fold name. rewrite foldM_addConstraint.
  rewrite <- !app_assoc.
  destruct wrote, (String.eqb name "default");
    cbn [negb orb emit ret lift bind fst snd app];
    destruct (spawnFile _ _ _); cbn [fst snd app];
    rewrite ?app_nil_r; reflexivity.
Qed.

End SignFileFacts.

Lemma find_firstMatch {A : Type} (test : A -> bool) (l : list A) (record : A) :
  firstMatch test l record -> find test l = Some record.
Proof.
  intros (before & after & -> & Hbefore & Hrecord).
  induction before as [|r before IH]; simpl.
  - now rewrite Hrecord.
  - rewrite (Hbefore r (or_introl eq_refl)). apply IH.
    intros r' Hr'. apply Hbefore. now right.
Qed.

Lemma find_no_match {A : Type} (test : A -> bool) (l : list A) :
  (forall r, In r l -> test r = false) -> find test l = None.
Proof.
  induction l as [|r l IH]; intros H; simpl; [reflexivity|].
  rewrite (H r (or_introl eq_refl)). apply IH. intros r' Hr'. apply H. now right.
Qed.

Lemma occurrences_app (x : string) (l1 l2 : list string) :
  occurrences x (l1 ++ l2) = occurrences x l1 + occurrences x l2.
Proof. unfold occurrences. now rewrite filter_app, length_app. Qed.

Section ConstraintFacts.

Variable host : Host.
Variable workDir : string.
Variable config : SigningConfig.
Variable relPath : string.

Lemma constraintArgs_app (l1 l2 : list constraintType) :
  constraintArgs workDir config relPath (l1 ++ l2) =
  constraintArgs workDir config relPath l1 ++
  constraintArgs workDir config relPath l2.
Proof. apply flat_map_app. Qed.

Lemma constraintWrites_app (l1 l2 : list constraintType) :
  constraintWrites host workDir config relPath (l1 ++ l2) =
  constraintWrites host workDir config relPath l1 ++
  constraintWrites host workDir config relPath l2.
Proof. apply flat_map_app. Qed.

Lemma constraintArgs_other_flag (type : constraintType) (types : list constraintType) :
  ~ In type types ->
  occurrences (constraintFlag type) (constraintArgs workDir config relPath types) = 0.
Proof.
  induction types as [|t types IH]; intros Hnotin; [reflexivity|].
  cbn [constraintArgs flat_map]. rewrite occurrences_app.
  fold (constraintArgs workDir config relPath types). rewrite IH by (simpl in Hnotin; tauto).
  destruct (constraintOf config relPath t); [|reflexivity].
  unfold occurrences. cbn [filter].
  assert (E1 : String.eqb (constraintFlag type) (constraintFlag t) = false).
  { apply String.eqb_neq. intros E. apply constraintFlag_inj in E.
    apply Hnotin. now left. }
  assert (E2 : String.eqb (constraintFlag type) (constraintsFile workDir relPath t) = false).
  { apply String.eqb_neq. intros E. symmetry in E.
    exact (constraintsFile_not_flag _ _ _ _ E). }
  now rewrite E1, E2.
Qed.

Lemma constraintArgs_other_file (type : constraintType) (types : list constraintType) :
  ~ In type types ->
  occurrences (constraintsFile workDir relPath type) (constraintArgs workDir config relPath types) = 0.
Proof.
  induction types as [|t types IH]; intros Hnotin; [reflexivity|].
  cbn [constraintArgs flat_map]. rewrite occurrences_app.
  fold (constraintArgs workDir config relPath types). rewrite IH by (simpl in Hnotin; tauto).
  destruct (constraintOf config relPath t); [|reflexivity].
  unfold occurrences. cbn [filter].
  assert (E1 : String.eqb (constraintsFile workDir relPath type) (constraintFlag t) = false).
  { apply String.eqb_neq. apply constraintsFile_not_flag. }
  assert (E2 : String.eqb (constraintsFile workDir relPath type) (constraintsFile workDir relPath t) = false).
  { apply String.eqb_neq. intros E. apply constraintsFile_inj in E.
    apply Hnotin. now left. }
  now rewrite E1, E2.
Qed.

Lemma constraintWrites_other (type : constraintType) (types : list constraintType) :
  ~ In type types ->
  countIf (isWriteTo (constraintsFile workDir relPath type))
          (constraintWrites host workDir config relPath types) = 0.
Proof.
  induction types as [|t types IH]; intros Hnotin; [reflexivity|].
  cbn [constraintWrites flat_map]. rewrite countIf_app.
  fold (constraintWrites host workDir config relPath types).
  rewrite IH by (simpl in Hnotin; tauto).
  destruct (constraintOf config relPath t); [|reflexivity].
  unfold countIf. cbn [filter isWriteTo].
  assert (E : String.eqb (constraintsFile workDir relPath t) (constraintsFile workDir relPath type) = false).
  { apply String.eqb_neq. intros E. apply constraintsFile_inj in E.
    apply Hnotin. now left. }
  now rewrite E.
Qed.

Lemma constraintTypes_split (type : constraintType) :
  exists l1 l2, constraintTypes = l1 ++ type :: l2 /\ ~ In type l1 /\ ~ In type l2.
Proof.
  destruct type.
  - exists [], [Parent; Responsible]. simpl. intuition discriminate.
  - exists [Self], [Responsible]. simpl. intuition discriminate.
  - exists [Self; Parent], []. simpl. intuition discriminate.
Qed.

(** What the loop over the constraint types does for one type. *)
Lemma constraint_of_type (type : constraintType) :
  let flag := constraintFlag type in
  let added := constraintArgs workDir config relPath constraintTypes in
  let writes := constraintWrites host workDir config relPath constraintTypes in
  match constraintOf config relPath type with
  | None =>
      countIf (isWriteTo (constraintsFile workDir relPath type)) writes = 0 /\
      occurrences flag added = 0 /\ occurrences (constraintsFile workDir relPath type) added = 0
  | Some constraint =>
      countIf (isWriteTo (constraintsFile workDir relPath type)) writes = 1 /\
      In (WriteFile (constraintsFile workDir relPath type)
            (evaluateConstraints (AC_TEAMID (env host)) (VObject constraint)))
         writes /\
      occurrences flag added = 1 /\ occurrences (constraintsFile workDir relPath type) added = 1 /\
      exists pre post, added = pre ++ [flag; constraintsFile workDir relPath type] ++ post
  end.
Proof.
  intros flag added writes. subst flag added writes.
  destruct (constraintTypes_split type) as (l1 & l2 & -> & H1 & H2).
  rewrite constraintArgs_app, constraintWrites_app.
  rewrite !occurrences_app, countIf_app.
  rewrite (constraintArgs_other_flag _ _ H1), (constraintArgs_other_file _ _ H1),
    (constraintWrites_other _ _ H1).
  change (type :: l2) with ([type] ++ l2).
  rewrite constraintArgs_app, constraintWrites_app.
  rewrite !occurrences_app, countIf_app.
  rewrite (constraintArgs_other_flag _ _ H2), (constraintArgs_other_file _ _ H2),
    (constraintWrites_other _ _ H2).
  cbn [constraintArgs constraintWrites flat_map].
  assert (Eff : String.eqb (constraintFlag type) (constraintsFile workDir relPath type) = false).
  { apply String.eqb_neq. intros E. symmetry in E.
    exact (constraintsFile_not_flag _ _ _ _ E). }
  assert (Efl : String.eqb (constraintsFile workDir relPath type) (constraintFlag type) = false).
  { apply String.eqb_neq. apply constraintsFile_not_flag. }
  destruct (constraintOf config relPath type) as [constraint|].
  - unfold occurrences, countIf. cbn [app filter isWriteTo].
    rewrite !String.eqb_refl, Eff, Efl. repeat split.
    + apply in_or_app. right. now left.
    + exists (constraintArgs workDir config relPath l1),
             (constraintArgs workDir config relPath l2).
      reflexivity.
  - repeat split.
Qed.

End ConstraintFacts.

(** C9. When an artifact is signed, for each of the categories self, parent
    and responsible: if no constraint record lists the artifact's relative
    path, or the first record that lists it has no declaration for the
    category, no constraint file is written for the category and neither its
    flag nor its file is among the arguments added to the signing
    invocation; if that record has a declaration for the category, its
    constraint file is written exactly once, with the evaluated
    declaration, and the flag followed by the file is added exactly once. *)
Theorem constraint_files_and_flags
    (host : Host) (workDir : string) (config : SigningConfig)
    (wrote : bool) (filePath : string) (type : constraintType) :
  let relPath := Path.relative (appDir workDir) filePath in
  let file := constraintsFile workDir relPath type in
  let flag := constraintFlag type in
  let listed := fun c => JsString.includes (LaunchConstraints.paths c) relPath in
  let trace := traceOf (signFile host workDir config wrote filePath) in
  let added := constraintArgs workDir config relPath constraintTypes in
  In (Spawn "codesign"
        (["--sign"; certFingerprint host; "--force"; "--timestamp";
          "--options"; "runtime"; "--entitlements";
          entitlementFile workDir (entitlementName config relPath)]
         ++ added ++ [filePath])) trace /\
  (((forall r, In r (constraints config) -> listed r = false) \/
    (exists record, firstMatch listed (constraints config) record /\
                    LaunchConstraints.get record type = None)) ->
   countIf (isWriteTo file) trace = 0 /\
   occurrences flag added = 0 /\ occurrences file added = 0) /\
  (forall record constraint,
     firstMatch listed (constraints config) record ->
     LaunchConstraints.get record type = Some constraint ->
     countIf (isWriteTo file) trace = 1 /\
     In (WriteFile file
           (evaluateConstraints (AC_TEAMID (env host)) (VObject constraint)))
        trace /\
     occurrences flag added = 1 /\ occurrences file added = 1 /\
     exists pre post, added = pre ++ [flag; file] ++ post).
Proof.
  intros relPath file flag listed trace added.
  assert (Htrace : trace =
    (if writesEntitlements workDir config wrote filePath
     then [WriteFile (entitlementFile workDir (entitlementName config relPath))
             (entitlementPlist (entitlementsOf config relPath))]
     else [])
    ++ constraintWrites host workDir config relPath constraintTypes
    ++ [Spawn "codesign" (signArgs host workDir config filePath)]).
  { unfold trace, traceOf. now rewrite signFile_eq. }
  assert (Hcount : countIf (isWriteTo file) trace =
    countIf (isWriteTo file)
      (constraintWrites host workDir config relPath constraintTypes)).
  { rewrite Htrace, !countIf_app.
    assert (E : String.eqb (entitlementFile workDir (entitlementName config relPath))
                  file = false).
    { apply String.eqb_neq. intros E. symmetry in E.
      exact (constraintsFile_not_entitlementFile _ _ _ _ E). }
    destruct (writesEntitlements _ _ _ _); unfold countIf;
      cbn [filter isWriteTo List.length]; rewrite ?E; simpl; lia. }
  pose proof (constraint_of_type host workDir config relPath type) as Htype.
  cbv zeta in Htype. fold file flag added in Htype.
  split; [|split].
  - rewrite Htrace. apply in_or_app. right. apply in_or_app. right. now left.
  - intros Habsent.
    assert (E : constraintOf config relPath type = None).
    { unfold constraintOf, launchConstraints. fold listed.
      destruct Habsent as [Hnone | (record & Hfirst & Hget)].
      - now rewrite (find_no_match _ _ Hnone).
      - now rewrite (find_firstMatch _ _ _ Hfirst). }
    rewrite E in Htype. rewrite Hcount. exact Htype.
  - intros record constraint Hfirst Hget.
    assert (E : constraintOf config relPath type = Some constraint).
    { unfold constraintOf, launchConstraints. fold listed.
      now rewrite (find_firstMatch _ _ _ Hfirst). }
    rewrite E in Htype. rewrite Hcount.
    destruct Htype as (H1 & H2 & H3 & H4 & H5). repeat split; try assumption.
    rewrite Htrace. apply in_or_app. right. apply in_or_app. now left.
Qed.

(** ** The signing driver: the loop *)

(** Solves [Forall P (traceOf m)] for a computation [m] built from the
    primitives, given the lemmas for the loops inside it. *)
Ltac trace_forall :=
  repeat first
    [ match goal with
      | |- Forall _ (traceOf (removeAll _ _ _ _)) => fail 2
      | |- Forall _ (traceOf (signingLoop _ _ _ _)) => fail 2
      end
    | apply bind_Forall; [|intros]
    | match goal with
      | |- Forall _ (traceOf (if ?c then _ else _)) => destruct c
      | |- Forall _ (traceOf (match ?c with _ => _ end)) => destruct c
      | |- Forall _ (traceOf (emit _)) => apply Forall_cons; [|apply Forall_nil]
      | |- Forall _ (traceOf (ret _)) => apply Forall_nil
      | |- Forall _ (traceOf (throw _)) => apply Forall_nil
      | |- Forall _ (traceOf (lift _)) => apply Forall_nil
      end ].

Section LoopFacts.

Variable host : Host.
Variable workDir : string.
Variable config : SigningConfig.

Lemma constraintWrites_are_writes (relPath : string) (types : list constraintType) :
  Forall (fun e => exists type content,
            e = WriteFile (constraintsFile workDir relPath type) content)
         (constraintWrites host workDir config relPath types).
Proof.
  induction types as [|t types IH]; [constructor|].
  cbn [constraintWrites flat_map]. apply Forall_app. split; [|exact IH].
  destruct (constraintOf config relPath t); constructor; [|constructor].
  now eexists _, _.
Qed.

(** The events of one iteration: file writes, then the signing invocation. *)
Lemma signFile_events (wrote : bool) (filePath : string) (e : event) :
  In e (traceOf (signFile host workDir config wrote filePath)) ->
  (exists path content, e = WriteFile path content) \/
  e = Spawn "codesign" (signArgs host workDir config filePath).
Proof.
  unfold traceOf. rewrite signFile_eq. cbn [fst].
  intros H. apply in_app_or in H as [H|H]; [|apply in_app_or in H as [H|H]].
  - destruct (writesEntitlements _ _ _ _); [|contradiction].
    destruct H as [<-|[]]. left. now eexists _, _.
  - pose proof (constraintWrites_are_writes
                  (Path.relative (appDir workDir) filePath) constraintTypes) as F.
    rewrite Forall_forall in F. destruct (F e H) as (t & c & ->).
    left. now eexists _, _.
  - destruct H as [<-|[]]. now right.
Qed.

Lemma signArgs_signing (filePath : string) :
  isArtifactSigning (Spawn "codesign" (signArgs host workDir config filePath)) = true.
Proof. reflexivity. Qed.

Lemma signArgs_inj (f1 f2 : string) :
  signArgs host workDir config f1 = signArgs host workDir config f2 -> f1 = f2.
Proof.
  unfold signArgs. cbv zeta. rewrite !app_assoc. intros E.
  apply (f_equal (fun l => last l EmptyString)) in E.
  now rewrite !last_last in E.
Qed.

Lemma loop_events (files : list string) :
  forall wrote e,
    In e (traceOf (foldM (signFile host workDir config) files wrote)) ->
    (exists path content, e = WriteFile path content) \/
    exists filePath, In filePath files /\
                     e = Spawn "codesign" (signArgs host workDir config filePath).
Proof.
  induction files as [|f files IH]; intros wrote e H; [contradiction|].
  cbn [foldM] in H. apply bind_In in H as [H | (w & _ & H)].
  - apply signFile_events in H as [H | ->]; [now left|].
    right. exists f. split; [now left | reflexivity].
  - destruct (IH _ _ H) as [Hw | (f' & Hin & ->)]; [now left|].
    right. exists f'. split; [now right | reflexivity].
Qed.

Lemma entitlementName_cases (relPath : string) :
  entitlementName config relPath = "default" \/
  entitlementName config relPath = fileHash relPath.
Proof.
  unfold entitlementName. destruct (entitlementsOverride config relPath); auto.
Qed.

Lemma entitlementFile_default_iff (relPath : string) :
  String.eqb (entitlementFile workDir (entitlementName config relPath))
             (defaultEntitlementFile workDir) =
  String.eqb (entitlementName config relPath) "default".
Proof.
  unfold defaultEntitlementFile.
  destruct (entitlementName_cases relPath) as [-> | E].
  - now rewrite !String.eqb_refl.
  - rewrite E.
    rewrite (proj2 (String.eqb_neq _ _) (entitlementFile_hash_not_default workDir relPath)).
    symmetry. apply String.eqb_neq. apply HashFacts.fileHash_not_default.
Qed.

(** One iteration writes the default entitlement file exactly when the
    artifact uses it and the flag is not yet set. *)
Lemma signFile_default_writes (wrote : bool) (filePath : string) :
  let name := entitlementName config (Path.relative (appDir workDir) filePath) in
  countIf (isWriteTo (defaultEntitlementFile workDir))
          (traceOf (signFile host workDir config wrote filePath)) =
  if negb wrote && String.eqb name "default" then 1 else 0.
Proof.
  intros name. unfold traceOf. rewrite signFile_eq. cbn [fst].
  rewrite !countIf_app.
  set (relPath := Path.relative (appDir workDir) filePath) in *.
  assert (Hc : countIf (isWriteTo (defaultEntitlementFile workDir))
                 (constraintWrites host workDir config relPath constraintTypes) = 0).
  { apply countIf_none.
    eapply Forall_impl; [|apply constraintWrites_are_writes].
    intros e (t & c & ->). cbn [isWriteTo]. apply String.eqb_neq.
    apply constraintsFile_not_default. }
  rewrite Hc. unfold writesEntitlements. fold relPath. fold name.
  unfold countIf at 2. cbn [filter isWriteTo List.length].
  assert (Ef : String.eqb (entitlementFile workDir name)
                 (defaultEntitlementFile workDir) = String.eqb name "default")
    by apply entitlementFile_default_iff.
  destruct wrote, (String.eqb name "default") eqn:En;
    cbn [negb orb andb]; unfold countIf; cbn [filter isWriteTo];
    rewrite ?Ef, ?En; reflexivity.
Qed.

Lemma signFile_outcome (wrote : bool) (filePath : string) (wrote' : bool) :
  outcomeOf (signFile host workDir config wrote filePath) = Ok wrote' ->
  wrote' = wrote ||
           String.eqb (entitlementName config
                         (Path.relative (appDir workDir) filePath)) "default".
Proof.
  unfold outcomeOf. rewrite signFile_eq. cbn [snd].
  destruct (spawnFile _ _ _); [|discriminate]. now intros [= <-].
Qed.

Lemma signArgs_default (filePath : string) :
  signsWithEntitlements (defaultEntitlementFile workDir)
    (Spawn "codesign" (signArgs host workDir config filePath)) =
  String.eqb (entitlementName config
                (Path.relative (appDir workDir) filePath)) "default".
Proof.
  unfold signsWithEntitlements. rewrite signArgs_signing.
  unfold signArgs. cbn [app nth andb]. rewrite String.eqb_refl.
  cbn [andb]. apply entitlementFile_default_iff.
Qed.

Lemma signFile_default_signing (wrote : bool) (filePath : string) (e : event) :
  In e (traceOf (signFile host workDir config wrote filePath)) ->
  signsWithEntitlements (defaultEntitlementFile workDir) e = true ->
  String.eqb (entitlementName config
                (Path.relative (appDir workDir) filePath)) "default" = true.
Proof.
  intros Hin He. apply signFile_events in Hin as [(p & c & ->) | ->].
  - discriminate.
  - now rewrite signArgs_default in He.
Qed.

(** The flag keeps the default entitlement file from being written twice,
    and an artifact signed with it finds it written. *)
Lemma loop_default_writes (files : list string) :
  forall wrote,
    let trace := traceOf (foldM (signFile host workDir config) files wrote) in
    let count := countIf (isWriteTo (defaultEntitlementFile workDir)) trace in
    count <= (if wrote then 0 else 1) /\
    (wrote = false ->
     (exists e, In e trace /\
                signsWithEntitlements (defaultEntitlementFile workDir) e = true) ->
     count = 1).
Proof.
  induction files as [|f files IH]; intros wrote trace count.
  - subst count trace. cbn. split; [destruct wrote; lia|].
    intros _ (e & [] & _).
  - subst count trace. cbn [foldM]. rewrite bind_trace, countIf_app.
    rewrite signFile_default_writes.
    set (isDefault :=
           String.eqb (entitlementName config
                         (Path.relative (appDir workDir) f)) "default").
    destruct (outcomeOf (signFile host workDir config wrote f)) as [w|msg] eqn:Eo.
    + apply signFile_outcome in Eo. fold isDefault in Eo.
      destruct (IH w) as [Hle Hone]. cbv zeta in Hle, Hone.
      split.
      * destruct wrote, isDefault; subst w; cbn [negb andb orb] in *; lia.
      * intros -> (e & Hin & He). cbn [orb negb andb] in *. subst w.
        destruct isDefault eqn:Ed; [lia|].
        apply in_app_or in Hin as [Hin|Hin].
        -- pose proof (signFile_default_signing _ _ _ Hin He) as C.
           fold isDefault in C. congruence.
        -- rewrite Hone; [lia | reflexivity | now exists e].
    + cbn [countIf filter List.length]. split.
      * destruct wrote, isDefault; cbn [negb andb]; lia.
      * intros -> (e & Hin & He). rewrite app_nil_r in Hin.
        pose proof (signFile_default_signing _ _ _ Hin He) as C.
        fold isDefault in C. rewrite C. reflexivity.
Qed.

Lemma loop_no_notarize (files : list string) :
  forall wrote,
    Forall (fun e => isNotarize e = false)
           (traceOf (foldM (signFile host workDir config) files wrote)).
Proof.
  intros wrote. apply Forall_forall. intros e H.
  apply loop_events in H as [(p & c & ->) | (f & _ & ->)]; reflexivity.
Qed.

End LoopFacts.

(** ** The walker as the loop runs it *)

Lemma bind_ret_l {A B : Type} (a : A) (k : A -> M B) : bind (ret a) k = k a.
Proof. unfold ret. cbn [bind]. now destruct (k a). Qed.

Lemma bind_assoc {A B C : Type} (m : M A) (k : A -> M B) (h : B -> M C) :
  bind (bind m k) h = bind m (fun a => bind (k a) h).
Proof.
  destruct m as [t [a|msg]]; cbn [bind]; [|reflexivity].
  destruct (k a) as [t' [b|msg]]; cbn [bind]; [|reflexivity].
  destruct (h b) as [t'' r]. now rewrite app_assoc.
Qed.

Lemma bind_ret_r {A : Type} (m : M A) : bind m (fun a => ret a) = m.
Proof.
  destruct m as [t [a|msg]]; cbn [bind ret]; [|reflexivity].
  now rewrite app_nil_r.
Qed.

Lemma foldM_app {A B : Type} (f : A -> B -> M A) (l1 l2 : list B) :
  forall a, foldM f (l1 ++ l2) a = bind (foldM f l1 a) (foldM f l2).
Proof.
  induction l1 as [|x l1 IH]; intros a; cbn [app foldM].
  - now rewrite bind_ret_l.
  - rewrite bind_assoc.
    destruct (f a x) as [t [a'|msg]]; cbn [bind]; [|reflexivity].
    now rewrite IH.
Qed.

Lemma probe_is_probe (target : string) :
  isProbe (Spawn "codesign" (verifyArgs target)) = true.
Proof. reflexivity. Qed.

Lemma withoutProbes_app (a b : list event) :
  withoutProbes (a ++ b) = withoutProbes a ++ withoutProbes b.
Proof. apply filter_app. Qed.

Lemma withoutProbes_In (e : event) (trace : list event) :
  In e (withoutProbes trace) <-> In e trace /\ isProbe e = false.
Proof.
  unfold withoutProbes. rewrite filter_In, negb_true_iff. reflexivity.
Qed.

Lemma withoutProbes_none (trace : list event) :
  Forall (fun e => isProbe e = false) trace -> withoutProbes trace = trace.
Proof.
  induction 1 as [|e trace He _ IH]; [reflexivity|].
  unfold withoutProbes in *. cbn [filter]. now rewrite He, IH.
Qed.

Lemma withoutProbes_count (test : event -> bool) (trace : list event) :
  (forall e, test e = true -> isProbe e = false) ->
  countIf test (withoutProbes trace) = countIf test trace.
Proof.
  intros H. induction trace as [|e trace IH]; [reflexivity|].
  unfold countIf, withoutProbes in *. cbn [filter].
  destruct (isProbe e) eqn:Ep; cbn [negb filter].
  - destruct (test e) eqn:Et; [|exact IH].
    rewrite (H e Et) in Ep. discriminate.
  - destruct (test e); cbn [List.length]; now rewrite IH.
Qed.

(** A position of an event that is no presence check is a position of
    the trace without the presence checks. *)
Lemma withoutProbes_split (trace pre post : list event) (e : event) :
  trace = pre ++ e :: post -> isProbe e = false ->
  withoutProbes trace = withoutProbes pre ++ e :: withoutProbes post.
Proof.
  intros -> He. rewrite withoutProbes_app. f_equal.
  unfold withoutProbes. cbn [filter]. now rewrite He.
Qed.

Lemma same_refl {A : Type} (m : M A) :
  Forall (fun e => isProbe e = false) (traceOf m) -> sameButProbes m m.
Proof. intros H. split; [now apply withoutProbes_none | reflexivity]. Qed.

Lemma same_bind {A B : Type} (m m' : M A) (k k' : A -> M B) :
  sameButProbes m m' -> (forall a, sameButProbes (k a) (k' a)) ->
  sameButProbes (bind m k) (bind m' k').
Proof.
  intros [Ht Ho] Hk. unfold sameButProbes.
  rewrite !bind_trace, !bind_outcome, withoutProbes_app, Ht, <- Ho.
  destruct (outcomeOf m) as [a|msg]; [|now split].
  destruct (Hk a) as [Ht' Ho']. now rewrite Ht', Ho'.
Qed.

Section WalkFacts.

Variable host : Host.
Variable workDir : string.

Section Body.

Variable A : Type.
Variable body : A -> string -> M A.
Hypothesis body_events :
  forall a target, Forall (fun e => isProbe e = false) (traceOf (body a target)).

Lemma same_probe (a : A) (target : string) :
  sameButProbes (probe host body a target)
                (foldM body (yieldUnlessSigned (exitStatus host) target) a).
Proof.
  unfold probe, yieldUnlessSigned.
  destruct (spawnFile (exitStatus host) "codesign" (verifyArgs target)) as [u|msg].
  - split; reflexivity.
  - cbn [foldM]. rewrite bind_ret_r. unfold sameButProbes.
    rewrite bind_trace, bind_outcome. cbn [traceOf outcomeOf emit fst snd].
    split; [|reflexivity].
    rewrite withoutProbes_app. unfold withoutProbes at 1. cbn [filter].
    rewrite probe_is_probe. cbn [negb app].
    apply withoutProbes_none. apply body_events.
Qed.

Lemma same_walk (n : node) :
  forall fullPath a,
    sameButProbes (walk host body fullPath n a)
                  (foldM body (visit (exitStatus host) fullPath n) a).
Proof.
  induction n as [data| | |entries IH] using node_induction; intros fullPath a.
  - cbn [walk visit]. destruct (isBundleExecutable fullPath); [now split|].
    destruct (hasValidHeader data); [apply same_probe | now split].
  - now split.
  - now split.
  - rewrite visit_directory. cbn [walk].
    assert (Hentries : forall a,
              sameButProbes
                (foldM (fun a e => walk host body (Path.resolve fullPath (fst e))
                                     (snd e) a) entries a)
                (foldM body
                   (flat_map (fun e => visit (exitStatus host)
                                         (Path.resolve fullPath (fst e)) (snd e))
                             entries) a)).
    { clear a. induction IH as [|e entries He _ IHentries]; intros a.
      - now split.
      - cbn [foldM flat_map]. rewrite foldM_app.
        apply same_bind; [apply He | exact IHentries]. }
    rewrite foldM_app.
    apply same_bind; [apply Hentries|]. intros a'.
    destruct (_ || _); [apply same_probe | now split].
Qed.

End Body.


End WalkFacts.

(** ** The signing loop and the loop over the yielded paths *)

Section LoopBridge.

Variable host : Host.
Variable workDir : string.
Variable config : SigningConfig.

Lemma signFile_no_probe (wrote : bool) (filePath : string) :
  Forall (fun e => isProbe e = false)
         (traceOf (signFile host workDir config wrote filePath)).
Proof.
  apply Forall_forall. intros e H.
  apply signFile_events in H as [(p & c & ->) | ->]; reflexivity.
Qed.

Lemma signingLoop_same (entries : list (string * node)) :
  sameButProbes (signingLoop host workDir config entries)
                (loopOverYielded host workDir config entries).
Proof.
  unfold signingLoop, loopOverYielded, findFilesToSign.
  apply same_walk. intros a target. apply signFile_no_probe.
Qed.

Lemma signingLoop_outcome (entries : list (string * node)) :
  outcomeOf (signingLoop host workDir config entries) =
  outcomeOf (loopOverYielded host workDir config entries).
Proof. exact (proj2 (signingLoop_same entries)). Qed.

Lemma signingLoop_count (test : event -> bool) (entries : list (string * node)) :
  (forall e, test e = true -> isProbe e = false) ->
  countIf test (traceOf (signingLoop host workDir config entries)) =
  countIf test (traceOf (loopOverYielded host workDir config entries)).
Proof.
  intros H. rewrite <- (proj1 (signingLoop_same entries)).
  symmetry. now apply withoutProbes_count.
Qed.

Lemma signingLoop_In (entries : list (string * node)) (e : event) :
  In e (traceOf (loopOverYielded host workDir config entries)) <->
  In e (traceOf (signingLoop host workDir config entries)) /\ isProbe e = false.
Proof.
  rewrite <- (proj1 (signingLoop_same entries)). apply withoutProbes_In.
Qed.

Lemma signingLoop_split (entries : list (string * node))
    (pre post : list event) (e : event) :
  traceOf (signingLoop host workDir config entries) = pre ++ e :: post ->
  isProbe e = false ->
  traceOf (loopOverYielded host workDir config entries) =
    withoutProbes pre ++ e :: withoutProbes post.
Proof.
  intros E He. rewrite <- (proj1 (signingLoop_same entries)).
  now apply withoutProbes_split.
Qed.

(** The events of the signing loop: presence checks, file writes and
    signing invocations for the yielded paths. *)
Lemma signingLoop_events (entries : list (string * node)) (e : event) :
  In e (traceOf (signingLoop host workDir config entries)) ->
  isProbe e = true \/
  (exists path content, e = WriteFile path content) \/
  exists filePath,
    In filePath (findFilesToSign (exitStatus host) (appDir workDir) entries) /\
    e = Spawn "codesign" (signArgs host workDir config filePath).
Proof.
  intros H. destruct (isProbe e) eqn:Ep; [now left|]. right.
  apply (loop_events host workDir config _ false).
  apply signingLoop_In. now split.
Qed.


Lemma signingLoop_forall (P : event -> Prop) (entries : list (string * node)) :
  (forall command args, P (Spawn command args)) ->
  (forall path content, P (WriteFile path content)) ->
  Forall P (traceOf (signingLoop host workDir config entries)).
Proof.
  intros Hspawn Hwrite. apply Forall_forall. intros e H.
  apply signingLoop_events in H as [H | [(p & c & ->) | (f & _ & ->)]];
    [|apply Hwrite | apply Hspawn].
  destruct e; try discriminate. apply Hspawn.
Qed.

End LoopBridge.


Lemma probe_not_write (e : event) : isProbe e = true -> isWrite e = false.
Proof. destruct e; (discriminate || reflexivity). Qed.

Lemma isWriteTo_no_probe (path : string) (e : event) :
  isWriteTo path e = true -> isProbe e = false.
Proof. destruct e; (discriminate || reflexivity). Qed.

(** ** The signing driver: the run *)

Section RunFacts.

Variable host : Host.
Variable workDir : string.

Lemma removal_calls (relpaths : list string) (u : unit) :
  foldM (fun _ relpath => emit (Rm (removalPath workDir relpath))) relpaths u =
  (map (fun relpath => Rm (removalPath workDir relpath)) relpaths, Ok tt).
Proof.
  revert u. induction relpaths as [|r rest IH]; intros []; [reflexivity|].
  cbn [foldM map]. unfold emit at 1. cbn [bind]. now rewrite IH.
Qed.

(** The removal phase: the calls, then the outcome of the checks. *)
Lemma removeAll_eq (state : option (list (string * node))) (relpaths : list string) :
  removeAll host workDir state relpaths =
  (map (fun relpath => Rm (removalPath workDir relpath)) relpaths,
   if forallb Fs.resolves
        (map (fun relpath => lstat host (removalPath workDir relpath)) relpaths)
   then Ok (fold_left Fs.remove
              (map (fun relpath => lstat host (removalPath workDir relpath)) relpaths)
              state)
   else Err "ENOENT: no such file or directory").
Proof.
  unfold removeAll. rewrite removal_calls. cbv zeta.
  destruct (forallb _ _); cbn [bind ret throw]; now rewrite app_nil_r.
Qed.

Lemma removeAll_events (P : event -> Prop) :
  (forall path, P (Rm path)) ->
  forall relpaths state, Forall P (traceOf (removeAll host workDir state relpaths)).
Proof.
  intros HP relpaths state. rewrite removeAll_eq. cbn [traceOf fst].
  apply Forall_forall. intros e He. apply in_map_iff in He as (r & <- & _).
  apply HP.
Qed.

Lemma spawn_events (P : event -> Prop) (command : string) (args : list string) :
  P (Spawn command args) -> Forall P (traceOf (spawn host command args)).
Proof. intros HP. unfold spawn. trace_forall. exact HP. Qed.

Lemma notarizeApp_quiet (config : Configuration) :
  Forall quiet (traceOf (notarizeApp host workDir config)).
Proof. unfold notarizeApp. trace_forall; split; reflexivity. Qed.

Lemma buildDiskImage_quiet (config : Configuration) :
  Forall quiet (traceOf (buildDiskImage host workDir config)).
Proof.
  unfold buildDiskImage. cbv zeta. trace_forall; split; reflexivity.
Qed.

Lemma aroundLoop_quiet {A : Type} (m : M A) :
  Forall quiet (traceOf m) -> aroundLoop host workDir m.
Proof.
  intros H. exists (traceOf m), [], []. rewrite !app_nil_r.
  split; [reflexivity|]. split; [assumption|]. split; [constructor | now left].
Qed.

Lemma aroundLoop_after_quiet {A B : Type} (m : M A) (k : A -> M B) :
  Forall quiet (traceOf m) ->
  (forall a, outcomeOf m = Ok a -> aroundLoop host workDir (k a)) ->
  aroundLoop host workDir (bind m k).
Proof.
  intros Hm Hk. destruct (outcomeOf m) as [a|msg] eqn:E.
  - destruct (Hk a eq_refl) as (pre & loop & post & Ht & Hpre & Hpost & Hloop).
    exists (traceOf m ++ pre), loop, post.
    rewrite bind_trace, E, Ht, <- app_assoc.
    repeat split; try assumption. apply Forall_app. now split.
  - apply aroundLoop_quiet. rewrite bind_trace, E, app_nil_r. exact Hm.
Qed.

Lemma aroundLoop_before_quiet {A B : Type} (m : M A) (k : A -> M B) :
  aroundLoop host workDir m ->
  (forall a, Forall quiet (traceOf (k a))) ->
  aroundLoop host workDir (bind m k).
Proof.
  intros (pre & loop & post & Ht & Hpre & Hpost & Hloop) Hk.
  exists pre, loop,
    (post ++ match outcomeOf m with Ok a => traceOf (k a) | Err _ => [] end).
  rewrite bind_trace, Ht, <- !app_assoc.
  repeat split; try assumption. apply Forall_app. split; [assumption|].
  destruct (outcomeOf m); [apply Hk | constructor].
Qed.

Lemma aroundLoop_loop (config : SigningConfig) (entries : list (string * node)) :
  signingConfigFile host = Ok config ->
  aroundLoop host workDir (signingLoop host workDir config entries).
Proof.
  intros H. exists [], (traceOf (signingLoop host workDir config entries)), [].
  rewrite app_nil_r.
  split; [reflexivity|]. split; [constructor|]. split; [constructor|].
  right. now exists config, entries.
Qed.

Lemma signBundle_aroundLoop : aroundLoop host workDir (signBundle host workDir).
Proof.
  unfold signBundle.
  apply aroundLoop_after_quiet; [trace_forall | intros _ _].
  apply aroundLoop_after_quiet; [trace_forall | intros builder _].
  apply aroundLoop_after_quiet; [trace_forall | intros config Hconfig].
  apply aroundLoop_after_quiet; [trace_forall; split; reflexivity | intros _ _].
  apply aroundLoop_after_quiet;
    [apply removeAll_events; intros; split; reflexivity | intros state _].
  apply aroundLoop_after_quiet; [trace_forall; split; reflexivity | intros _ _].
  apply aroundLoop_after_quiet; [trace_forall; split; reflexivity | intros _ _].
  apply aroundLoop_after_quiet; [trace_forall | intros entries _].
  apply aroundLoop_before_quiet.
  - apply aroundLoop_loop. exact Hconfig.
  - intros _. trace_forall; split; reflexivity.
Qed.

(** The events of a run are those of the signing loop, between events that
    write no file and sign no artifact. *)
Lemma sign_aroundLoop : aroundLoop host workDir (sign host workDir).
Proof.
  unfold sign. apply aroundLoop_before_quiet; [apply signBundle_aroundLoop|].
  intros config. apply bind_Forall; [apply notarizeApp_quiet|].
  intros _. apply buildDiskImage_quiet.
Qed.

Lemma isWriteTo_isWrite (path : string) (e : event) :
  isWriteTo path e = true -> isWrite e = true.
Proof. destruct e; simpl; (discriminate || reflexivity). Qed.

Lemma quiet_not_written (path : string) (trace : list event) :
  Forall quiet trace -> countIf (isWriteTo path) trace = 0.
Proof.
  intros H. apply countIf_none. eapply Forall_impl; [|exact H].
  intros e [Hw _]. destruct (isWriteTo path e) eqn:E; [|reflexivity].
  apply isWriteTo_isWrite in E. congruence.
Qed.

Lemma quiet_not_signing (trace : list event) (e : event) :
  Forall quiet trace -> In e trace -> isArtifactSigning e = false.
Proof. intros H Hin. rewrite Forall_forall in H. now destruct (H e Hin). Qed.

Lemma signsWithEntitlements_signing (file : string) (e : event) :
  signsWithEntitlements file e = true -> isArtifactSigning e = true.
Proof.
  destruct e; simpl; try discriminate. intros H.
  apply andb_true_iff in H as [H _]. now apply andb_true_iff in H as [H _].
Qed.

End RunFacts.

(** ** The claims about a run *)

Section RunClaims.

Variable host : Host.
Variable workDir : string.

Lemma notOverridden_iff (config : SigningConfig) (relPath : string) :
  notOverridden config relPath <-> entitlementsOverride config relPath = None.
Proof.
  unfold notOverridden, entitlementsOverride. split.
  - apply find_no_match.
  - intros H e He. exact (find_none _ _ H e He).
Qed.

Lemma notOverridden_default (config : SigningConfig) (relPath : string) :
  notOverridden config relPath ->
  entitlementName config relPath = "default" /\
  entitlementsOf config relPath = entitlementsDefault config.
Proof.
  intros H. apply notOverridden_iff in H.
  unfold entitlementName, entitlementsOf. now rewrite H.
Qed.

(** C4, amended. An artifact whose relative path no override lists resolves
    to the entitlement identity [default] and the default entitlement set.
    The default entitlement file is written at most once in a run, and
    exactly once in every run that signs at least one such artifact. *)
Theorem default_entitlements_written_at_most_once :
  let count :=
    countIf (isWriteTo (defaultEntitlementFile workDir))
            (traceOf (sign host workDir)) in
  (forall config relPath,
     notOverridden config relPath ->
     entitlementName config relPath = "default" /\
     entitlementsOf config relPath = entitlementsDefault config) /\
  count <= 1 /\
  (forall config filePath,
     signingConfigFile host = Ok config ->
     notOverridden config (Path.relative (appDir workDir) filePath) ->
     In (Spawn "codesign" (signArgs host workDir config filePath))
        (traceOf (sign host workDir)) ->
     count = 1).
Proof.
  intros count. split; [exact notOverridden_default|].
  destruct (sign_aroundLoop host workDir)
    as (pre & loop & post & Ht & Hpre & Hpost & Hloop).
  assert (Hcount : count = countIf (isWriteTo (defaultEntitlementFile workDir)) loop).
  { unfold count. rewrite Ht, !countIf_app.
    rewrite (quiet_not_written _ _ Hpre), (quiet_not_written _ _ Hpost). lia. }
  split.
  - rewrite Hcount. destruct Hloop as [-> | (config & entries & _ & ->)].
    + cbn. lia.
    + rewrite signingLoop_count by apply isWriteTo_no_probe.
      exact (proj1 (loop_default_writes host workDir config _ false)).
  - intros config filePath Hconfig Hnot Hin.
    set (e := Spawn "codesign" (signArgs host workDir config filePath)) in *.
    assert (He : signsWithEntitlements (defaultEntitlementFile workDir) e = true).
    { unfold e. rewrite signArgs_default.
      destruct (notOverridden_default _ _ Hnot) as [-> _]. reflexivity. }
    assert (Hinloop : In e loop).
    { rewrite Ht in Hin. apply in_app_or in Hin as [Hin|Hin].
      - pose proof (quiet_not_signing _ _ Hpre Hin) as C.
        rewrite (signsWithEntitlements_signing _ _ He) in C. discriminate.
      - apply in_app_or in Hin as [Hin|Hin]; [assumption|].
        pose proof (quiet_not_signing _ _ Hpost Hin) as C.
        rewrite (signsWithEntitlements_signing _ _ He) in C. discriminate. }
    rewrite Hcount. destruct Hloop as [-> | (config' & entries & _ & ->)].
    + contradiction.
    + rewrite signingLoop_count by apply isWriteTo_no_probe.
      apply (proj2 (loop_default_writes host workDir config' _ false)).
      * reflexivity.
      * exists e. split; [|exact He].
        apply signingLoop_In. split; [exact Hinloop | reflexivity].
Qed.

Lemma signBundle_no_notarize :
  Forall (fun e => isNotarize e = false) (traceOf (signBundle host workDir)).
Proof.
  unfold signBundle. trace_forall; try reflexivity.
  - apply removeAll_events. reflexivity.
  - apply signingLoop_forall; reflexivity.
Qed.

Lemma buildDiskImage_no_notarize (config : Configuration) :
  Forall (fun e => isNotarize e = false)
         (traceOf (buildDiskImage host workDir config)).
Proof. unfold buildDiskImage. cbv zeta. trace_forall; reflexivity. Qed.

(** C5. In a run in which the Apple ID, the password or the team
    identifier is unset or empty, [notarize] is never called.  With
    [--skip-notarize] the notarization step emits the warning and succeeds,
    and the run goes on to build the disk image, whose outcome is the
    outcome of the run; without the flag the step throws. *)
Theorem notarization_skipped_without_credentials :
  isSet (APPLEID (env host)) && isSet (AC_PASSWORD (env host)) &&
    isSet (AC_TEAMID (env host)) = false ->
  Forall (fun e => isNotarize e = false) (traceOf (sign host workDir)) /\
  (JsString.includes (argv (env host)) "--skip-notarize" = true ->
   forall config,
     notarizeApp host workDir config =
       ([ConsoleWarn "Skipping notarization: --skip-notarize given."], Ok tt) /\
     (outcomeOf (signBundle host workDir) = Ok config ->
      traceOf (sign host workDir) =
        traceOf (signBundle host workDir)
        ++ [ConsoleWarn "Skipping notarization: --skip-notarize given."]
        ++ traceOf (buildDiskImage host workDir config) /\
      outcomeOf (sign host workDir) =
        outcomeOf (buildDiskImage host workDir config))) /\
  (JsString.includes (argv (env host)) "--skip-notarize" = false ->
   forall config,
     notarizeApp host workDir config = ([], Err cannotNotarize)).
Proof.
  intros Habsent. split; [|split].
  - unfold sign. apply bind_Forall; [apply signBundle_no_notarize|].
    intros config. apply bind_Forall; [|intros; apply buildDiskImage_no_notarize].
    unfold notarizeApp. rewrite Habsent.
    destruct (JsString.includes _ _); trace_forall; reflexivity.
  - intros Hflag config.
    assert (Hn : notarizeApp host workDir config =
                 ([ConsoleWarn "Skipping notarization: --skip-notarize given."], Ok tt)).
    { unfold notarizeApp. now rewrite Hflag. }
    split; [exact Hn|]. intros Hok. unfold sign.
    rewrite (bind_ok _ _ _ Hok). cbn [traceOf outcomeOf fst snd].
    rewrite Hn. cbn [bind].
    destruct (buildDiskImage host workDir config) as [t r].
    split; reflexivity.
  - intros Hflag config. unfold notarizeApp. now rewrite Hflag, Habsent.
Qed.


End RunClaims.

(** ** The removal phase *)

Module FsFacts.

Lemma removeAt_nil (name : string) (rest : list string) :
  Fs.removeAt (name :: rest) [] = None.
Proof. reflexivity. Qed.

Lemma removeAt_cons (name : string) (rest : list string)
    (e : string * node) (es : list (string * node)) :
  Fs.removeAt (name :: rest) (e :: es) =
  if String.eqb (fst e) name then
    match rest with
    | [] => Some es
    | _ :: _ =>
        match snd e with
        | Directory sub =>
            option_map (fun sub' => (fst e, Directory sub') :: es)
                       (Fs.removeAt rest sub)
        | _ => None
        end
    end
  else option_map (cons e) (Fs.removeAt (name :: rest) es).
Proof. reflexivity. Qed.

Lemma lookup_cons (name : string) (rest : list string)
    (e : string * node) (es : list (string * node)) :
  Fs.lookup (name :: rest) (Directory (e :: es)) =
  if String.eqb (fst e) name then Fs.lookup rest (snd e)
  else Fs.lookup (name :: rest) (Directory es).
Proof. cbn [Fs.lookup find]. now destruct (String.eqb (fst e) name). Qed.

Lemma lookup_absent_name (name : string) (rest : list string)
    (es : list (string * node)) :
  ~ In name (map fst es) -> Fs.lookup (name :: rest) (Directory es) = None.
Proof.
  induction es as [|e es IH]; intros H; [reflexivity|].
  rewrite lookup_cons. destruct (String.eqb_spec (fst e) name) as [E|E].
  - exfalso. apply H. now left.
  - apply IH. intros Hin. apply H. now right.
Qed.

Lemma wellFormed_cons (e : string * node) (es : list (string * node)) :
  wellFormed (Directory (e :: es)) <->
  ~ In (fst e) (map fst es) /\ JsString.mem Path.sep (fst e) = false /\
  wellFormed (snd e) /\ wellFormed (Directory es).
Proof.
  rewrite !wellFormed_directory. cbn [map]. rewrite NoDup_cons_iff, Forall_cons_iff.
  tauto.
Qed.

(** A path that is missing cannot be removed. *)
Lemma removeAt_missing (components : list string) :
  forall entries,
    components <> [] ->
    Fs.lookup components (Directory entries) = None ->
    Fs.removeAt components entries = None.
Proof.
  induction components as [|name rest IH]; intros entries Hne Hmiss;
    [contradiction|].
  induction entries as [|e es IHes]; [reflexivity|].
  rewrite removeAt_cons. rewrite lookup_cons in Hmiss.
  destruct (String.eqb (fst e) name).
  - destruct rest as [|r rest]; [discriminate|].
    destruct (snd e) as [| |sub|]; try reflexivity.
    rewrite (IH sub); [reflexivity | discriminate | assumption].
  - now rewrite IHes.
Qed.

(** Removing a path adds no name to a listing. *)
Lemma removeAt_names (components : list string) (entries entries' : list (string * node)) :
  Fs.removeAt components entries = Some entries' ->
  incl (map fst entries') (map fst entries).
Proof.
  destruct components as [|name rest]; [discriminate|].
  revert entries'. induction entries as [|e es IH]; intros entries' H;
    [discriminate|].
  rewrite removeAt_cons in H. destruct (String.eqb (fst e) name).
  - destruct rest as [|r rest].
    + injection H as <-. apply incl_tl, incl_refl.
    + destruct (snd e) as [| |sub|]; try discriminate.
      destruct (Fs.removeAt (r :: rest) sub); [|discriminate].
      injection H as <-. apply incl_refl.
  - destruct (Fs.removeAt (name :: rest) es) as [es'|]; [|discriminate].
    injection H as <-. cbn [map].
    apply incl_cons; [now left|]. apply incl_tl. now apply IH.
Qed.

(** Removing a path keeps the listing well formed. *)
Lemma removeAt_wellFormed (components : list string) :
  forall entries entries',
    wellFormed (Directory entries) ->
    Fs.removeAt components entries = Some entries' ->
    wellFormed (Directory entries').
Proof.
  induction components as [|name rest IH]; intros entries entries' Hwf H;
    [discriminate|].
  revert entries' H. induction entries as [|e es IHes]; intros entries' H;
    [discriminate|].
  apply wellFormed_cons in Hwf as (Hnotin & Hsep & Hchild & Hes).
  rewrite removeAt_cons in H. destruct (String.eqb (fst e) name).
  - destruct rest as [|r rest].
    + now injection H as <-.
    + destruct (snd e) as [| |sub|] eqn:Ee; try discriminate.
      destruct (Fs.removeAt (r :: rest) sub) as [sub'|] eqn:Er; [|discriminate].
      injection H as <-. apply wellFormed_cons. cbn [fst snd].
      split; [assumption|]. split; [assumption|]. split; [|assumption].
      now apply (IH sub).
  - destruct (Fs.removeAt (name :: rest) es) as [es'|] eqn:Er; [|discriminate].
    injection H as <-. apply wellFormed_cons.
    split; [|split; [assumption|split; [assumption|]]].
    + intros Hin. apply Hnotin. exact (removeAt_names _ _ _ Er _ Hin).
    + now apply IHes.
Qed.

(** Removing a path brings no missing path into existence. *)
Lemma removeAt_keeps_missing (components : list string) :
  forall entries entries' q,
    wellFormed (Directory entries) ->
    Fs.removeAt components entries = Some entries' ->
    Fs.lookup q (Directory entries) = None ->
    Fs.lookup q (Directory entries') = None.
Proof.
  induction components as [|name rest IH]; intros entries entries' q Hwf H Hq;
    [discriminate|].
  destruct q as [|qn qr]; [discriminate|].
  revert entries' H. induction entries as [|e es IHes]; intros entries' H;
    [discriminate|].
  apply wellFormed_cons in Hwf as (Hnotin & Hsep & Hchild & Hes).
  rewrite removeAt_cons in H. rewrite lookup_cons in Hq.
  destruct (String.eqb (fst e) name).
  - destruct rest as [|r rest].
    + injection H as <-.
      destruct (String.eqb_spec (fst e) qn) as [E|E]; [|assumption].
      apply lookup_absent_name. now rewrite <- E.
    + destruct (snd e) as [| |sub|] eqn:Ee; try discriminate.
      destruct (Fs.removeAt (r :: rest) sub) as [sub'|] eqn:Er; [|discriminate].
      injection H as <-. rewrite lookup_cons. cbn [fst snd].
      destruct (String.eqb (fst e) qn); [|assumption].
      exact (IH sub sub' qr Hchild Er Hq).
  - destruct (Fs.removeAt (name :: rest) es) as [es'|] eqn:Er; [|discriminate].
    injection H as <-. rewrite lookup_cons.
    destruct (String.eqb (fst e) qn); [assumption|].
    now apply IHes.
Qed.

End FsFacts.

(** C10. When the path of a relative path of the remove list names
    nothing, that is when [lstat] finds nothing at
    [path.join(appDir, relpath)] as the removal phase starts, the removal
    phase fails, although [rm] has been called for every path of the list,
    and so does the run, before any file is written and before any command
    is spawned: no artifact is signed. *)
Theorem missing_remove_path_aborts
    (host : Host) (workDir : string) (config : SigningConfig) (missing : string) :
  signingConfigFile host = Ok config ->
  In missing (remove config) ->
  lstat host (Path.joinAny (appDir workDir) missing) = Fs.NoEntry ->
  succeeded (outcomeOf (removeAll host workDir (Some (bundle host)) (remove config)))
    = false /\
  traceOf (removeAll host workDir (Some (bundle host)) (remove config)) =
    map (fun relpath => Rm (Path.joinAny (appDir workDir) relpath)) (remove config) /\
  succeeded (outcomeOf (sign host workDir)) = false /\
  Forall (fun e => isSpawn e = false /\ isWrite e = false)
         (traceOf (sign host workDir)).
Proof.
  intros Hconfig Hin Hmiss.
  assert (Hchecks : forallb Fs.resolves
            (map (fun relpath => lstat host (removalPath workDir relpath))
                 (remove config)) = false).
  { destruct (forallb _ _) eqn:E; [|reflexivity].
    rewrite forallb_forall in E.
    assert (Hresolves : Fs.resolves (lstat host (removalPath workDir missing)) = true).
    { apply E. apply in_map_iff. now exists missing. }
    unfold removalPath in Hresolves. rewrite Hmiss in Hresolves. discriminate. }
  assert (Hfail : succeeded (outcomeOf
            (removeAll host workDir (Some (bundle host)) (remove config))) = false).
  { rewrite removeAll_eq. cbn [outcomeOf snd]. now rewrite Hchecks. }
  split; [exact Hfail|].
  split; [now rewrite removeAll_eq|].
  assert (Hevents : Forall (fun e => isSpawn e = false /\ isWrite e = false)
            (traceOf (removeAll host workDir (Some (bundle host)) (remove config)))).
  { apply removeAll_events. intros. split; reflexivity. }
  unfold sign, signBundle. rewrite Hconfig.
  destruct (removeAll host workDir (Some (bundle host)) (remove config))
    as [t [state|msg]] eqn:Er; [discriminate|].
  cbn [traceOf fst] in Hevents.
  destruct (String.length (certFingerprint host) <? 1)%nat;
    destruct (builderConfig host);
    cbn [bind throw ret lift emit fst snd app traceOf outcomeOf succeeded];
    rewrite ?Er; cbn [bind fst snd app succeeded];
    (split; [reflexivity|]); repeat constructor; assumption.
Qed.

(** ** The presence check *)

Lemma visit_located (exitStatus : string -> list string -> Z)
    (dir : string) (root : node) (p : string) (n : node) :
  located dir root p n ->
  forall q, In q (visit exitStatus p n) -> In q (visit exitStatus dir root).
Proof.
  induction 1 as [dir root | dir entries name child p n Hin _ IH]; intros q Hq;
    [assumption|].
  rewrite visit_directory. apply in_or_app. left.
  apply in_flat_map. exists (name, child). split; [assumption|].
  now apply IH.
Qed.


(** ** Entitlement overrides *)

(** X22. For a relative path that some override lists, the entitlement set
    is that of the first override that lists it, whatever the later ones
    say, and the identity is the base64url SHA-256 hash of the path: a
    function of the path alone, the same under every configuration that
    overrides it, never [default]; so the entitlement file of an overridden
    artifact is never the default entitlement file. *)
Theorem override_resolves_to_first_listing
    (workDir : string) (config : SigningConfig) (relPath : string) (e : Override.t) :
  firstMatch (fun o => JsString.includes (Override.paths o) relPath)
             (entitlementsOverrides config) e ->
  entitlementsOf config relPath = Override.entitlements e /\
  entitlementName config relPath =
    Base64url.encode (Sha256.digest (Sha256.bytesOfString relPath)) /\
  entitlementName config relPath <> "default" /\
  entitlementFile workDir (entitlementName config relPath) <>
    entitlementFile workDir "default" /\
  (forall config' e',
     firstMatch (fun o => JsString.includes (Override.paths o) relPath)
                (entitlementsOverrides config') e' ->
     entitlementName config' relPath = entitlementName config relPath).
Proof.
  intros H. pose proof (find_firstMatch _ _ _ H) as E.
  unfold entitlementsOf, entitlementName, entitlementsOverride. rewrite E.
  split; [reflexivity|]. split; [reflexivity|].
  split; [apply HashFacts.fileHash_not_default|].
  split; [apply entitlementFile_hash_not_default|].
  intros config' e' H'. now rewrite (find_firstMatch _ _ _ H').
Qed.

(** ** The evaluator on a sequence of strings *)

(** C3. The evaluator does not treat the elements of a sequence as it
    treats the values of a mapping: it hands each element to
    [evaluateConstraints], that is to [_.mapValues].  A string in a
    sequence comes back as an object of its characters, with the
    placeholder left in pieces, where the specification's transform puts the
    team identifier; [null] comes back as an empty object. *)
Theorem evaluateConstraints_breaks_strings_in_sequences :
  evaluateConstraints (Some "TEAM123") Sample.teamList =
    VObject
      [("team-identifier",
        VObject
          [("$in",
            VArray
              [VObject
                 [("0", VString "$"); ("1", VString "{"); ("2", VString "A");
                  ("3", VString "C"); ("4", VString "_"); ("5", VString "T");
                  ("6", VString "E"); ("7", VString "A"); ("8", VString "M");
                  ("9", VString "I"); ("10", VString "D"); ("11", VString "}")]])])] /\
  substituteEverywhere (Some "TEAM123") Sample.teamList =
    VObject [("team-identifier", VObject [("$in", VArray [VString "TEAM123"])])] /\
  evaluateConstraints (Some "TEAM123") (VObject [("flag", VNull)]) =
    VObject [("flag", VObject [])] /\
  evaluateConstraints (Some "TEAM123")
    (VObject [("team-identifier", VString "${AC_TEAMID}"); ("is-init-proc", VBoolean true)]) =
    VObject [("team-identifier", VString "TEAM123"); ("is-init-proc", VBoolean true)] /\
  evaluateConstraints None (VObject [("team-identifier", VString "${AC_TEAMID}")]) =
    VObject [("team-identifier", VString "${AC_TEAMID}")] /\
  evaluateConstraints (Some EmptyString) (VObject [("team-identifier", VString "${AC_TEAMID}")]) =
    VObject [("team-identifier", VString "${AC_TEAMID}")].
Proof. repeat split. Qed.

(** ** The claims on the sample bundle *)

Ltac in_list := vm_compute; repeat first [left; reflexivity | right].

Lemma sample_wellFormed : wellFormed (Directory Sample.entries).
Proof.
  cbn. repeat split; try (repeat constructor; cbn; intuition discriminate).
Defined.

Lemma findFilesToSign_children_first_witness :
  wellFormed (Directory Sample.entries) /\
  findFilesToSign Sample.unsigned Sample.app Sample.entries =
    ["/w/unpacked/Rancher Desktop.app/Contents/MacOS/helper"; Sample.libraryPath]
    ++ "/w/unpacked/Rancher Desktop.app/Contents/Frameworks/A.framework"
    :: [Sample.app] /\
  Path.under "/w/unpacked/Rancher Desktop.app/Contents/Frameworks/A.framework"
             Sample.libraryPath /\
  ~ In Sample.libraryPath [Sample.app] /\
  (In Sample.libraryPath
      (findFilesToSign Sample.unsigned Sample.app Sample.entries) ->
   In Sample.libraryPath
      ["/w/unpacked/Rancher Desktop.app/Contents/MacOS/helper"; Sample.libraryPath]).
Proof.
  assert (Hyield : findFilesToSign Sample.unsigned Sample.app Sample.entries =
    ["/w/unpacked/Rancher Desktop.app/Contents/MacOS/helper"; Sample.libraryPath]
    ++ "/w/unpacked/Rancher Desktop.app/Contents/Frameworks/A.framework"
    :: [Sample.app]) by (vm_compute; reflexivity).
  assert (Hunder : Path.under
            "/w/unpacked/Rancher Desktop.app/Contents/Frameworks/A.framework"
            Sample.libraryPath) by (exists "Versions/A/libx.dylib"; reflexivity).
  split; [exact sample_wellFormed|]. split; [exact Hyield|].
  split; [exact Hunder|].
  exact (findFilesToSign_children_first Sample.unsigned Sample.app
           Sample.entries _ _ _ _ sample_wellFormed Hyield Hunder).
Defined.

Lemma binary_detector_accepts_mach_o_64_witness :
  hasValidHeader (Some [xcf; xfa; xed; xfe; x07; x00; x00; x01]) = true /\
  findFilesToSign Sample.unsigned Sample.app
    ([] ++ ("locked", RegularFile None) :: Sample.entries) =
  findFilesToSign Sample.unsigned Sample.app ([] ++ Sample.entries).
Proof.
  destruct binary_detector_accepts_mach_o_64
    as (_ & _ & Hfour & _ & _ & _ & Hskip).
  split.
  - apply Hfour. right. repeat split.
  - apply Hskip.
Defined.

(** A run in which no artifact uses the default entitlements succeeds
    without writing the default entitlement file. *)
Lemma default_entitlements_may_never_be_written :
  outcomeOf (sign Sample.libraryHost Sample.workDir) =
    Ok "/w/dist/Rancher.Desktop-1.0.x86_64.dmg" /\
  In (Spawn "codesign"
        (signArgs Sample.libraryHost Sample.workDir Sample.libraryConfig
           Sample.libraryPath))
     (traceOf (sign Sample.libraryHost Sample.workDir)) /\
  countIf (isWriteTo (defaultEntitlementFile Sample.workDir))
          (traceOf (sign Sample.libraryHost Sample.workDir)) <> 1.
Proof.
  split; [vm_compute; reflexivity|]. split; [in_list|].
  vm_compute. discriminate.
Qed.

Lemma default_entitlements_written_at_most_once_witness :
  signingConfigFile Sample.host = Ok Sample.config /\
  notOverridden Sample.config
    (Path.relative (appDir Sample.workDir)
       "/w/unpacked/Rancher Desktop.app/Contents/MacOS/helper") /\
  In (Spawn "codesign"
        (signArgs Sample.host Sample.workDir Sample.config
           "/w/unpacked/Rancher Desktop.app/Contents/MacOS/helper"))
     (traceOf (sign Sample.host Sample.workDir)) /\
  countIf (isWriteTo (defaultEntitlementFile Sample.workDir))
          (traceOf (sign Sample.host Sample.workDir)) = 1.
Proof.
  assert (Hnot : notOverridden Sample.config
            (Path.relative (appDir Sample.workDir)
               "/w/unpacked/Rancher Desktop.app/Contents/MacOS/helper")).
  { intros e [<-|[]]. reflexivity. }
  assert (Hin : In (Spawn "codesign"
                      (signArgs Sample.host Sample.workDir Sample.config
                         "/w/unpacked/Rancher Desktop.app/Contents/MacOS/helper"))
                   (traceOf (sign Sample.host Sample.workDir))) by in_list.
  split; [reflexivity|]. split; [exact Hnot|]. split; [exact Hin|].
  pose proof (default_entitlements_written_at_most_once Sample.host Sample.workDir)
    as H.
  cbv zeta in H. destruct H as (_ & _ & H).
  exact (H Sample.config _ eq_refl Hnot Hin).
Defined.

Lemma notarization_skipped_without_credentials_witness :
  isSet (APPLEID (env Sample.host)) && isSet (AC_PASSWORD (env Sample.host)) &&
    isSet (AC_TEAMID (env Sample.host)) = false /\
  Forall (fun e => isNotarize e = false)
         (traceOf (sign Sample.host Sample.workDir)) /\
  notarizeApp Sample.host Sample.workDir
    {| appId := Some "io.rancherdesktop.app"; productName := Some "Rancher Desktop" |} =
    ([ConsoleWarn "Skipping notarization: --skip-notarize given."], Ok tt).
Proof.
  destruct (notarization_skipped_without_credentials Sample.host Sample.workDir
              eq_refl) as (Hnone & Hflag & _).
  split; [reflexivity|]. split; [exact Hnone|].
  exact (proj1 (Hflag eq_refl _)).
Defined.


Lemma override_resolves_to_first_listing_witness :
  entitlementsOf Sample.config "Contents/Frameworks/A.framework/A" =
    ["com.apple.security.foo"] /\
  entitlementName Sample.config "Contents/Frameworks/A.framework/A" <> "default".
Proof.
  assert (H : firstMatch
                (fun o => JsString.includes (Override.paths o)
                            "Contents/Frameworks/A.framework/A")
                (entitlementsOverrides Sample.config)
                {| Override.paths := ["Contents/Frameworks/A.framework/A"];
                   Override.entitlements := ["com.apple.security.foo"] |}).
  { exists [], []. split; [reflexivity|]. split; [intros r []|reflexivity]. }
  destruct (override_resolves_to_first_listing Sample.workDir _ _ _ H)
    as (Hset & _ & Hname & _).
  split; [exact Hset | exact Hname].
Defined.

Lemma constraint_files_and_flags_witness :
  countIf (isWriteTo
             (constraintsFile Sample.workDir "Contents/MacOS/helper" Self))
          (traceOf (signFile Sample.host Sample.workDir Sample.config false
                      "/w/unpacked/Rancher Desktop.app/Contents/MacOS/helper")) = 1 /\
  occurrences (constraintFlag Parent)
    (constraintArgs Sample.workDir Sample.config "Contents/MacOS/helper"
       constraintTypes) = 0.
Proof.
  pose proof (constraint_files_and_flags Sample.host Sample.workDir Sample.config
                false "/w/unpacked/Rancher Desktop.app/Contents/MacOS/helper")
    as H.
  assert (Hfirst : firstMatch
            (fun c => JsString.includes (LaunchConstraints.paths c)
                        "Contents/MacOS/helper")
            (constraints Sample.config)
            {| LaunchConstraints.paths := ["Contents/MacOS/helper"];
               LaunchConstraints.self :=
                 Some [("team-identifier", VString "${AC_TEAMID}")];
               LaunchConstraints.parent := None;
               LaunchConstraints.responsible := None |}).
  { exists [], []. split; [reflexivity|]. split; [intros r []|reflexivity]. }
  split.
  - pose proof (H Self) as HS. cbv zeta in HS. destruct HS as (_ & _ & HS).
    exact (proj1 (HS _ _ Hfirst eq_refl)).
  - pose proof (H Parent) as HP. cbv zeta in HP. destruct HP as (_ & HP & _).
    refine (proj1 (proj2 (HP _))). right. eexists. split; [exact Hfirst|reflexivity].
Defined.

Lemma missing_remove_path_aborts_witness :
  In "Contents/Resources/gone.txt" (remove Sample.staleConfig) /\
  lstat Sample.staleHost
    (Path.joinAny (appDir Sample.workDir) "Contents/Resources/gone.txt") =
    Fs.NoEntry /\
  succeeded (outcomeOf (sign Sample.staleHost Sample.workDir)) = false /\
  Forall (fun e => isSpawn e = false /\ isWrite e = false)
         (traceOf (sign Sample.staleHost Sample.workDir)).
Proof.
  assert (Hin : In "Contents/Resources/gone.txt" (remove Sample.staleConfig))
    by (right; left; reflexivity).
  assert (Hmiss : lstat Sample.staleHost
                    (Path.joinAny (appDir Sample.workDir)
                       "Contents/Resources/gone.txt") = Fs.NoEntry)
    by (vm_compute; reflexivity).
  split; [exact Hin|]. split; [exact Hmiss|].
  exact (proj2 (proj2 (missing_remove_path_aborts Sample.staleHost Sample.workDir
                         Sample.staleConfig "Contents/Resources/gone.txt"
                         eq_refl Hin Hmiss))).
Defined.

(** * Part III: further properties of the code *)

(** ** The classifier and the detector *)

(** X1. [isBundleExecutable] returns true exactly when the text of the path
    ends with [<Name>.app/Contents/MacOS/<Name>] for some [<Name>] without
    a separator, or the file's grandparent is [Versions] and its
    great-grandparent is the file's name followed by [.framework]. *)
Theorem isBundleExecutable_exactly (fullPath : string) :
  isBundleExecutable fullPath = true <->
  (exists text name,
     JsString.mem Path.sep name = false /\
     fullPath = (text ++ name ++ ".app/Contents/MacOS/" ++ name)%string) \/
  (exists name parent rest,
     rev (JsString.split Path.sep fullPath) =
       name :: parent :: "Versions" :: (name ++ ".framework")%string :: rest).
Proof.
  rewrite isBundleExecutable_iff. apply or_iff_compat_l.
  unfold isFrameworkExecutable. split.
  - destruct (rev (JsString.split Path.sep fullPath))
      as [|name [|parent [|versions [|framework rest]]]]; try discriminate.
    intros H. apply andb_true_iff in H as [Hv Hf].
    apply String.eqb_eq in Hv, Hf. subst. now exists name, parent, rest.
  - intros (name & parent & rest & ->). now rewrite !String.eqb_refl.
Qed.

(** X2. A file named after its bundle is always skipped: the file [<Name>]
    in [<Name>.app/Contents/MacOS], whatever lies above the bundle, and the
    file [<Name>] two levels below [<Name>.framework/Versions]. *)
Theorem bundle_executables_are_skipped (above : list string) (name version : string) :
  JsString.mem Path.sep name = false ->
  JsString.mem Path.sep version = false ->
  Forall (fun c => JsString.mem Path.sep c = false) above ->
  isBundleExecutable
    (String.concat Path.sepS
       (above ++ [(name ++ ".app")%string; "Contents"; "MacOS"; name])) = true /\
  isBundleExecutable
    (String.concat Path.sepS
       (above ++ [(name ++ ".framework")%string; "Versions"; version; name])) = true.
Proof.
  intros Hname Hversion Habove.
  assert (Hsplit : forall l, l <> [] ->
            Forall (fun c => JsString.mem Path.sep c = false) l ->
            JsString.split Path.sep (String.concat Path.sepS l) = l).
  { induction l as [|a l IH]; intros Hne Hall; [contradiction|].
    apply Forall_cons_iff in Hall as [Ha Hl].
    destruct l as [|b l].
    - now apply split_name.
    - change (String.concat Path.sepS (a :: b :: l))
        with (a ++ Path.sepS ++ String.concat Path.sepS (b :: l))%string.
      rewrite split_append, (split_name a Ha), IH; [reflexivity | discriminate | assumption]. }
  assert (Happ : JsString.mem Path.sep (name ++ ".app") = false)
    by (rewrite mem_append, Hname; reflexivity).
  assert (Hfw : JsString.mem Path.sep (name ++ ".framework") = false)
    by (rewrite mem_append, Hname; reflexivity).
  split; apply isBundleExecutable_complete; unfold bundleExecutableByComponents.
  - apply orb_true_iff. left. unfold isAppExecutable.
    rewrite Hsplit.
    + rewrite rev_app_distr. cbn [rev app]. now rewrite !String.eqb_refl.
    + destruct above; discriminate.
    + apply Forall_app. split; [assumption|]. repeat constructor; assumption.
  - apply orb_true_iff. right. unfold isFrameworkExecutable.
    rewrite Hsplit.
    + rewrite rev_app_distr. cbn [rev app]. now rewrite !String.eqb_refl.
    + destruct above; discriminate.
    + apply Forall_app. split; [assumption|]. repeat constructor; assumption.
Qed.

Lemma bundle_executables_are_skipped_witness :
  isBundleExecutable
    "/w/unpacked/Rancher Desktop.app/Contents/MacOS/Rancher Desktop" = true /\
  isBundleExecutable "/w/A.framework/Versions/A/A" = true.
Proof.
  split.
  - apply (proj1 (bundle_executables_are_skipped
                    [EmptyString; "w"; "unpacked"] "Rancher Desktop" "A"
                    eq_refl eq_refl
                    ltac:(repeat constructor))).
  - apply (proj2 (bundle_executables_are_skipped [EmptyString; "w"] "A" "A"
                    eq_refl eq_refl ltac:(repeat constructor))).
Defined.

(** X3. Only the first four bytes of a file decide the header test, and a
    file shorter than four bytes never passes it: the buffer is zero-filled
    and neither magic value ends in a zero byte. *)
Theorem header_test_reads_four_bytes (bytes : list byte) :
  hasValidHeader (Some bytes) = hasValidHeader (Some (firstn 4 bytes)) /\
  (List.length bytes < 4 -> hasValidHeader (Some bytes) = false).
Proof.
  split; [|apply hasValidHeader_short].
  unfold hasValidHeader, readHeader, read4. do 2 f_equal.
  destruct bytes as [|b0 [|b1 [|b2 [|b3 rest]]]]; reflexivity.
Qed.

Lemma header_test_reads_four_bytes_witness :
  List.length [xfe; xed; xfa] < 4 /\
  hasValidHeader (Some [xfe; xed; xfa]) = false.
Proof.
  assert (H : List.length [xfe; xed; xfa] < 4) by (simpl; lia).
  split; [exact H|].
  exact (proj2 (header_test_reads_four_bytes [xfe; xed; xfa]) H).
Defined.

(** ** The evaluator *)

Section EvaluatorMore.

Variable teamId : option string.

Lemma substitute_idempotent (s : string) :
  substitute teamId (substitute teamId s) = substitute teamId s.
Proof.
  unfold substitute, envOr.
  destruct (String.eqb_spec s "${AC_TEAMID}") as [->|Hs].
  - destruct teamId as [t|]; [|now rewrite String.eqb_refl].
    destruct (String.eqb t EmptyString) eqn:Et; [now rewrite String.eqb_refl|].
    now destruct (String.eqb t "${AC_TEAMID}").
  - apply String.eqb_neq in Hs. now rewrite Hs.
Qed.

Lemma map_combine_snd {A B C : Type} (f : B -> C) (keys : list A) (l : list B) :
  map (fun kv => (fst kv, f (snd kv))) (combine keys l) = combine keys (map f l).
Proof.
  revert l. induction keys as [|k keys IH]; intros [|x l]; simpl;
    try reflexivity. now rewrite IH.
Qed.

Lemma Forall_combine_snd {A B : Type} (P : B -> Prop) (keys : list A) (l : list B) :
  Forall P l -> Forall (fun kv => P (snd kv)) (combine keys l).
Proof.
  intros H. revert keys. induction H as [|x l Hx _ IH]; intros [|k keys];
    simpl; constructor; auto.
Qed.

(** The result of either function needs no second pass. *)
Lemma evaluate_twice (v : value) :
  evaluateConstraints teamId (evaluateConstraints teamId v) =
    evaluateConstraints teamId v /\
  evaluateValue teamId (evaluateValue teamId v) = evaluateValue teamId v.
Proof.
  induction v as [s|n|b| |items IH|fields IH] using value_induction;
    try (split; reflexivity).
  - split.
    + rewrite (evaluateConstraints_mapValues teamId (VString s)).
      unfold Lodash.mapValues, Lodash.ownEntries.
      rewrite map_combine_snd, map_map.
      rewrite evaluateConstraints_mapValues.
      unfold Lodash.mapValues, Lodash.ownEntries. f_equal.
      rewrite map_combine_snd, map_map. f_equal.
      apply map_ext. intros c. cbn [evaluateValue].
      now rewrite substitute_idempotent.
    + cbn [evaluateValue]. now rewrite substitute_idempotent.
  - split.
    + rewrite (evaluateConstraints_mapValues teamId (VArray items)).
      unfold Lodash.mapValues, Lodash.ownEntries.
      rewrite map_combine_snd. rewrite evaluateConstraints_mapValues.
      unfold Lodash.mapValues, Lodash.ownEntries. f_equal.
      rewrite map_combine_snd, map_map. f_equal.
      apply map_ext_in. intros x Hx. rewrite Forall_forall in IH.
      exact (proj2 (IH x Hx)).
    + cbn [evaluateValue]. f_equal. rewrite map_map.
      apply map_ext_in. intros x Hx. rewrite Forall_forall in IH.
      exact (proj1 (IH x Hx)).
  - assert (H : evaluateConstraints teamId (evaluateConstraints teamId (VObject fields)) =
                evaluateConstraints teamId (VObject fields)).
    { rewrite !evaluateConstraints_mapValues.
      unfold Lodash.mapValues, Lodash.ownEntries. f_equal. rewrite map_map.
      apply map_ext_in. intros kv Hkv. cbn [fst snd]. f_equal.
      rewrite Forall_forall in IH. exact (proj2 (IH kv Hkv)). }
    split; [exact H|]. exact H.
Qed.

Lemma evaluate_regular (v : value) :
  regular (evaluateConstraints teamId v) /\ regular (evaluateValue teamId v).
Proof.
  induction v as [s|n|b| |items IH|fields IH] using value_induction;
    try (split; exact I).
  - split; [|exact I].
    rewrite (evaluateConstraints_mapValues teamId (VString s)).
    unfold Lodash.mapValues, Lodash.ownEntries. rewrite map_combine_snd.
    apply regular_object. apply Forall_combine_snd.
    apply Forall_forall. intros x Hx. apply in_map_iff in Hx as (y & <- & Hy).
    apply in_map_iff in Hy as (c & <- & _). exact I.
  - assert (Hv : Forall regular (map (evaluateValue teamId) items)).
    { apply Forall_forall. intros x Hx. apply in_map_iff in Hx as (y & <- & Hy).
      rewrite Forall_forall in IH. exact (proj2 (IH y Hy)). }
    split.
    + rewrite (evaluateConstraints_mapValues teamId (VArray items)).
      unfold Lodash.mapValues, Lodash.ownEntries. rewrite map_combine_snd.
      apply regular_object. now apply Forall_combine_snd.
    + cbn [evaluateValue]. apply regular_array.
      apply Forall_forall. intros x Hx. apply in_map_iff in Hx as (y & <- & Hy).
      split.
      * rewrite evaluateConstraints_mapValues. unfold Lodash.mapValues. now eexists.
      * rewrite Forall_forall in IH. exact (proj1 (IH y Hy)).
  - assert (H : regular (evaluateConstraints teamId (VObject fields))).
    { rewrite evaluateConstraints_mapValues.
      unfold Lodash.mapValues, Lodash.ownEntries. apply regular_object.
      apply Forall_forall. intros x Hx. apply in_map_iff in Hx as (kv & <- & Hkv).
      cbn [snd]. rewrite Forall_forall in IH. exact (proj2 (IH kv Hkv)). }
    split; exact H.
Qed.

(** X4. Whatever it is given, [evaluateConstraints] returns a mapping that
    holds no [null] and whose sequences hold mappings only, and a second
    evaluation changes nothing.  On a mapping it keeps the keys and their
    order. *)
Theorem evaluateConstraints_normalises (constraint : value) :
  (exists fields, evaluateConstraints teamId constraint = VObject fields) /\
  regular (evaluateConstraints teamId constraint) /\
  evaluateConstraints teamId (evaluateConstraints teamId constraint) =
    evaluateConstraints teamId constraint /\
  (forall fields, constraint = VObject fields ->
     exists fields', evaluateConstraints teamId constraint = VObject fields' /\
                     map fst fields' = map fst fields).
Proof.
  split; [|split; [|split]].
  - rewrite evaluateConstraints_mapValues. unfold Lodash.mapValues. now eexists.
  - exact (proj1 (evaluate_regular constraint)).
  - exact (proj1 (evaluate_twice constraint)).
  - intros fields ->. eexists. split; [reflexivity|].
    rewrite map_map. reflexivity.
Qed.

(** X5. On a declaration without [null] whose sequences hold mappings only,
    [evaluateConstraints] substitutes and does nothing else: every string
    equal to the placeholder is replaced by the team identifier when that
    is set and not empty, at any depth, and all else is kept. *)
Theorem evaluateConstraints_on_regular_declarations (fields : list (string * value)) :
  regular (VObject fields) ->
  evaluateConstraints teamId (VObject fields) =
  substituteEverywhere teamId (VObject fields).
Proof. apply evaluateConstraints_regular. Qed.

End EvaluatorMore.

Lemma evaluateConstraints_on_regular_declarations_witness :
  regular (VObject [("team-identifier", VString "${AC_TEAMID}");
                    ("$or", VArray [VObject [("is-init-proc", VBoolean true)]])]) /\
  evaluateConstraints (Some "TEAM123")
    (VObject [("team-identifier", VString "${AC_TEAMID}");
              ("$or", VArray [VObject [("is-init-proc", VBoolean true)]])]) =
  VObject [("team-identifier", VString "TEAM123");
           ("$or", VArray [VObject [("is-init-proc", VBoolean true)]])].
Proof.
  assert (H : regular
                (VObject [("team-identifier", VString "${AC_TEAMID}");
                          ("$or", VArray [VObject [("is-init-proc", VBoolean true)]])])).
  { cbn. repeat split. now eexists. }
  split; [exact H|].
  exact (evaluateConstraints_on_regular_declarations (Some "TEAM123") _ H).
Defined.

Lemma evaluateConstraints_normalises_witness :
  evaluateConstraints (Some "TEAM123")
    (evaluateConstraints (Some "TEAM123") (VArray [VString "${AC_TEAMID}"])) =
  evaluateConstraints (Some "TEAM123") (VArray [VString "${AC_TEAMID}"]).
Proof.
  exact (proj1 (proj2 (proj2 (evaluateConstraints_normalises (Some "TEAM123")
                                (VArray [VString "${AC_TEAMID}"]))))).
Defined.

(** ** The path hash *)

Lemma digit_urlSafe (i : Z) : isUrlSafe (Base64url.digit i) = true.
Proof.
  unfold isUrlSafe, Base64url.digit. apply existsb_exists.
  exists (nth (Z.to_nat i) Base64url.alphabet "A"%char).
  split; [|apply Ascii.eqb_refl].
  destruct (Nat.lt_ge_cases (Z.to_nat i) (List.length Base64url.alphabet)) as [H|H].
  - now apply nth_In.
  - rewrite nth_overflow by assumption. now left.
Qed.

Lemma encode_urlSafe (bytes : list Z) :
  stringForall isUrlSafe (Base64url.encode bytes) = true.
Proof.
  induction bytes as [|a|a b|a b c rest IH] using HashFacts.triples_ind;
    cbn [Base64url.encode stringForall]; rewrite ?digit_urlSafe, ?IH;
    reflexivity.
Qed.

Lemma stringForall_mem (test : ascii -> bool) (c : ascii) (s : string) :
  stringForall test s = true -> test c = false -> JsString.mem c s = false.
Proof.
  induction s as [|d s IH]; intros Hall Hc; [reflexivity|].
  cbn [stringForall] in Hall. apply andb_true_iff in Hall as [Hd Hs].
  cbn [JsString.mem]. rewrite (IH Hs Hc), orb_false_r.
  apply Ascii.eqb_neq. intros ->. congruence.
Qed.

(** X6. The identity derived from a relative path is always 43 characters
    of the base64url alphabet, whatever the path: it holds no path
    separator and no padding, so it is safe as a file name. *)
Theorem fileHash_is_a_file_name (relPath : string) :
  String.length (fileHash relPath) = 43 /\
  stringForall isUrlSafe (fileHash relPath) = true /\
  JsString.mem Path.sep (fileHash relPath) = false /\
  JsString.mem "="%char (fileHash relPath) = false.
Proof.
  split; [apply HashFacts.fileHash_length|].
  assert (H : stringForall isUrlSafe (fileHash relPath) = true)
    by apply encode_urlSafe.
  split; [exact H|].
  split; apply (stringForall_mem isUrlSafe); (exact H || reflexivity).
Qed.

(** ** The walker: what is yielded, and how often *)

Section WalkerMore.

Variable exitStatus : string -> list string -> Z.

Lemma yieldUnlessSigned_iff (target q : string) :
  In q (yieldUnlessSigned exitStatus target) <->
  q = target /\ negb (exitStatus "codesign" (verifyArgs target) =? 0)%Z = true.
Proof.
  rewrite yieldUnlessSigned_In, negb_true_iff, Z.eqb_neq. reflexivity.
Qed.

Lemma located_trans (dir : string) (root : node) (p : string) (n : node)
    (q : string) (m : node) :
  located dir root p n -> located p n q m -> located dir root q m.
Proof.
  induction 1 as [dir root | dir entries name child p n Hin _ IH]; intros H;
    [assumption|].
  eapply located_below; [exact Hin|]. now apply IH.
Qed.

Lemma visit_sound (n : node) :
  forall p q, In q (visit exitStatus p n) ->
              exists m, located p n q m /\ yieldsItself exitStatus q m = true.
Proof.
  induction n as [data| | |entries IH] using node_induction; intros p q Hq;
    try contradiction.
  - cbn [visit] in Hq.
    destruct (isBundleExecutable p) eqn:Hexe; [contradiction|].
    destruct (hasValidHeader data) eqn:Hhdr; [|contradiction].
    apply yieldUnlessSigned_iff in Hq as [-> Hst].
    exists (RegularFile data). split; [constructor|].
    cbn [yieldsItself]. now rewrite Hexe, Hhdr, Hst.
  - rewrite visit_directory in Hq. apply in_app_or in Hq as [Hq|Hq].
    + apply in_flat_map in Hq as [[name child] [He Hq]].
      rewrite Forall_forall in IH.
      destruct (IH _ He _ _ Hq) as (m & Hloc & Hm).
      exists m. split; [|exact Hm].
      eapply located_below; [exact He | exact Hloc].
    + destruct (_ || _) eqn:Hsuffix; [|contradiction].
      apply yieldUnlessSigned_iff in Hq as [-> Hst].
      exists (Directory entries). split; [constructor|].
      cbn [yieldsItself]. now rewrite Hsuffix, Hst.
Qed.

Lemma visit_complete (p : string) (n : node) :
  yieldsItself exitStatus p n = true -> In p (visit exitStatus p n).
Proof.
  destruct n as [data| |entries|]; cbn [yieldsItself]; try discriminate; intros H.
  - apply andb_true_iff in H as [H Hst]. apply andb_true_iff in H as [Hexe Hhdr].
    apply negb_true_iff in Hexe. cbn [visit]. rewrite Hexe, Hhdr.
    apply yieldUnlessSigned_iff. now split.
  - apply andb_true_iff in H as [Hsuffix Hst].
    rewrite visit_directory, Hsuffix. apply in_or_app. right.
    apply yieldUnlessSigned_iff. now split.
Qed.

(** X7. The walker yields exactly the entries of the tree, reached through
    directories only, that are regular files with a Mach-O header that are
    no bundle executables, or directories named [.app] or [.framework],
    and that fail the presence check.  Links and special files are never
    yielded, and nothing behind a link is. *)
Theorem findFilesToSign_yields_exactly
    (dir : string) (entries : list (string * node)) (q : string) :
  In q (findFilesToSign exitStatus dir entries) <->
  exists n, located dir (Directory entries) q n /\
            yieldsItself exitStatus q n = true.
Proof.
  split.
  - apply visit_sound.
  - intros (n & Hloc & Hn).
    exact (visit_located exitStatus _ _ _ _ Hloc q (visit_complete q n Hn)).
Qed.







Lemma dropCommon_prefix (l r : list string) :
  Path.dropCommon l (l ++ r) = ([], r).
Proof.
  induction l as [|x l IH]; cbn [Path.dropCommon app].
  - now destruct r.
  - now rewrite String.eqb_refl.
Qed.

Lemma relative_resolve (dir rel : string) :
  Path.relative dir (Path.resolve dir rel) = rel.
Proof.
  unfold Path.relative, Path.resolve.
  rewrite split_append, dropCommon_prefix. cbn [map app]. apply concat_split.
Qed.

Lemma relative_self (dir : string) : Path.relative dir dir = EmptyString.
Proof.
  unfold Path.relative.
  rewrite <- (app_nil_r (JsString.split Path.sep dir)) at 2.
  now rewrite dropCommon_prefix.
Qed.

(** X9. The relative path under which the signing loop looks an artifact
    up in the configuration names it from the bundle: every yielded path
    other than the bundle directory is the bundle directory joined with its
    relative path, and the bundle directory itself has the empty relative
    path. *)
Theorem yielded_paths_have_bundle_relative_names
    (dir : string) (entries : list (string * node)) (p : string) :
  In p (findFilesToSign exitStatus dir entries) ->
  (p = dir /\ Path.relative dir p = EmptyString) \/
  (p = Path.resolve dir (Path.relative dir p) /\
   Path.under dir p).
Proof.
  intros Hin. apply visit_within in Hin. destruct Hin as [s [[->|[r ->]] ->]].
  - left. rewrite StringFacts.append_nil_r. split; [reflexivity|].
    apply relative_self.
  - right. change (dir ++ Path.sepS ++ r)%string with (Path.resolve dir r).
    rewrite relative_resolve. split; [reflexivity|]. now exists r.
Qed.

End WalkerMore.


Lemma yielded_paths_have_bundle_relative_names_witness :
  In Sample.libraryPath
     (findFilesToSign Sample.unsigned Sample.app Sample.entries) /\
  Sample.libraryPath =
    Path.resolve Sample.app (Path.relative Sample.app Sample.libraryPath).
Proof.
  assert (H : In Sample.libraryPath
                (findFilesToSign Sample.unsigned Sample.app Sample.entries))
    by (vm_compute; right; left; reflexivity).
  split; [exact H|].
  destruct (yielded_paths_have_bundle_relative_names Sample.unsigned Sample.app
              Sample.entries Sample.libraryPath H) as [[E _] | [E _]].
  - discriminate E.
  - exact E.
Defined.

(** ** The run: failures *)

(** X10. Without a certificate fingerprint, unset or empty, the run fails
    at once: nothing is removed, written or spawned. *)
Theorem sign_requires_certificate (host : Host) (workDir : string) :
  isSet (CSC_FINGERPRINT (env host)) = false ->
  sign host workDir =
    ([], Err "CSC_FINGERPRINT environment variable not set; required to pick signing certificate.").
Proof.
  intros H. unfold sign, signBundle, certFingerprint.
  destruct (CSC_FINGERPRINT (env host)) as [s|]; [|reflexivity].
  cbn [isSet] in H. apply negb_false_iff, String.eqb_eq in H. now subst s.
Qed.

Lemma sign_requires_certificate_witness :
  isSet (CSC_FINGERPRINT (env MoreSamples.noCertificateHost)) = false /\
  traceOf (sign MoreSamples.noCertificateHost Sample.workDir) = [] /\
  succeeded (outcomeOf (sign MoreSamples.noCertificateHost Sample.workDir)) = false.
Proof.
  split; [reflexivity|].
  rewrite (sign_requires_certificate MoreSamples.noCertificateHost
             Sample.workDir eq_refl).
  split; reflexivity.
Defined.

Lemma split_at_event {A : Type} (t1 t2 pre post : list A) (e : A) :
  t1 ++ t2 = pre ++ e :: post ->
  (exists post1, t1 = pre ++ e :: post1 /\ post = post1 ++ t2) \/
  (exists pre2, t2 = pre2 ++ e :: post /\ pre = t1 ++ pre2).
Proof.
  revert pre. induction t1 as [|x t1 IH]; intros pre E.
  - right. now exists pre.
  - destruct pre as [|y pre]; cbn [app] in E.
    + injection E as -> <-. left. now exists t1.
    + injection E as -> E. destruct (IH pre E) as [(post1 & -> & ->) | (pre2 & -> & ->)].
      * left. now exists post1.
      * right. now exists pre2.
Qed.

Section StopFacts.

Variable exitStatus : string -> list string -> Z.

Lemma stops_without_failures {A : Type} (m : M A) :
  Forall (fun e => fatalSpawn exitStatus e = false) (traceOf m) ->
  stopsAtFailure exitStatus m.
Proof.
  intros H pre e post E He. rewrite E in H.
  apply Forall_app in H as [_ H]. apply Forall_cons_iff in H as [H _].
  congruence.
Qed.

Lemma stops_bind {A B : Type} (m : M A) (k : A -> M B) :
  stopsAtFailure exitStatus m ->
  (forall a, stopsAtFailure exitStatus (k a)) ->
  stopsAtFailure exitStatus (bind m k).
Proof.
  intros Hm Hk pre e post E He. rewrite bind_trace in E. rewrite bind_outcome.
  destruct (outcomeOf m) as [a|msg] eqn:Eo.
  - apply split_at_event in E as [(post1 & E1 & ->) | (pre2 & E2 & ->)].
    + destruct (Hm _ _ _ E1 He) as [_ C]. rewrite Eo in C. discriminate.
    + exact (Hk a _ _ _ E2 He).
  - rewrite app_nil_r in E. destruct (Hm _ _ _ E He) as [-> _]. now split.
Qed.


Lemma stops_foldM {A B : Type} (f : A -> B -> M A) (l : list B) :
  (forall a x, stopsAtFailure exitStatus (f a x)) ->
  forall a, stopsAtFailure exitStatus (foldM f l a).
Proof.
  intros Hf. induction l as [|x l IH]; intros a.
  - apply stops_without_failures. constructor.
  - cbn [foldM]. apply stops_bind; [apply Hf | apply IH].
Qed.

End StopFacts.


Section RunFailures.

Variable host : Host.
Variable workDir : string.






End RunFailures.


(** ** The run: what success means *)

Lemma bind_outcome_ok {A B : Type} (m : M A) (k : A -> M B) (b : B) :
  outcomeOf (bind m k) = Ok b ->
  exists a, outcomeOf m = Ok a /\ outcomeOf (k a) = Ok b.
Proof.
  rewrite bind_outcome. destruct (outcomeOf m) as [a|msg]; [|discriminate].
  intros H. now exists a.
Qed.

Lemma bind_split {A B : Type} (m : M A) (k : A -> M B)
    (pre : list event) (ev : event) (post : list event) :
  traceOf (bind m k) = pre ++ ev :: post ->
  (exists post', traceOf m = pre ++ ev :: post') \/
  (exists a pre', outcomeOf m = Ok a /\ pre = traceOf m ++ pre' /\
                  traceOf (k a) = pre' ++ ev :: post).
Proof.
  rewrite bind_trace. intros E.
  apply app_eq_app in E as [l [[E1 E2] | [E1 E2]]].
  - destruct l as [|e l]; cbn [app] in E2.
    + right. destruct (outcomeOf m) as [a|msg]; [|discriminate].
      exists a, []. rewrite app_nil_r in E1. rewrite app_nil_r.
      now repeat split.
    + injection E2 as <- ->. left. now exists l.
  - right. destruct (outcomeOf m) as [a|msg]; [|now destruct l].
    now exists a, l.
Qed.

Section RunSuccess.

Variable host : Host.
Variable workDir : string.

Lemma spawn_ok (command : string) (args : list string) (u : unit) :
  outcomeOf (spawn host command args) = Ok u ->
  exitStatus host command args = 0%Z.
Proof.
  unfold spawn. rewrite bind_outcome. cbn. unfold spawnFile.
  destruct (Z.eqb_spec (exitStatus host command args) 0); [trivial | discriminate].
Qed.

Lemma buildDiskImage_ok (config : Configuration) (dmgFile : string) :
  outcomeOf (buildDiskImage host workDir config) = Ok dmgFile ->
  exists results arch name,
    buildResults host = Ok results /\
    find (fun v => JsString.endsWith v ".dmg") results = Some dmgFile /\
    traceOf (buildDiskImage host workDir config) =
      [ConsoleLog "Building disk image..."; Build arch name (appDir workDir);
       Spawn "codesign" ["--sign"; certFingerprint host; "--timestamp"; dmgFile]].
Proof.
  unfold buildDiskImage, spawn. cbv zeta.
  destruct (buildResults host) as [results|msg]; [|discriminate].
  cbn [emit lift bind ret throw traceOf outcomeOf fst snd app].
  destruct (find (fun v => JsString.endsWith v ".dmg") results) as [dmg|] eqn:Ef;
    [|discriminate].
  cbn [emit lift bind ret throw traceOf outcomeOf fst snd app].
  destruct (spawnFile (exitStatus host) "codesign" _) as [u|msg];
    cbn [bind ret fst snd app]; [|discriminate].
  intros [= <-]. now eexists results, _, _.
Qed.

(** X12. A run that succeeds returns the first result of the packager
    that ends in [.dmg], and the last thing it did was to sign that disk
    image with the certificate; a run whose packager reports no [.dmg]
    fails. *)
Theorem sign_returns_the_disk_image :
  (forall dmgFile,
     outcomeOf (sign host workDir) = Ok dmgFile ->
     exists results pre,
       buildResults host = Ok results /\
       find (fun v => JsString.endsWith v ".dmg") results = Some dmgFile /\
       In dmgFile results /\ JsString.endsWith dmgFile ".dmg" = true /\
       traceOf (sign host workDir) =
         pre ++ [Spawn "codesign"
                   ["--sign"; certFingerprint host; "--timestamp"; dmgFile]]) /\
  (forall results,
     buildResults host = Ok results ->
     (forall v, In v results -> JsString.endsWith v ".dmg" = false) ->
     succeeded (outcomeOf (sign host workDir)) = false).
Proof.
  assert (H1 : forall dmgFile,
     outcomeOf (sign host workDir) = Ok dmgFile ->
     exists results pre,
       buildResults host = Ok results /\
       find (fun v => JsString.endsWith v ".dmg") results = Some dmgFile /\
       In dmgFile results /\ JsString.endsWith dmgFile ".dmg" = true /\
       traceOf (sign host workDir) =
         pre ++ [Spawn "codesign"
                   ["--sign"; certFingerprint host; "--timestamp"; dmgFile]]).
  { intros dmgFile Hok. unfold sign in *.
    destruct (bind_outcome_ok _ _ _ Hok) as (config & Hbundle & Hrest).
    destruct (bind_outcome_ok _ _ _ Hrest) as (u & Hnotarize & Hbuild).
    destruct (buildDiskImage_ok _ _ Hbuild) as (results & arch & name & Hr & Hf & Ht).
    exists results. eexists. split; [exact Hr|]. split; [exact Hf|].
    destruct (find_some _ _ Hf) as [Hin Hends].
    split; [exact Hin|]. split; [exact Hends|].
    rewrite (bind_ok _ _ _ Hbundle). cbn [traceOf fst].
    rewrite (bind_ok _ _ _ Hnotarize). cbn [traceOf fst]. fold (traceOf (buildDiskImage host workDir config)).
    rewrite Ht.
    change [ConsoleLog "Building disk image..."; Build arch name (appDir workDir);
            Spawn "codesign" ["--sign"; certFingerprint host; "--timestamp"; dmgFile]]
      with ([ConsoleLog "Building disk image..."; Build arch name (appDir workDir)]
            ++ [Spawn "codesign" ["--sign"; certFingerprint host; "--timestamp"; dmgFile]]).
    rewrite !app_assoc. reflexivity. }
  split; [exact H1|].
  intros results Hr Hnone.
  destruct (outcomeOf (sign host workDir)) as [dmgFile|msg] eqn:Eo; [|reflexivity].
  destruct (H1 dmgFile eq_refl) as (results' & _ & Hr' & _ & Hin & Hends & _).
  rewrite Hr in Hr'. injection Hr' as <-.
  rewrite (Hnone _ Hin) in Hends. discriminate.
Qed.

Lemma notarizeApp_ok (config : Configuration) (u : unit) :
  outcomeOf (notarizeApp host workDir config) = Ok u ->
  JsString.includes (argv (env host)) "--skip-notarize" = true \/
  (notarizeSucceeds host = true /\
   isSet (APPLEID (env host)) && isSet (AC_PASSWORD (env host)) &&
     isSet (AC_TEAMID (env host)) = true /\
   In (Notarize (appId config) (appDir workDir)
         (envOr (APPLEID (env host)) EmptyString)
         (envOr (AC_PASSWORD (env host)) EmptyString)
         (envOr (AC_TEAMID (env host)) EmptyString))
      (traceOf (notarizeApp host workDir config))).
Proof.
  unfold notarizeApp.
  destruct (JsString.includes _ _); [now left|].
  destruct (_ && _); [|discriminate].
  destruct (notarizeSucceeds host); [|discriminate].
  intros _. right. split; [reflexivity|]. split; [reflexivity|].
  cbn. right. now left.
Qed.

Lemma signBundle_no_build :
  Forall (fun e => isBuild e = false) (traceOf (signBundle host workDir)).
Proof.
  unfold signBundle. trace_forall; try reflexivity.
  - apply removeAll_events. reflexivity.
  - apply signingLoop_forall; reflexivity.
Qed.

Lemma notarizeApp_no_build (config : Configuration) :
  Forall (fun e => isBuild e = false) (traceOf (notarizeApp host workDir config)).
Proof. unfold notarizeApp. trace_forall; reflexivity. Qed.

Lemma signBundle_ok (config : Configuration) :
  outcomeOf (signBundle host workDir) = Ok config ->
  exitStatus host "codesign"
    ["--verify"; "--deep"; "--strict"; "--verbose=2"; appDir workDir] = 0%Z /\
  exitStatus host "codesign"
    ["--display"; "--entitlements"; "-"; appDir workDir] = 0%Z /\
  In (Spawn "codesign"
        ["--verify"; "--deep"; "--strict"; "--verbose=2"; appDir workDir])
     (traceOf (signBundle host workDir)) /\
  In (Spawn "codesign" ["--display"; "--entitlements"; "-"; appDir workDir])
     (traceOf (signBundle host workDir)).
Proof.
  unfold signBundle. intros H.
  repeat (apply bind_outcome_ok in H; destruct H as (? & ? & H)).
  split; [|split; [|split]].
  - match goal with
    | Hs : outcomeOf (spawn _ _ ("--verify" :: _)) = _ |- _ => exact (spawn_ok _ _ _ Hs)
    end.
  - match goal with
    | Hs : outcomeOf (spawn _ _ ("--display" :: _)) = _ |- _ => exact (spawn_ok _ _ _ Hs)
    end.
  - do 10 (apply bind_In; right; eexists; split; [eassumption|]).
    apply bind_In. left. now left.
  - do 11 (apply bind_In; right; eexists; split; [eassumption|]).
    apply bind_In. left. now left.
Qed.

(** X13. When the disk image is requested, the deep verification of the
    bundle and the display of its entitlements have been run and have
    exited with status zero, and [notarize] has been called with the
    credentials of the environment and has resolved, unless
    [--skip-notarize] was given. *)
Theorem disk_image_built_after_verification
    (arch name prepackaged : string) (pre post : list event) :
  traceOf (sign host workDir) = pre ++ Build arch name prepackaged :: post ->
  (In (Spawn "codesign"
         ["--verify"; "--deep"; "--strict"; "--verbose=2"; appDir workDir]) pre /\
   exitStatus host "codesign"
     ["--verify"; "--deep"; "--strict"; "--verbose=2"; appDir workDir] = 0%Z) /\
  (In (Spawn "codesign" ["--display"; "--entitlements"; "-"; appDir workDir]) pre /\
   exitStatus host "codesign"
     ["--display"; "--entitlements"; "-"; appDir workDir] = 0%Z) /\
  (JsString.includes (argv (env host)) "--skip-notarize" = true \/
   (notarizeSucceeds host = true /\
    exists appBundleId,
      In (Notarize appBundleId (appDir workDir)
            (envOr (APPLEID (env host)) EmptyString)
            (envOr (AC_PASSWORD (env host)) EmptyString)
            (envOr (AC_TEAMID (env host)) EmptyString)) pre)).
Proof.
  intros E. unfold sign in E.
  apply bind_split in E as [(p' & E) | (config & pre1 & Hbundle & -> & E)].
  { pose proof signBundle_no_build as F. rewrite E, Forall_forall in F.
    specialize (F _ (in_elt _ _ _)). discriminate. }
  apply bind_split in E as [(p' & E) | (u & pre2 & Hnotarize & -> & _)].
  { pose proof (notarizeApp_no_build config) as F. rewrite E, Forall_forall in F.
    specialize (F _ (in_elt _ _ _)). discriminate. }
  destruct (signBundle_ok _ Hbundle) as (Hverify & Hdisplay & Hv & Hd).
  split; [split; [|exact Hverify]|split; [split; [|exact Hdisplay]|]].
  - apply in_or_app. now left.
  - apply in_or_app. now left.
  - destruct (notarizeApp_ok _ _ Hnotarize) as [Hflag | (Hn & _ & Hev)];
      [now left|].
    right. split; [exact Hn|]. exists (appId config).
    apply in_or_app. right. apply in_or_app. now left.
Qed.

End RunSuccess.

Lemma sign_returns_the_disk_image_witness :
  outcomeOf (sign Sample.host Sample.workDir) =
    Ok "/w/dist/Rancher.Desktop-1.0.x86_64.dmg" /\
  JsString.endsWith "/w/dist/Rancher.Desktop-1.0.x86_64.dmg" ".dmg" = true.
Proof.
  assert (H : outcomeOf (sign Sample.host Sample.workDir) =
              Ok "/w/dist/Rancher.Desktop-1.0.x86_64.dmg")
    by (vm_compute; reflexivity).
  split; [exact H|].
  destruct (proj1 (sign_returns_the_disk_image Sample.host Sample.workDir) _ H)
    as (results & pre & _ & _ & _ & Hends & _).
  exact Hends.
Defined.

Lemma disk_image_built_after_verification_witness :
  In (Spawn "codesign"
        ["--verify"; "--deep"; "--strict"; "--verbose=2"; appDir Sample.workDir])
     (firstn 19 (traceOf (sign Sample.host Sample.workDir))) /\
  exitStatus Sample.host "codesign"
    ["--verify"; "--deep"; "--strict"; "--verbose=2"; appDir Sample.workDir] = 0%Z.
Proof.
  assert (E : traceOf (sign Sample.host Sample.workDir) =
              firstn 19 (traceOf (sign Sample.host Sample.workDir)) ++
              Build "x64" "Rancher.Desktop-${version}.x86_64.${ext}" Sample.app ::
              skipn 20 (traceOf (sign Sample.host Sample.workDir)))
    by (vm_compute; reflexivity).
  exact (proj1 (disk_image_built_after_verification Sample.host Sample.workDir
                  _ _ _ _ _ E)).
Defined.

(** ** The run: the signing loop is complete before verification *)

Section LoopSuccess.

Variable host : Host.
Variable workDir : string.

Lemma loop_ok (config : SigningConfig) (files : list string) :
  forall wrote w,
    outcomeOf (foldM (signFile host workDir config) files wrote) = Ok w ->
    forall filePath, In filePath files ->
      In (Spawn "codesign" (signArgs host workDir config filePath))
         (traceOf (foldM (signFile host workDir config) files wrote)) /\
      exitStatus host "codesign" (signArgs host workDir config filePath) = 0%Z.
Proof.
  induction files as [|f files IH]; intros wrote w Hok filePath Hin; [contradiction|].
  cbn [foldM] in *.
  destruct (bind_outcome_ok _ _ _ Hok) as (w1 & Hfirst & Hrest).
  destruct Hin as [<- | Hin].
  - split.
    + apply bind_In. left. unfold traceOf. rewrite signFile_eq. cbn [fst].
      rewrite !in_app_iff. right. right. now left.
    + unfold outcomeOf in Hfirst. rewrite signFile_eq in Hfirst. cbn [snd] in Hfirst.
      unfold spawnFile in Hfirst.
      destruct (Z.eqb_spec (exitStatus host "codesign" (signArgs host workDir config f)) 0);
        [assumption | discriminate].
  - destruct (IH _ _ Hrest _ Hin) as [Hev Hstatus]. split; [|exact Hstatus].
    apply bind_In. right. exists w1. now split.
Qed.

Lemma not_verifying (e : event) (m : M unit) :
  isVerifying e = true -> Forall (fun e' => isVerifying e' = false) (traceOf m) ->
  ~ In e (traceOf m).
Proof.
  intros He F Hin. rewrite Forall_forall in F. specialize (F _ Hin). congruence.
Qed.

Lemma signBundle_reaches_verification (pre post : list event) :
  traceOf (signBundle host workDir) =
    pre ++ ConsoleLog "Verifying application signature..." :: post ->
  exists config entries w,
    signingConfigFile host = Ok config /\
    outcomeOf (removeAll host workDir (Some (bundle host)) (remove config)) =
      Ok (Some entries) /\
    outcomeOf (loopOverYielded host workDir config entries) = Ok w /\
    forall e,
      In e (traceOf (loopOverYielded host workDir config entries)) ->
      In e pre.
Proof.
  intros E. unfold signBundle in E.
  apply bind_split in E as [(p' & E) | (u1 & pre1 & _ & -> & E)].
  { destruct (String.length (certFingerprint host) <? 1)%nat; now destruct pre. }
  apply bind_split in E as [(p' & E) | (packaging & pre2 & _ & -> & E)].
  { now destruct pre1. }
  apply bind_split in E as [(p' & E) | (config & pre3 & H3 & -> & E)].
  { now destruct pre2. }
  apply bind_split in E as [(p' & E) | (u4 & pre4 & _ & -> & E)].
  { destruct pre3 as [|? [|? ?]]; discriminate. }
  apply bind_split in E as [(p' & E) | (state & pre5 & H5 & -> & E)].
  { exfalso.
    pose proof (removeAll_events host workDir (fun e => isVerifying e = false)
                  (fun _ => eq_refl) (remove config) (Some (bundle host))) as F.
    rewrite E, Forall_forall in F. specialize (F _ (in_elt _ _ _)). discriminate. }
  apply bind_split in E as [(p' & E) | (u6 & pre6 & _ & -> & E)].
  { destruct pre5 as [|? [|? ?]]; discriminate. }
  apply bind_split in E as [(p' & E) | (u7 & pre7 & _ & -> & E)].
  { destruct pre6 as [|? [|? ?]]; discriminate. }
  apply bind_split in E as [(p' & E) | (entries & pre8 & H8 & -> & E)].
  { destruct state; now destruct pre7. }
  destruct state as [entries'|]; [|discriminate].
  injection H8 as ->.
  apply bind_split in E as [(p' & E) | (w & pre9 & H9 & -> & _)].
  { exfalso.
    assert (Hin : In (ConsoleLog "Verifying application signature...")
                     (traceOf (signingLoop host workDir config entries)))
      by (rewrite E; apply in_elt).
    apply signingLoop_events in Hin as [Hp | [(p & c & Ev) | (f & _ & Ev)]];
      discriminate. }
  exists config, entries, w.
  split; [exact H3|]. split; [exact H5|].
  split; [now rewrite <- signingLoop_outcome|].
  intros e He. apply signingLoop_In in He as [He _].
  rewrite !in_app_iff. do 8 right. now left.
Qed.

(** X14. When verification is announced, the signing loop is complete:
    every path that the walker yields on the bundle, as the removals left
    it, has been given to [codesign] before, and each of these invocations
    returned status zero. *)
Theorem verification_follows_complete_signing (pre post : list event) :
  traceOf (sign host workDir) =
    pre ++ ConsoleLog "Verifying application signature..." :: post ->
  exists config entries,
    signingConfigFile host = Ok config /\
    outcomeOf (removeAll host workDir (Some (bundle host)) (remove config)) =
      Ok (Some entries) /\
    forall filePath,
      In filePath (findFilesToSign (exitStatus host) (appDir workDir) entries) ->
      In (Spawn "codesign" (signArgs host workDir config filePath)) pre /\
      exitStatus host "codesign" (signArgs host workDir config filePath) = 0%Z.
Proof.
  intros E. unfold sign in E.
  apply bind_split in E as [(p' & E) | (packaging & pre1 & _ & _ & E)].
  - destruct (signBundle_reaches_verification _ _ E)
      as (config & entries & w & Hc & Hr & Hloop & Hincl).
    exists config, entries. split; [exact Hc|]. split; [exact Hr|].
    intros filePath Hin.
    destruct (loop_ok _ _ _ _ Hloop _ Hin) as [Hev Hstatus].
    split; [|exact Hstatus]. now apply Hincl.
  - exfalso.
    assert (F : Forall (fun e' => isVerifying e' = false)
                  (traceOf (notarizeApp host workDir packaging ;;
                            buildDiskImage host workDir packaging))).
    { unfold notarizeApp, buildDiskImage, spawn. cbv zeta.
      trace_forall; reflexivity. }
    rewrite E, Forall_forall in F. specialize (F _ (in_elt _ _ _)). discriminate.
Qed.

End LoopSuccess.

Lemma verification_follows_complete_signing_witness :
  exists config entries,
    signingConfigFile Sample.host = Ok config /\
    outcomeOf (removeAll Sample.host Sample.workDir (Some (bundle Sample.host)) (remove config)) =
      Ok (Some entries).
Proof.
  assert (E : traceOf (sign Sample.host Sample.workDir) =
              firstn 14 (traceOf (sign Sample.host Sample.workDir)) ++
              ConsoleLog "Verifying application signature..." ::
              skipn 15 (traceOf (sign Sample.host Sample.workDir)))
    by (vm_compute; reflexivity).
  destruct (verification_follows_complete_signing Sample.host Sample.workDir _ _ E)
    as (config & entries & Hc & Hr & _).
  exists config, entries. split; [exact Hc | exact Hr].
Defined.

(** ** The run: what the written files hold when an artifact is signed *)

Lemma contentAfter_app (path : string) (a b : list event) :
  forall before,
    contentAfter path (a ++ b) before =
    contentAfter path b (contentAfter path a before).
Proof.
  induction a as [|e a IH]; intros before; [reflexivity|].
  destruct e; cbn [app contentAfter]; apply IH.
Qed.

Lemma contentAfter_withoutProbes (path : string) (trace : list event) :
  forall before,
    contentAfter path (withoutProbes trace) before = contentAfter path trace before.
Proof.
  induction trace as [|e trace IH]; intros before; [reflexivity|].
  unfold withoutProbes in *. cbn [filter].
  destruct (isProbe e) eqn:Ep; cbn [negb].
  - destruct e; try discriminate. cbn [contentAfter]. apply IH.
  - destruct e; cbn [contentAfter]; apply IH.
Qed.

Lemma contentAfter_untouched (path : string) (trace : list event) :
  Forall (fun e => isWriteTo path e = false) trace ->
  forall before, contentAfter path trace before = before.
Proof.
  induction 1 as [|e trace He _ IH]; intros before; [reflexivity|].
  destruct e; cbn [contentAfter]; try apply IH.
  cbn [isWriteTo] in He. rewrite He. apply IH.
Qed.

Lemma split_after_writes (ws : list event) (s : event) (rest : list event)
    (ev : event) (l2 : list event) :
  Forall (fun e => isWrite e = true) ws -> isWrite ev = false ->
  forall l1,
    ws ++ s :: rest = l1 ++ ev :: l2 ->
    (l1 = ws /\ ev = s /\ l2 = rest) \/
    exists l1', l1 = ws ++ s :: l1' /\ rest = l1' ++ ev :: l2.
Proof.
  intros Hws Hev. induction Hws as [|w ws Hw _ IH]; intros l1 E.
  - destruct l1 as [|b l1]; cbn [app] in E; injection E as E1 E2.
    + left. now subst.
    + right. exists l1. now subst.
  - destruct l1 as [|b l1]; cbn [app] in E; injection E as E1 E2.
    + subst. congruence.
    + subst b. destruct (IH _ E2) as [(-> & -> & ->) | (l1' & -> & ->)].
      * now left.
      * right. now exists l1'.
Qed.

Lemma split_quiet_prefix (pre0 : list event) (ev : event) :
  Forall quiet pre0 -> isArtifactSigning ev = true ->
  forall rest pre post,
    pre0 ++ rest = pre ++ ev :: post ->
    exists l1, pre = pre0 ++ l1 /\ rest = l1 ++ ev :: post.
Proof.
  intros Hq Hev. induction Hq as [|a pre0 [_ Ha] _ IH]; intros rest pre post E.
  - now exists pre.
  - destruct pre as [|b pre]; cbn [app] in E; injection E as E1 E2.
    + subst. congruence.
    + subst b. destruct (IH _ _ _ E2) as (l1 & -> & ->). now exists l1.
Qed.

Lemma split_quiet_suffix (post0 : list event) (ev : event) :
  Forall quiet post0 -> isArtifactSigning ev = true ->
  forall l1 loop post,
    loop ++ post0 = l1 ++ ev :: post ->
    exists l2, loop = l1 ++ ev :: l2.
Proof.
  intros Hq Hev. induction l1 as [|b l1 IH]; intros loop post E.
  - destruct loop as [|a loop]; cbn [app] in E.
    + exfalso. rewrite E in Hq. apply Forall_inv in Hq as [_ Hs]. congruence.
    + injection E as -> _. now exists loop.
  - destruct loop as [|a loop]; cbn [app] in E.
    + exfalso. pose proof (quiet_not_signing post0 ev Hq) as F.
      rewrite E in F. specialize (F (in_cons _ _ _ (in_elt _ _ _))). congruence.
    + injection E as -> E. destruct (IH _ _ E) as (l2 & ->). now exists l2.
Qed.

Section WrittenFiles.

Variable host : Host.
Variable workDir : string.
Variable config : SigningConfig.

Lemma entitlementName_default (relPath : string) :
  entitlementName config relPath = "default" ->
  entitlementsOf config relPath = entitlementsDefault config.
Proof.
  unfold entitlementName, entitlementsOf.
  destruct (entitlementsOverride config relPath); [|reflexivity].
  intros E. apply (f_equal String.length) in E.
  rewrite HashFacts.fileHash_length in E. discriminate.
Qed.

Lemma constraintWrites_untouched (path relPath : string) (types : list constraintType) :
  (forall type, In type types -> constraintsFile workDir relPath type <> path) ->
  Forall (fun e => isWriteTo path e = false)
         (constraintWrites host workDir config relPath types).
Proof.
  induction types as [|t types IH]; intros H; [constructor|].
  cbn [constraintWrites flat_map]. apply Forall_app. split.
  - destruct (constraintOf config relPath t); constructor; [|constructor].
    cbn [isWriteTo]. apply String.eqb_neq. apply H. now left.
  - apply IH. intros type Hin. apply H. now right.
Qed.

Lemma constraintWrites_content (relPath : string) (type : constraintType)
    (constraint : list (string * value)) (types : list constraintType) :
  NoDup types -> In type types ->
  constraintOf config relPath type = Some constraint ->
  forall before,
    contentAfter (constraintsFile workDir relPath type)
      (constraintWrites host workDir config relPath types) before =
    Some (evaluateConstraints (AC_TEAMID (env host)) (VObject constraint)).
Proof.
  intros Hnd. induction Hnd as [|t types Hnotin _ IH]; intros Hin Hc before;
    [contradiction|].
  cbn [constraintWrites flat_map]. rewrite contentAfter_app.
  destruct Hin as [-> | Hin].
  - rewrite Hc. cbn [contentAfter]. rewrite String.eqb_refl.
    apply contentAfter_untouched. apply constraintWrites_untouched.
    intros t Ht E. apply constraintsFile_inj in E. now subst.
  - now apply IH.
Qed.

Lemma constraintTypes_NoDup : NoDup constraintTypes.
Proof. repeat constructor; simpl; intuition discriminate. Qed.

Lemma constraintTypes_all (type : constraintType) : In type constraintTypes.
Proof. destruct type; simpl; auto. Qed.

Lemma writesOf_are_writes (wrote : bool) (filePath : string) :
  Forall (fun e => isWrite e = true) (writesOf host workDir config wrote filePath).
Proof.
  unfold writesOf. cbv zeta. apply Forall_app. split.
  - destruct (writesEntitlements _ _ _ _); repeat constructor.
  - eapply Forall_impl; [|apply constraintWrites_are_writes].
    now intros e (t & c & ->).
Qed.

Lemma signFile_trace (wrote : bool) (filePath : string) :
  traceOf (signFile host workDir config wrote filePath) =
  writesOf host workDir config wrote filePath ++
  [Spawn "codesign" (signArgs host workDir config filePath)].
Proof.
  unfold traceOf. rewrite signFile_eq. cbn [fst]. unfold writesOf. cbv zeta.
  now rewrite <- app_assoc.
Qed.

Lemma writesOf_default (wrote : bool) (filePath : string)
    (content : string -> option value) :
  defaultWritten workDir config wrote content ->
  wrote || String.eqb (entitlementName config
                         (Path.relative (appDir workDir) filePath)) "default" = true ->
  contentAfter (entitlementFile workDir "default") (writesOf host workDir config wrote filePath)
    (content (entitlementFile workDir "default")) =
  Some (entitlementPlist (entitlementsDefault config)).
Proof.
  intros Hinv Hw. unfold writesOf. cbv zeta. rewrite contentAfter_app.
  rewrite (contentAfter_untouched (entitlementFile workDir "default")
             (constraintWrites _ _ _ _ _)).
  2:{ apply constraintWrites_untouched. intros type _.
      apply constraintsFile_not_default. }
  unfold writesEntitlements.
  destruct (String.eqb_spec
              (entitlementName config (Path.relative (appDir workDir) filePath))
              "default") as [E|E].
  - destruct wrote; cbn [negb orb contentAfter].
    + now apply Hinv.
    + rewrite E, String.eqb_refl. f_equal. f_equal.
      now apply entitlementName_default.
  - rewrite orb_false_r in Hw. subst wrote. cbn [negb orb contentAfter].
    assert (N : entitlementFile workDir
                  (entitlementName config (Path.relative (appDir workDir) filePath))
                <> entitlementFile workDir "default").
    { unfold entitlementName in *.
      destruct (entitlementsOverride config _); [|contradiction].
      apply entitlementFile_hash_not_default. }
    apply String.eqb_neq in N. rewrite N. now apply Hinv.
Qed.

Lemma writesOf_resolved (wrote : bool) (filePath : string)
    (content : string -> option value) :
  defaultWritten workDir config wrote content ->
  resolvedFiles host workDir config filePath
    (fun path => contentAfter path (writesOf host workDir config wrote filePath) (content path)).
Proof.
  intros Hinv. unfold resolvedFiles. cbv zeta. split.
  - unfold writesOf. cbv zeta. rewrite contentAfter_app.
    rewrite (contentAfter_untouched _ (constraintWrites _ _ _ _ _)).
    2:{ apply constraintWrites_untouched. intros type _.
        apply constraintsFile_not_entitlementFile. }
    unfold writesEntitlements.
    destruct wrote; cbn [negb orb contentAfter].
    + destruct (String.eqb_spec
                  (entitlementName config (Path.relative (appDir workDir) filePath))
                  "default") as [E|E]; cbn [negb contentAfter].
      * rewrite E, (entitlementName_default _ E). now apply Hinv.
      * now rewrite String.eqb_refl.
    + now rewrite String.eqb_refl.
  - intros type constraint Hc. unfold writesOf. cbv zeta.
    rewrite contentAfter_app.
    apply constraintWrites_content;
      [apply constraintTypes_NoDup | apply constraintTypes_all | exact Hc].
Qed.

Lemma loop_contents (filePath : string) (l2 : list event) (files : list string) :
  forall wrote (content : string -> option value) l1,
    defaultWritten workDir config wrote content ->
    traceOf (foldM (signFile host workDir config) files wrote) =
      l1 ++ Spawn "codesign" (signArgs host workDir config filePath) :: l2 ->
    resolvedFiles host workDir config filePath
      (fun path => contentAfter path l1 (content path)).
Proof.
  induction files as [|f files IH]; intros wrote content l1 Hinv E.
  - cbn in E. now destruct l1.
  - cbn [foldM] in E. rewrite bind_trace, signFile_trace, <- app_assoc in E.
    cbn [app] in E.
    apply split_after_writes in E;
      [|apply writesOf_are_writes | reflexivity].
    destruct E as [(-> & E & _) | (l1' & -> & E)].
    + assert (E' : signArgs host workDir config filePath =
                  signArgs host workDir config f) by congruence.
      apply signArgs_inj in E'. subst f.
      now apply writesOf_resolved.
    + unfold outcomeOf in E. rewrite signFile_eq in E. cbn [snd] in E.
      destruct (spawnFile (exitStatus host) "codesign" _) as [u|msg];
        [|now destruct l1'].
      apply (IH _ (fun path => contentAfter path (writesOf host workDir config wrote f) (content path)))
        in E.
      * unfold resolvedFiles in *. cbv zeta in *.
        destruct E as [E1 E2]. split.
        -- rewrite contentAfter_app. exact E1.
        -- intros type constraint Hc. rewrite contentAfter_app. now apply E2.
      * intros Hw. now apply writesOf_default.
Qed.

End WrittenFiles.

Section RunFiles.

Variable host : Host.
Variable workDir : string.

(** X15. When [codesign] is invoked for an artifact, the entitlement file
    named on its command line holds the entitlements the configuration
    gives for the artifact, and each constraint file named there holds the
    evaluated constraint: whatever the files held before the run, and
    although the default entitlement file is written only once. *)
Theorem files_hold_resolved_content_when_signing
    (config : SigningConfig) (filePath : string) (pre post : list event)
    (before : string -> option value) :
  signingConfigFile host = Ok config ->
  traceOf (sign host workDir) =
    pre ++ Spawn "codesign" (signArgs host workDir config filePath) :: post ->
  resolvedFiles host workDir config filePath
    (fun path => contentAfter path pre (before path)).
Proof.
  intros Hc E.
  destruct (sign_aroundLoop host workDir) as (pre0 & loop & post0 & Ht & Hpre & Hpost & Hloop).
  rewrite Ht in E.
  destruct (split_quiet_prefix _ _ Hpre (signArgs_signing host workDir config filePath) _ _ _ E)
    as (l1 & -> & E1).
  destruct (split_quiet_suffix _ _ Hpost (signArgs_signing host workDir config filePath) _ _ _ E1)
    as (l2 & E2).
  destruct Hloop as [-> | (config' & entries & Hc' & ->)]; [now destruct l1|].
  rewrite Hc in Hc'. injection Hc' as <-.
  apply signingLoop_split in E2; [|reflexivity].
  assert (R : resolvedFiles host workDir config filePath
                (fun path => contentAfter path (withoutProbes l1)
                               (contentAfter path pre0 (before path)))).
  { eapply loop_contents; [|exact E2]. discriminate. }
  unfold resolvedFiles in *. cbv zeta in *.
  destruct R as [R1 R2].
  split.
  - rewrite contentAfter_app, <- contentAfter_withoutProbes. exact R1.
  - intros type constraint Hcon.
    rewrite contentAfter_app, <- contentAfter_withoutProbes. now apply R2.
Qed.

End RunFiles.

Lemma files_hold_resolved_content_when_signing_witness :
  signingConfigFile Sample.host = Ok Sample.config /\
  resolvedFiles Sample.host Sample.workDir Sample.config
    "/w/unpacked/Rancher Desktop.app/Contents/Frameworks/A.framework"
    (fun path =>
       contentAfter path (firstn 11 (traceOf (sign Sample.host Sample.workDir))) None).
Proof.
  split; [reflexivity|].
  apply (files_hold_resolved_content_when_signing Sample.host Sample.workDir
           Sample.config
           "/w/unpacked/Rancher Desktop.app/Contents/Frameworks/A.framework"
           (firstn 11 (traceOf (sign Sample.host Sample.workDir)))
           (skipn 12 (traceOf (sign Sample.host Sample.workDir)))
           (fun _ => None)).
  - reflexivity.
  - vm_compute. reflexivity.
Defined.

(** ** The run: where files are written *)

Section WriteLocations.

Variable host : Host.
Variable workDir : string.

Lemma fileHash_no_separator (relPath : string) :
  JsString.mem Path.sep (fileHash relPath) = false.
Proof.
  apply (stringForall_mem isUrlSafe); [apply encode_urlSafe | reflexivity].
Qed.

Lemma writesOf_names (config : SigningConfig) (wrote : bool) (filePath : string)
    (path : string) (content : value) :
  In (WriteFile path content) (writesOf host workDir config wrote filePath) ->
  plistName workDir path.
Proof.
  unfold writesOf. cbv zeta. rewrite in_app_iff. intros [H | H].
  - destruct (writesEntitlements _ _ _ _); [|contradiction].
    destruct H as [H | []]. injection H as <- _.
    eexists. split; [reflexivity|]. split.
    + rewrite mem_append. unfold entitlementName.
      destruct (entitlementsOverride config _); [|reflexivity].
      now rewrite fileHash_no_separator.
    + apply StringFacts.endsWith_iff.
      exists (entitlementName config (Path.relative (appDir workDir) filePath)
              ++ "-entitlement")%string.
      now rewrite StringFacts.append_assoc.
  - pose proof (constraintWrites_are_writes host workDir config
                  (Path.relative (appDir workDir) filePath) constraintTypes) as F.
    rewrite Forall_forall in F. destruct (F _ H) as (type & c & E).
    injection E as -> _.
    eexists. split; [reflexivity|]. split.
    + rewrite !mem_append, fileHash_no_separator. now destruct type.
    + apply StringFacts.endsWith_iff.
      exists (fileHash (Path.relative (appDir workDir) filePath)
              ++ "-constraint-" ++ constraintTypeName type)%string.
      now rewrite !StringFacts.append_assoc.
Qed.

Lemma loop_write_names (config : SigningConfig) (path : string) (content : value)
    (files : list string) :
  forall wrote,
    In (WriteFile path content)
       (traceOf (foldM (signFile host workDir config) files wrote)) ->
    plistName workDir path.
Proof.
  induction files as [|f files IH]; intros wrote H; [contradiction|].
  cbn [foldM] in H. apply bind_In in H as [H | (w & _ & H)].
  - rewrite signFile_trace, in_app_iff in H. destruct H as [H | [H | []]].
    + now apply writesOf_names in H.
    + discriminate.
  - now apply IH in H.
Qed.

Lemma signBundle_write (path : string) (content : value)
    (pre post : list event) :
  traceOf (signBundle host workDir) = pre ++ WriteFile path content :: post ->
  plistName workDir path /\ In (Mkdir (plistsDir workDir)) pre.
Proof.
  intros E. unfold signBundle in E.
  apply bind_split in E as [(p' & E) | (u1 & pre1 & _ & -> & E)].
  { destruct (String.length (certFingerprint host) <? 1)%nat; now destruct pre. }
  apply bind_split in E as [(p' & E) | (packaging & pre2 & _ & -> & E)].
  { now destruct pre1. }
  apply bind_split in E as [(p' & E) | (config & pre3 & _ & -> & E)].
  { now destruct pre2. }
  apply bind_split in E as [(p' & E) | (u4 & pre4 & _ & -> & E)].
  { destruct pre3 as [|? [|? ?]]; discriminate. }
  apply bind_split in E as [(p' & E) | (state & pre5 & _ & -> & E)].
  { exfalso.
    pose proof (removeAll_events host workDir (fun e => isWrite e = false)
                  (fun _ => eq_refl) (remove config) (Some (bundle host))) as F.
    rewrite E, Forall_forall in F. specialize (F _ (in_elt _ _ _)). discriminate. }
  apply bind_split in E as [(p' & E) | (u6 & pre6 & _ & -> & E)].
  { destruct pre5 as [|? [|? ?]]; discriminate. }
  apply bind_split in E as [(p' & E) | (u7 & pre7 & _ & -> & E)].
  { destruct pre6 as [|? [|? ?]]; discriminate. }
  apply bind_split in E as [(p' & E) | (entries & pre8 & _ & -> & E)].
  { destruct state; now destruct pre7. }
  split.
  - apply bind_split in E as [(p' & E) | (w & pre9 & _ & -> & E)].
    + assert (Hin : In (WriteFile path content)
                       (traceOf (loopOverYielded host workDir config entries))).
      { apply signingLoop_In. split; [|reflexivity]. rewrite E. apply in_elt. }
      unfold loopOverYielded in Hin. eapply loop_write_names. exact Hin.
    + exfalso.
      assert (F : Forall (fun e => isWrite e = false)
                    (traceOf (emit (ConsoleLog "Verifying application signature...") ;;
                              spawn host "codesign"
                                ["--verify"; "--deep"; "--strict"; "--verbose=2";
                                 appDir workDir] ;;
                              spawn host "codesign"
                                ["--display"; "--entitlements"; "-"; appDir workDir] ;;
                              ret packaging)))
        by (unfold spawn; trace_forall; reflexivity).
      rewrite E, Forall_forall in F. specialize (F _ (in_elt _ _ _)). discriminate.
  - rewrite !in_app_iff. do 6 right. left. now left.
Qed.

(** X16. Every file the run writes lies directly in the directory
    [plists] of the working directory, under a name that ends in [.plist]
    and holds no path separator, and the directory has been created by
    then. *)
Theorem writes_stay_in_plists_directory (path : string) (content : value)
    (pre post : list event) :
  traceOf (sign host workDir) = pre ++ WriteFile path content :: post ->
  plistName workDir path /\ In (Mkdir (plistsDir workDir)) pre.
Proof.
  intros E. unfold sign in E.
  apply bind_split in E as [(p' & E) | (config & pre1 & _ & _ & E)].
  - now apply signBundle_write in E.
  - exfalso.
    assert (F : Forall quiet
                  (traceOf (notarizeApp host workDir config ;;
                            buildDiskImage host workDir config))).
    { apply bind_Forall; [apply notarizeApp_quiet|].
      intros _. apply buildDiskImage_quiet. }
    rewrite E, Forall_forall in F. destruct (F _ (in_elt _ _ _)) as [F1 _].
    discriminate.
Qed.

End WriteLocations.

Lemma writes_stay_in_plists_directory_witness :
  plistName Sample.workDir "/w/plists/default-entitlement.plist" /\
  In (Mkdir (plistsDir Sample.workDir))
     (firstn 5 (traceOf (sign Sample.host Sample.workDir))).
Proof.
  apply (writes_stay_in_plists_directory Sample.host Sample.workDir
           "/w/plists/default-entitlement.plist"
           (entitlementPlist (entitlementsDefault Sample.config))
           (firstn 5 (traceOf (sign Sample.host Sample.workDir)))
           (skipn 6 (traceOf (sign Sample.host Sample.workDir)))).
  vm_compute. reflexivity.
Defined.

(** ** The run: the request for the disk image *)

Lemma stringForall_append (test : ascii -> bool) (a b : string) :
  stringForall test (a ++ b) = stringForall test a && stringForall test b.
Proof.
  induction a as [|c a IH]; cbn [append stringForall]; [reflexivity|].
  now rewrite IH, andb_assoc.
Qed.

Lemma replaceSpaces_notSpace (s : string) :
  forall inRun, stringForall notSpace (replaceSpaces inRun s) = true.
Proof.
  induction s as [|c s IH]; intros inRun; [reflexivity|].
  cbn [replaceSpaces]. destruct (isSpace c) eqn:Ec.
  - destruct inRun; [apply IH|]. cbn [stringForall]. now rewrite IH.
  - cbn [stringForall]. unfold notSpace at 1. now rewrite Ec, IH.
Qed.

Section DiskImage.

Variable host : Host.
Variable workDir : string.

Lemma buildDiskImage_build (config : Configuration) (arch name prepackaged : string) :
  In (Build arch name prepackaged) (traceOf (buildDiskImage host workDir config)) ->
  arch = (if isSet (M1 (env host)) then "arm64" else "x64") /\
  name = ((match productName config with
           | Some product => replaceSpaces false product
           | None => "undefined"
           end) ++ "-${version}." ++
          (if isSet (M1 (env host)) then "aarch64" else "x86_64") ++ ".${ext}")%string /\
  prepackaged = appDir workDir.
Proof.
  unfold buildDiskImage. cbv zeta. intros H.
  apply bind_In in H as [[H | []] | (u1 & _ & H)]; [discriminate|].
  apply bind_In in H as [[H | []] | (u2 & _ & H)].
  { injection H as <- <- <-. now repeat split. }
  exfalso. apply bind_In in H as [[] | (results & _ & H)].
  destruct (find _ results) as [dmgFile|]; [|contradiction].
  unfold spawn in H.
  apply bind_In in H as [H | (u3 & _ & [])].
  apply bind_In in H as [[H | []] | (u4 & _ & H)]; [discriminate|].
  now destruct (spawnFile _ _ _).
Qed.

(** X17. The disk image is requested for the signed bundle, under an
    artifact name without white space of ASCII, whatever the product name
    holds, and for one architecture: [arm64] with the name ending in
    [aarch64] when [M1] is set, [x64] with [x86_64] otherwise. *)
Theorem disk_image_request (arch name prepackaged : string) :
  In (Build arch name prepackaged) (traceOf (sign host workDir)) ->
  prepackaged = appDir workDir /\
  stringForall notSpace name = true /\
  if isSet (M1 (env host))
  then arch = "arm64" /\
       JsString.endsWith name "-${version}.aarch64.${ext}" = true
  else arch = "x64" /\
       JsString.endsWith name "-${version}.x86_64.${ext}" = true.
Proof.
  intros H. unfold sign in H.
  apply bind_In in H as [H | (config & _ & H)].
  { pose proof (signBundle_no_build host workDir) as F. rewrite Forall_forall in F.
    specialize (F _ H). discriminate. }
  apply bind_In in H as [H | (u & _ & H)].
  { pose proof (notarizeApp_no_build host workDir config) as F.
    rewrite Forall_forall in F. specialize (F _ H). discriminate. }
  apply buildDiskImage_build in H as (-> & -> & ->).
  split; [reflexivity|]. split.
  - rewrite !stringForall_append.
    assert (P : stringForall notSpace
                  (match productName config with
                   | Some product => replaceSpaces false product
                   | None => "undefined"
                   end) = true).
    { destruct (productName config); [apply replaceSpaces_notSpace | reflexivity]. }
    rewrite P. now destruct (isSet (M1 (env host))).
  - destruct (isSet (M1 (env host))); (split; [reflexivity|]);
      apply StringFacts.endsWith_iff; eexists; reflexivity.
Qed.

End DiskImage.

Lemma disk_image_request_witness :
  In (Build "x64" "Rancher.Desktop-${version}.x86_64.${ext}" Sample.app)
     (traceOf (sign Sample.host Sample.workDir)) /\
  stringForall notSpace "Rancher.Desktop-${version}.x86_64.${ext}" = true.
Proof.
  assert (H : In (Build "x64" "Rancher.Desktop-${version}.x86_64.${ext}" Sample.app)
                 (traceOf (sign Sample.host Sample.workDir))) by in_list.
  split; [exact H|].
  exact (proj1 (proj2 (disk_image_request Sample.host Sample.workDir _ _ _ H))).
Defined.

(** ** The removal phase: what a successful removal leaves *)

Module EntryFacts.

Lemma entryPath_suffix (components : list string) :
  forall dir, entryPath dir components = (dir ++ suffixOf components)%string.
Proof.
  induction components as [|c cs IH]; intros dir.
  - cbn. now rewrite StringFacts.append_nil_r.
  - cbn [entryPath fold_left suffixOf fold_right].
    fold (entryPath (Path.resolve dir c) cs). fold (suffixOf cs).
    rewrite IH. unfold Path.resolve.
    now rewrite !StringFacts.append_assoc.
Qed.

Lemma suffixOf_componentEnd (components : list string) :
  componentEnd (suffixOf components).
Proof.
  destruct components as [|c cs]; [now left|].
  right. cbn [suffixOf fold_right]. now eexists.
Qed.

Lemma componentEnd_append (components : list string) (s : string) :
  componentEnd s -> componentEnd (suffixOf components ++ s).
Proof.
  intros Hs. destruct components as [|c cs]; [exact Hs|].
  right. cbn [suffixOf fold_right]. rewrite StringFacts.append_assoc. now eexists.
Qed.

(** A path at or underneath the entry at [q] has components that start
    with [q]. *)
Lemma suffixOf_prefix (q : list string) :
  forall components s,
    Forall separatorFree q -> Forall separatorFree components ->
    componentEnd s ->
    suffixOf components = (suffixOf q ++ s)%string ->
    exists more, components = q ++ more.
Proof.
  induction q as [|x q IH]; intros components s Hq Hc Hs E.
  - now exists components.
  - apply Forall_cons_iff in Hq as [Hx Hq].
    destruct components as [|c cs]; [discriminate|].
    apply Forall_cons_iff in Hc as [Hc Hcs].
    cbn [suffixOf fold_right] in E. fold (suffixOf cs) in E. fold (suffixOf q) in E.
    cbn [Path.sepS append] in E. injection E as E.
    rewrite StringFacts.append_assoc in E.
    assert (Ecx : c = x).
    { apply (StringFacts.component_unique c x (suffixOf cs) (suffixOf q ++ s));
        [assumption | assumption | apply suffixOf_componentEnd
        | now apply componentEnd_append | exact E]. }
    subst c. apply StringFacts.append_cancel_l in E.
    destruct (IH _ _ Hq Hcs Hs E) as (more & ->). now exists more.
Qed.

Lemma lookup_prefix (q more : list string) :
  forall root n,
    Fs.lookup (q ++ more) root = Some n -> exists a, Fs.lookup q root = Some a.
Proof.
  induction q as [|x q IH]; intros root n H; [now exists root|].
  cbn [app Fs.lookup] in *. destruct root as [| |entries|]; try discriminate.
  destruct (find _ entries) as [e|]; [|discriminate].
  exact (IH _ _ H).
Qed.

Lemma find_entry (name : string) (child : node) (entries : list (string * node)) :
  NoDup (map fst entries) -> In (name, child) entries ->
  find (fun e => String.eqb (fst e) name) entries = Some (name, child).
Proof.
  induction entries as [|e es IH]; intros Hnd Hin; [contradiction|].
  cbn [map] in Hnd. apply NoDup_cons_iff in Hnd as [Hnotin Hnd].
  cbn [find]. destruct Hin as [-> | Hin].
  - cbn [fst]. now rewrite String.eqb_refl.
  - destruct (String.eqb_spec (fst e) name) as [E|E]; [|now apply IH].
    exfalso. apply Hnotin. rewrite E.
    apply in_map_iff. now exists (name, child).
Qed.

(** An entry reached through directories is the one its components look
    up. *)
Lemma located_lookup (dir : string) (root : node) (p : string) (n : node) :
  located dir root p n -> wellFormed root ->
  exists components,
    p = (dir ++ suffixOf components)%string /\
    Forall separatorFree components /\
    Fs.lookup components root = Some n.
Proof.
  induction 1 as [dir root | dir entries name child p n Hin _ IH]; intros Hwf.
  - exists []. cbn. now rewrite StringFacts.append_nil_r.
  - apply wellFormed_directory in Hwf as [Hnd Hall].
    rewrite Forall_forall in Hall. destruct (Hall _ Hin) as [Hname Hchild].
    destruct (IH Hchild) as (cs & -> & Hcs & Hl).
    exists (name :: cs). split; [|split].
    + cbn [suffixOf fold_right]. unfold Path.resolve.
      now rewrite !StringFacts.append_assoc.
    + now constructor.
    + cbn [Fs.lookup]. now rewrite (find_entry name child entries Hnd Hin).
Qed.

(** The names on the way to an entry of a well-formed tree hold no
    separator. *)
Lemma lookup_separatorFree (components : list string) :
  forall root n,
    wellFormed root -> Fs.lookup components root = Some n ->
    Forall separatorFree components.
Proof.
  induction components as [|name rest IH]; intros root n Hwf H; [constructor|].
  cbn [Fs.lookup] in H. destruct root as [| |entries|]; try discriminate.
  destruct (find _ entries) as [e|] eqn:E; [|discriminate].
  apply find_some in E as [Hin Hname]. apply String.eqb_eq in Hname.
  apply wellFormed_directory in Hwf as [_ Hall]. rewrite Forall_forall in Hall.
  destruct (Hall _ Hin) as [Hsep Hchild].
  constructor; [now rewrite <- Hname | exact (IH _ _ Hchild H)].
Qed.

(** The path that was removed is no longer there. *)
Lemma removeAt_removes (components : list string) :
  forall entries entries',
    wellFormed (Directory entries) ->
    Fs.removeAt components entries = Some entries' ->
    Fs.lookup components (Directory entries') = None.
Proof.
  induction components as [|name rest IH]; intros entries entries' Hwf H;
    [discriminate|].
  revert entries' H. induction entries as [|e es IHes]; intros entries' H;
    [discriminate|].
  apply FsFacts.wellFormed_cons in Hwf as (Hnotin & Hsep & Hchild & Hes).
  rewrite FsFacts.removeAt_cons in H.
  destruct (String.eqb_spec (fst e) name) as [E|E].
  - destruct rest as [|r rest].
    + injection H as <-. apply FsFacts.lookup_absent_name. now rewrite <- E.
    + destruct (snd e) as [| |sub|] eqn:Ee; try discriminate.
      destruct (Fs.removeAt (r :: rest) sub) as [sub'|] eqn:Er; [|discriminate].
      injection H as <-. rewrite FsFacts.lookup_cons. cbn [fst snd].
      apply String.eqb_eq in E. rewrite E.
      exact (IH sub sub' Hchild Er).
  - destruct (Fs.removeAt (name :: rest) es) as [es'|] eqn:Er; [|discriminate].
    injection H as <-. rewrite FsFacts.lookup_cons.
    apply String.eqb_neq in E. rewrite E. now apply IHes.
Qed.

(** A location that cannot be removed is missing. *)
Lemma removeAt_none (components : list string) :
  forall entries,
    components <> [] ->
    Fs.removeAt components entries = None ->
    Fs.lookup components (Directory entries) = None.
Proof.
  induction components as [|name rest IH]; intros entries Hne H; [contradiction|].
  induction entries as [|e es IHes]; [reflexivity|].
  rewrite FsFacts.removeAt_cons in H. rewrite FsFacts.lookup_cons.
  destruct (String.eqb (fst e) name).
  - destruct rest as [|r rest]; [discriminate|].
    destruct (snd e) as [| |sub|]; try reflexivity.
    destruct (Fs.removeAt (r :: rest) sub) eqn:Er; [discriminate|].
    apply IH; [discriminate | exact Er].
  - destruct (Fs.removeAt (name :: rest) es) eqn:Er; [discriminate|].
    now apply IHes.
Qed.

Lemma remove_gone (founds : list Fs.found) :
  fold_left Fs.remove founds None = None.
Proof. induction founds as [|what rest IH]; [reflexivity | exact IH]. Qed.

(** What a series of removals leaves of a well-formed bundle. *)
Lemma remove_all (founds : list Fs.found) :
  forall entries entries',
    wellFormed (Directory entries) ->
    fold_left Fs.remove founds (Some entries) = Some entries' ->
    wellFormed (Directory entries') /\
    (forall q, Fs.lookup q (Directory entries) = None ->
               Fs.lookup q (Directory entries') = None) /\
    forall location, In (Fs.Entry location) founds ->
      location <> [] /\ Fs.lookup location (Directory entries') = None.
Proof.
  induction founds as [|what rest IH]; intros entries entries' Hwf H.
  - injection H as <-. split; [assumption|]. split; [trivial|]. intros l [].
  - cbn [fold_left] in H.
    destruct what as [[|name loc]| | |]; cbn [Fs.remove] in H;
      try (rewrite remove_gone in H; discriminate).
    + destruct (Fs.removeAt (name :: loc) entries) as [e1|] eqn:Ea.
      * pose proof (FsFacts.removeAt_wellFormed _ _ _ Hwf Ea) as Hwf1.
        destruct (IH _ _ Hwf1 H) as (Hwf' & Hkeep & Hrest).
        split; [exact Hwf'|]. split.
        -- intros q Hq. apply Hkeep.
           exact (FsFacts.removeAt_keeps_missing _ _ _ _ Hwf Ea Hq).
        -- intros l [[= <-] | Hin]; [|now apply Hrest].
           split; [discriminate|]. apply Hkeep.
           exact (removeAt_removes _ _ _ Hwf Ea).
      * destruct (IH _ _ Hwf H) as (Hwf' & Hkeep & Hrest).
        split; [exact Hwf'|]. split; [exact Hkeep|].
        intros l [[= <-] | Hin]; [|now apply Hrest].
        split; [discriminate|]. apply Hkeep.
        apply removeAt_none; [discriminate | exact Ea].
    + destruct (IH _ _ Hwf H) as (Hwf' & Hkeep & Hrest).
      split; [exact Hwf'|]. split; [exact Hkeep|].
      intros l [[=] | Hin]. now apply Hrest.
    + destruct (IH _ _ Hwf H) as (Hwf' & Hkeep & Hrest).
      split; [exact Hwf'|]. split; [exact Hkeep|].
      intros l [[=] | Hin]. now apply Hrest.
Qed.

End EntryFacts.

Section RemovalSuccess.

Variable host : Host.
Variable workDir : string.

(** X18. When the removal phase succeeds on a well-formed bundle, every
    listed path named something, the bundle that is left is well formed and
    holds nothing that was not there before, and an entry of the bundle
    that a listed path names by its own path, through no link, is gone:
    the walker then yields no path at or underneath it, so nothing removed
    is signed. *)
Theorem removed_entries_are_not_yielded
    (exitStatus : string -> list string -> Z)
    (entries entries' : list (string * node)) (relpaths : list string) :
  wellFormed (Directory entries) ->
  outcomeOf (removeAll host workDir (Some entries) relpaths) = Ok (Some entries') ->
  (forall relpath, In relpath relpaths ->
     lstat host (Path.joinAny (appDir workDir) relpath) <> Fs.NoEntry) /\
  wellFormed (Directory entries') /\
  (forall q, Fs.lookup q (Directory entries) = None ->
             Fs.lookup q (Directory entries') = None) /\
  forall relpath location n,
    In relpath relpaths ->
    lstat host (Path.joinAny (appDir workDir) relpath) = Fs.Entry location ->
    Fs.lookup location (Directory entries) = Some n ->
    entryPath (appDir workDir) location = Path.joinAny (appDir workDir) relpath ->
    Fs.lookup location (Directory entries') = None /\
    forall p, within (entryPath (appDir workDir) location) p ->
              ~ In p (findFilesToSign exitStatus (appDir workDir) entries').
Proof.
  intros Hwf H. rewrite removeAll_eq in H. cbn [outcomeOf snd] in H.
  destruct (forallb _ _) eqn:Hchecks; [|discriminate].
  injection H as H.
  destruct (EntryFacts.remove_all _ _ _ Hwf H) as (Hwf' & Hkeep & Hgone).
  split.
  { intros relpath Hin E. rewrite forallb_forall in Hchecks.
    assert (Hr : Fs.resolves (lstat host (removalPath workDir relpath)) = true).
    { apply Hchecks. apply in_map_iff. now exists relpath. }
    unfold removalPath in Hr. rewrite E in Hr. discriminate. }
  split; [exact Hwf'|]. split; [exact Hkeep|].
  intros relpath location n Hin Hfound Hthere _.
  assert (Hmiss : Fs.lookup location (Directory entries') = None).
  { apply Hgone. apply in_map_iff. exists relpath. now split. }
  split; [exact Hmiss|].
  intros p (s & Hs & ->) Hp.
  apply visit_sound in Hp as (m & Hloc & _).
  apply EntryFacts.located_lookup in Hloc as (cs & E & Hcs & Hl); [|exact Hwf'].
  rewrite EntryFacts.entryPath_suffix, StringFacts.append_assoc in E.
  apply StringFacts.append_cancel_l in E.
  symmetry in E.
  apply EntryFacts.suffixOf_prefix in E as (more & ->);
    [| exact (EntryFacts.lookup_separatorFree _ _ _ Hwf Hthere) | exact Hcs | exact Hs].
  apply EntryFacts.lookup_prefix in Hl as (a & Ha). congruence.
Qed.

End RemovalSuccess.

Lemma removed_entries_are_not_yielded_witness :
  wellFormed (Directory Sample.entries) /\
  outcomeOf (removeAll Sample.host Sample.workDir (Some Sample.entries)
               (remove Sample.config)) =
    Ok (Some MoreSamples.afterRemoval) /\
  Fs.lookup ["Contents"; "Resources"; "unused.txt"]
    (Directory MoreSamples.afterRemoval) = None.
Proof.
  assert (E : outcomeOf (removeAll Sample.host Sample.workDir (Some Sample.entries)
                           (remove Sample.config)) =
              Ok (Some MoreSamples.afterRemoval)) by (vm_compute; reflexivity).
  split; [exact sample_wellFormed|]. split; [exact E|].
  destruct (removed_entries_are_not_yielded Sample.host Sample.workDir Sample.unsigned
              Sample.entries MoreSamples.afterRemoval (remove Sample.config)
              sample_wellFormed E) as (_ & _ & _ & Hgone).
  refine (proj1 (Hgone "Contents/Resources/unused.txt"
                   ["Contents"; "Resources"; "unused.txt"]
                   (RegularFile (Some [])) _ _ _ _)).
  - left. reflexivity.
  - vm_compute. reflexivity.
  - vm_compute. reflexivity.
  - vm_compute. reflexivity.
Defined.

(** * The command line of the application *)

Module CommandLineFacts.

Import CommandLine.

(** [findIndex] finds the first element that passes the test. *)
Lemma findIndex_spec {A : Type} (test : A -> bool) (xs : list A) :
  (findIndex test xs = (-1)%Z /\ Forall (fun x => test x = false) xs) \/
  exists pre x post,
    xs = pre ++ x :: post /\
    Forall (fun y => test y = false) pre /\ test x = true /\
    findIndex test xs = Z.of_nat (List.length pre).
Proof.
  induction xs as [|x xs IH]; [left; now split|].
  cbn [findIndex]. destruct (test x) eqn:Ex.
  - right. now exists [], x, xs.
  - destruct IH as [[-> Hall] | (pre & y & post & -> & Hpre & Hy & ->)].
    + left. split; [reflexivity | now constructor].
    + right. exists (x :: pre), y, post.
      split; [reflexivity|]. split; [now constructor|]. split; [exact Hy|].
      destruct (Z.ltb_spec (Z.of_nat (List.length pre)) 0); [lia|].
      cbn [List.length]. lia.
Qed.

Lemma findIndex_first {A : Type} (test : A -> bool) (pre : list A) (x : A)
    (post : list A) :
  Forall (fun y => test y = false) pre -> test x = true ->
  findIndex test (pre ++ x :: post) = Z.of_nat (List.length pre).
Proof.
  intros Hpre Hx. induction Hpre as [|y pre Hy _ IH].
  - cbn. now rewrite Hx.
  - cbn [app findIndex]. rewrite Hy, IH.
    destruct (Z.ltb_spec (Z.of_nat (List.length pre)) 0); [lia|].
    cbn [List.length]. lia.
Qed.

Lemma findIndex_none {A : Type} (test : A -> bool) (xs : list A) :
  Forall (fun x => test x = false) xs -> findIndex test xs = (-1)%Z.
Proof.
  induction 1 as [|x xs Hx _ IH]; [reflexivity|].
  cbn [findIndex]. now rewrite Hx, IH.
Qed.

Lemma slice_after {A : Type} (pre : list A) (x : A) (post : list A) :
  slice (pre ++ x :: post) (Z.of_nat (List.length pre) + 1) = post.
Proof.
  unfold slice.
  destruct (Z.ltb_spec (Z.of_nat (List.length pre) + 1) 0); [lia|].
  replace (Z.to_nat (Z.of_nat (List.length pre) + 1)) with (List.length (pre ++ [x]))
    by (rewrite length_app; cbn; lia).
  change (pre ++ x :: post) with (pre ++ [x] ++ post).
  rewrite app_assoc. now rewrite skipn_app, skipn_all, Nat.sub_diag.
Qed.

Lemma gtb_minus_one (i : Z) : (i >? -1)%Z = (i >=? 0)%Z.
Proof.
  destruct (Z.gtb_spec i (-1)), (Z.geb_spec i 0); (reflexivity || lia).
Qed.

Lemma test_iff (expression : regExp) (s : string) :
  test expression s = true <->
  exists before rest, s = (before ++ rest)%string /\ matchesHere expression rest = true.
Proof.
  induction s as [|c s IH]; cbn [test].
  - rewrite orb_false_r. split.
    + intros H. now exists EmptyString, EmptyString.
    + intros ([|d before] & rest & E & H); [|discriminate].
      cbn in E. now subst.
  - rewrite orb_true_iff, IH. split.
    + intros [H | (before & rest & -> & H)].
      * now exists EmptyString, (String c s).
      * now exists (String c before), rest.
    + intros ([|d before] & rest & E & H); cbn in E.
      * left. now subst.
      * injection E as <- ->. right. now exists before, rest.
Qed.

Lemma devScript_here (s : string) :
  matchesHere devScript s = true <->
  exists sep any,
    s = String sep ("dev" ++ String any "mjs")%string /\
    separator sep = true /\ dot any = true.
Proof.
  split.
  - destruct s as [|c0 [|c1 [|c2 [|c3 [|c4 [|c5 [|c6 [|c7 [|c8 s]]]]]]]]];
      cbn [matchesHere devScript]; rewrite ?andb_false_r; try discriminate.
    unfold char. rewrite !andb_true_iff, !Ascii.eqb_eq.
    intros (H0 & <- & <- & <- & H4 & <- & <- & <- & _).
    now exists c0, c4.
  - intros (sep & any & -> & Hs & Ha). cbn. now rewrite Hs, Ha.
Qed.

End CommandLineFacts.

Section CommandLineArgs.

Import CommandLine.

(** X19. The expression that finds the development script accepts
    exactly the arguments that end in a slash or backslash, [dev], one
    character that is no line terminator, and [mjs]: the script
    [dev.mjs] in any directory, and also a name such as [dev-mjs], since
    the point of the pattern stands for any character. *)
Theorem devScript_accepts_exactly (arg : string) :
  test devScript arg = true <->
  exists before sep any,
    arg = (before ++ String sep ("dev" ++ String any "mjs"))%string /\
    separator sep = true /\ dot any = true.
Proof.
  rewrite CommandLineFacts.test_iff. split.
  - intros (before & rest & -> & H).
    apply CommandLineFacts.devScript_here in H as (sep & any & -> & Hs & Ha).
    now exists before, sep, any.
  - intros (before & sep & any & -> & Hs & Ha).
    exists before. eexists. split; [reflexivity|].
    apply CommandLineFacts.devScript_here. now exists sep, any.
Qed.

(** X20. Whatever the mode, the arguments returned are a tail of
    [process.argv] that leaves out at least its first element, the path of
    the program. *)
Theorem getCommandLineArgs_is_a_proper_tail (process : Process) :
  exists dropped,
    argv process = dropped ++ getCommandLineArgs process /\
    (argv process <> [] -> dropped <> []).
Proof.
  unfold getCommandLineArgs. destruct (isPackaged process).
  - destruct (argv process) as [|program args].
    + now exists [].
    + exists [program]. split; [reflexivity | discriminate].
  - assert (G : forall test : string -> bool,
               exists dropped,
                 argv process =
                   dropped ++
                   (if (findIndex test (argv process) >=? 0)%Z
                    then slice (argv process) (findIndex test (argv process) + 1)
                    else []) /\
                 (argv process <> [] -> dropped <> [])).
    { intros t.
      destruct (CommandLineFacts.findIndex_spec t (argv process))
        as [[-> _] | (pre & x & post & E & _ & _ & Ei)].
      - exists (argv process). cbn. rewrite app_nil_r. now split.
      - rewrite Ei, E, CommandLineFacts.slice_after.
        destruct (Z.geb_spec (Z.of_nat (List.length pre)) 0); [|lia].
        exists (pre ++ [x]). rewrite <- app_assoc. split; [reflexivity|].
        intros _. now destruct pre. }
    destruct (startsWith _ "dev"); cbv zeta; [apply G|].
    unfold indexOf. rewrite CommandLineFacts.gtb_minus_one. apply G.
Qed.

(** X21. Outside the packaged application the arguments are those after
    the first marker: in a development run the first argument that the
    expression for the development script accepts, otherwise the first
    [--disable-dev-shm-usage]; when no argument is a marker, there are no
    arguments at all. *)
Theorem getCommandLineArgs_after_first_marker (process : Process) :
  isPackaged process = false ->
  let marker :=
    if startsWith (match NODE_ENV process with
                   | Some s => s
                   | None => EmptyString
                   end) "dev"
    then test devScript
    else String.eqb "--disable-dev-shm-usage" in
  (forall before found args,
     argv process = before ++ found :: args ->
     Forall (fun arg => marker arg = false) before -> marker found = true ->
     getCommandLineArgs process = args) /\
  (Forall (fun arg => marker arg = false) (argv process) ->
   getCommandLineArgs process = []).
Proof.
  intros Hp marker. unfold getCommandLineArgs. rewrite Hp.
  subst marker. destruct (startsWith _ "dev"); cbv zeta; unfold indexOf; split.
  - intros before found args E Hb Hf.
    rewrite E, (CommandLineFacts.findIndex_first _ _ _ _ Hb Hf), CommandLineFacts.slice_after.
    now destruct (Z.geb_spec (Z.of_nat (List.length before)) 0); [|lia].
  - intros Hall. now rewrite (CommandLineFacts.findIndex_none _ _ Hall).
  - intros before found args E Hb Hf.
    rewrite E, (CommandLineFacts.findIndex_first _ _ _ _ Hb Hf), CommandLineFacts.slice_after.
    now destruct (Z.gtb_spec (Z.of_nat (List.length before)) (-1)); [|lia].
  - intros Hall. now rewrite (CommandLineFacts.findIndex_none _ _ Hall).
Qed.

End CommandLineArgs.


Lemma getCommandLineArgs_after_first_marker_witness :
  CommandLine.getCommandLineArgs CommandLine.devRun = ["--no-modal-dialogs"] /\
  CommandLine.getCommandLineArgs CommandLine.e2eRun = [].
Proof.
  split.
  - apply (proj1 (getCommandLineArgs_after_first_marker
                    CommandLine.devRun eq_refl)
             ["/src/node_modules/electron/dist/electron"; "/src"; "8888";
              "/usr/bin/node"]
             "../scripts/dev.mjs").
    + reflexivity.
    + repeat constructor.
    + reflexivity.
  - apply (proj1 (getCommandLineArgs_after_first_marker
                    CommandLine.e2eRun eq_refl)
             ["/src/node_modules/electron/dist/electron"; "--inspect=0";
              "--remote-debugging-port=0"; "/src"; "--disable-gpu";
              "--whitelisted-ips="]
             "--disable-dev-shm-usage").
    + reflexivity.
    + repeat constructor.
    + reflexivity.
Defined.

Lemma getCommandLineArgs_is_a_proper_tail_witness :
  exists dropped,
    CommandLine.argv CommandLine.devRun =
      dropped ++ CommandLine.getCommandLineArgs CommandLine.devRun /\
    dropped <> [].
Proof.
  destruct (getCommandLineArgs_is_a_proper_tail CommandLine.devRun)
    as (dropped & E & Hne).
  exists dropped. split; [exact E|]. apply Hne. discriminate.
Defined.
